(** * ROMP helper: frame codec, session, server loop and client dispatcher

    A shallow embedding of [romp_helper.c] (the C helper of the Ruby Object
    Message Proxy) together with the properties of its wire protocol.

    Conventions of the embedding.
    - A byte in memory or on the wire is a [Z] in [0, 256): the bit pattern of
      the C [char].  Storing an integer into a [char] keeps its low 8 bits.
    - A [uint16_t] is a [Z] in [0, 65536); conversions to it are written out
      with [uint16].
    - A file descriptor is modelled by the byte stream at its end.
    - Calls into the Ruby interpreter that leave the helper (Marshal, the
      object registry, the invoked method, the caller's block, the caller's
      stack) are variables of a section. *)

From Stdlib Require Import ZArith List String Lia Bool.
From stdpp Require Import base list.
Import ListNotations.
Local Open Scope Z_scope.

(* ------------------------------------------------------------------------- *)
(** ** Useful macros *)
(* ------------------------------------------------------------------------- *)

(** The value a [char] holds after an integer is assigned to it. *)
Definition to_char (z : Z) : Z := z mod 256.

(** Conversion to [uint16_t]. *)
Definition uint16 (z : Z) : Z := z mod 65536.

(** [PUTSHORT(s, buf)]: [*buf = s >> 8; ++buf; *buf = s & 0xff; ++buf].
    The cursor [buf] is an index into the buffer it walks. *)
Definition PUTSHORT (s : Z) (mem : list Z) (buf : nat) : list Z * nat :=
  let mem := <[buf := to_char (Z.shiftr s 8)]> mem in
  let buf := S buf in
  let mem := <[buf := to_char (Z.land s 255)]> mem in
  let buf := S buf in
  (mem, buf).

(** [GETSHORT(s, buf)] for a [uint16_t] destination [s]:
    [s = (unsigned char)*buf; ++buf; s = (s << 8) | (unsigned char)*buf; ++buf]. *)
Definition GETSHORT (mem : list Z) (buf : nat) : Z * nat :=
  let s := uint16 (nth buf mem 0) in
  let buf := S buf in
  let s := uint16 (Z.lor (Z.shiftl s 8) (nth buf mem 0)) in
  let buf := S buf in
  (s, buf).

(* ------------------------------------------------------------------------- *)
(** ** Session constants *)
(* ------------------------------------------------------------------------- *)

Definition ROMP_REQUEST       : Z := 0x1001.
Definition ROMP_REQUEST_BLOCK : Z := 0x1002.
Definition ROMP_ONEWAY        : Z := 0x1003.
Definition ROMP_ONEWAY_SYNC   : Z := 0x1004.
Definition ROMP_RETVAL        : Z := 0x2001.
Definition ROMP_EXCEPTION     : Z := 0x2002.
Definition ROMP_YIELD         : Z := 0x2003.
Definition ROMP_SYNC          : Z := 0x4001.
Definition ROMP_NULL_MSG      : Z := 0x4002.
Definition ROMP_MSG_START     : Z := 0x4242.
Definition ROMP_MAX_ID        : Z := Z.shiftl 1 16.
Definition ROMP_MAX_MSG_TYPE  : Z := Z.shiftl 1 16.

Definition ROMP_BUFFER_SIZE   : nat := 16.

(** The four [PUTSHORT]s of [send_message_helper], on the session buffer. *)
Definition put_header (mem : list Z) (len message_type object_id : Z) : list Z :=
  let buf := 0%nat in
  let '(mem, buf) := PUTSHORT ROMP_MSG_START mem buf in
  let '(mem, buf) := PUTSHORT len mem buf in
  let '(mem, buf) := PUTSHORT message_type mem buf in
  let '(mem, buf) := PUTSHORT object_id mem buf in
  mem.

(** The four [GETSHORT]s of [get_message]:
    [(magic, data_len, message_type, object_id)]. *)
Definition get_header (mem : list Z) : Z * Z * Z * Z :=
  let buf := 0%nat in
  let '(magic, buf) := GETSHORT mem buf in
  let '(data_len, buf) := GETSHORT mem buf in
  let '(message_type, buf) := GETSHORT mem buf in
  let '(object_id, buf) := GETSHORT mem buf in
  (magic, data_len, message_type, object_id).

(* ------------------------------------------------------------------------- *)
(** ** Ruby values, exceptions and the interpreter *)
(* ------------------------------------------------------------------------- *)

(** The Ruby objects the helper handles.  An exception object carries its
    class, its message and its backtrace (an array of strings, or [Qnil]
    when it was never raised).  [Session_Data] wraps the [ROMP_Session] of
    the endpoint, [Proxy_Data p] wraps the [Proxy_Object] at address [p];
    [Object o] is any other object (a mutex, the registry, a target). *)
#[warnings="-register-all"]
Inductive VALUE : Type :=
| Qnil
| Qtrue
| Qfalse
| Fixnum (n : Z)
| RString (s : string)
| RArray (a : list VALUE)
| Exception (klass : string) (mesg : VALUE) (bt : VALUE)
| Object_Reference (object_id : Z)
| Session_Data
| Proxy_Data (p : nat)
| Object (o : nat).

(** What [message] answers on an exception of class [klass] that holds
    [mesg]: the name of the class stands in for no message. *)
Definition message_text (klass : string) (mesg : VALUE) : VALUE :=
  match mesg with
  | Qnil => RString klass
  | _ => mesg
  end.

(** What a call into Ruby does: it returns, or it raises an exception object. *)
Inductive outcome (A : Type) : Type :=
| Return (a : A)
| Raise (exc : VALUE).
Arguments Return {A} a.
Arguments Raise {A} exc.

(** The interpreter around the helper: what the [rb_funcall]s that leave it
    answer.  [send] is a method call without a block, [send_iterate] the
    same call under [rb_iterate]: the values the method yields, then its
    result.  [block] is the block of the client's current method call.
    [slice_bang a min max] is the array left by [a.slice!(min..max)]. *)
Class Ruby : Type := {
  Marshal_dump : VALUE -> outcome (list Z);
  Marshal_load : list Z -> outcome VALUE;
  get_object : VALUE -> Z -> outcome VALUE;
  send : VALUE -> VALUE -> outcome VALUE;
  send_iterate : VALUE -> VALUE -> list VALUE * outcome VALUE;
  slice_bang : list VALUE -> Z -> Z -> outcome (list VALUE);
  caller : list VALUE;
  block : option (VALUE -> outcome VALUE)
}.

(* ------------------------------------------------------------------------- *)
(** ** The state of an endpoint *)
(* ------------------------------------------------------------------------- *)

(** [read_fd] holds the bytes the peer has sent and the session has not read
    yet (after them the peer has closed); what is written to [write_fd] is
    recorded in the trace.  [io_object] is not modelled. *)
Record ROMP_Session : Type := mkSession {
  read_fd : list Z;
  buf : list Z;
  nonblock : bool
}.

Record ROMP_Message : Type := mkMessage {
  message_type : Z;
  object_id : Z;
  message_obj : VALUE
}.

(** The model has one session; every [ROMP_Session *] points to it. *)
Inductive session_ptr : Type := the_session.

Record Server_Info : Type := mkServerInfo {
  si_session : session_ptr;
  si_message : ROMP_Message;
  si_obj : VALUE;
  si_debug : bool
}.

Record Proxy_Object : Type := mkProxy {
  po_session : session_ptr;
  po_ruby_session : VALUE;
  po_object_id : Z;
  po_message : VALUE;
  po_mutex : VALUE
}.

(** What an endpoint does that the outside can observe, in order. *)
Inductive event : Type :=
| EvWrite (data : list Z)          (* a completed [ruby_write_throw] *)
| EvRead (data : list Z)           (* the bytes a [ruby_read_throw] took *)
| EvSend (obj msg : VALUE)         (* a method call entered *)
| EvPrint (exc : VALUE)            (* [ROMP.print_exception] *)
| EvYield (v : VALUE)              (* the caller's block entered *)
| EvLock (m : VALUE)
| EvUnlock (m : VALUE).

(** [proxies] is the heap of [Proxy_Object] structs, [server_info] the
    struct in the frame of [server_loop]. *)
Record world : Type := mkWorld {
  session : ROMP_Session;
  proxies : list Proxy_Object;
  server_info : Server_Info;
  trace : list event
}.

Definition set_session (s : ROMP_Session) (w : world) : world :=
  mkWorld s (proxies w) (server_info w) (trace w).
Definition set_proxies (ps : list Proxy_Object) (w : world) : world :=
  mkWorld (session w) ps (server_info w) (trace w).
Definition set_server_info (si : Server_Info) (w : world) : world :=
  mkWorld (session w) (proxies w) si (trace w).
Definition log (ev : event) (w : world) : world :=
  mkWorld (session w) (proxies w) (server_info w) (trace w ++ [ev]).

Definition set_read_fd (bs : list Z) (s : ROMP_Session) : ROMP_Session :=
  mkSession bs (buf s) (nonblock s).
Definition set_buf (bs : list Z) (s : ROMP_Session) : ROMP_Session :=
  mkSession (read_fd s) bs (nonblock s).
Definition set_nonblock (b : bool) (s : ROMP_Session) : ROMP_Session :=
  mkSession (read_fd s) (buf s) b.

Definition set_message (m : ROMP_Message) (si : Server_Info) : Server_Info :=
  mkServerInfo (si_session si) m (si_obj si) (si_debug si).
Definition set_obj (o : VALUE) (si : Server_Info) : Server_Info :=
  mkServerInfo (si_session si) (si_message si) o (si_debug si).
Definition set_po_message (m : VALUE) (p : Proxy_Object) : Proxy_Object :=
  mkProxy (po_session p) (po_ruby_session p) (po_object_id p) m (po_mutex p).

(** The bytes written to [write_fd] along a trace, and the events of a kind. *)
Fixpoint written (t : list event) : list Z :=
  match t with
  | [] => []
  | EvWrite data :: t => data ++ written t
  | _ :: t => written t
  end.

Definition is_read (ev : event) : bool :=
  match ev with EvRead _ => true | _ => false end.
Definition is_print (ev : event) : bool :=
  match ev with EvPrint _ => true | _ => false end.
Definition is_send (ev : event) : bool :=
  match ev with EvSend _ _ => true | _ => false end.

(* ------------------------------------------------------------------------- *)
(** ** The monad of the helper: state and Ruby exceptions *)
(* ------------------------------------------------------------------------- *)

Definition M (A : Type) : Type := world -> outcome A * world.

Definition ret {A} (a : A) : M A := fun w => (Return a, w).
Definition raise {A} (exc : VALUE) : M A := fun w => (Raise exc, w).
Definition bind {A B} (m : M A) (k : A -> M B) : M B :=
  fun w =>
    match m w with
    | (Return a, w') => k a w'
    | (Raise exc, w') => (Raise exc, w')
    end.
Definition lift {A} (o : outcome A) : M A := fun w => (o, w).
Definition gets {A} (f : world -> A) : M A := fun w => (Return (f w), w).
Definition modify (f : world -> world) : M unit := fun w => (Return tt, f w).

Declare Scope romp_scope.
Delimit Scope romp_scope with romp.
Notation "x <- c1 ;; c2" := (bind c1 (fun x => c2))
  (at level 100, c1 at next level, right associativity) : romp_scope.
Notation "c1 ;; c2" := (bind c1 (fun _ => c2))
  (at level 100, right associativity) : romp_scope.
Local Open Scope romp_scope.

(** A C loop: the body answers [Some a] to leave the loop with [a] and
    [None] to go round again.  [None] of [loop] is fuel running out. *)
Fixpoint loop {A} (fuel : nat) (body : M (option A)) (w : world)
  : option (outcome A * world) :=
  match fuel with
  | O => None
  | S fuel =>
    match body w with
    | (Raise exc, w') => Some (Raise exc, w')
    | (Return (Some a), w') => Some (Return a, w')
    | (Return None, w') => loop fuel body w'
    end
  end.

(** Every loop of the helper reads at least one header block per round, so
    the pending input bounds the rounds. *)
Definition rounds (w : world) : nat := S (length (read_fd (session w))).

(* ------------------------------------------------------------------------- *)
(** ** Utility functions *)
(* ------------------------------------------------------------------------- *)

Section Helper.
Context {rb : Ruby}.

(** [rb_raise(klass, mesg)]: a new exception, its backtrace the current
    stack. *)
Definition rb_raise {A} (klass mesg : string) : M A :=
  raise (Exception klass (RString mesg) (RArray caller)).

(** [NUM2INT]: a Fixnum in the range of [int], else an exception. *)
Definition NUM2INT (v : VALUE) : M Z :=
  match v with
  | Fixnum n =>
    if (- 2 ^ 31 <=? n) && (n <? 2 ^ 31) then ret n
    else rb_raise "RangeError" "integer too big to convert to `int'"
  | Qnil => rb_raise "TypeError" "no implicit conversion from nil to integer"
  | _ => rb_raise "TypeError" "can't convert to integer"
  end.

(** The I/O layer, by what its retry loops establish: all [count] bytes are
    transferred, or the descriptor is at its end and [IOError] is raised
    after what was there has been taken.  The write end here is one that is
    ready and takes what it is given: [ruby_write_throw] then does one
    [write] of all the bytes.  What it does on the other answers of the
    system, a failed [write] or [select] among them, is in [WriteEnd]
    below. *)
Definition ruby_write_throw (data : list Z) (count : nat) (nonblock : bool)
  : M Z :=
  modify (log (EvWrite (firstn count data))) ;;
  ret (Z.of_nat count).

(** The bytes transferred are part of the answer also when the call raises:
    they are in the caller's buffer by then. *)
Definition ruby_read_throw (count : nat) (nonblock : bool) (w : world)
  : list Z * outcome Z * world :=
  let avail := read_fd (session w) in
  let data := firstn count avail in
  let w := set_session (set_read_fd (skipn count avail) (session w)) w in
  let w := log (EvRead data) w in
  if (count <=? length avail)%nat
  then (data, Return (Z.of_nat count), w)
  else (data, Raise (Exception "IOError" (RString "disconnected")
                       (RArray caller)), w).

(** [exc.message]: the message, or the name of the class when there is none. *)
Definition ruby_exc_message (exc : VALUE) : M VALUE :=
  match exc with
  | Exception klass mesg _ => ret (message_text klass mesg)
  | _ => rb_raise "NoMethodError" "undefined method `message'"
  end.

(** [exc.backtrace]. *)
Definition ruby_exc_backtrace (exc : VALUE) : M VALUE :=
  match exc with
  | Exception _ _ bt => ret bt
  | _ => rb_raise "NoMethodError" "undefined method `backtrace'"
  end.

(** [Kernel.caller(0)]. *)
Definition ruby_caller : M VALUE := ret (RArray caller).

(** [rb_ary_concat(x, y)].  The C function takes [x] for an array. *)
Definition rb_ary_concat (x y : VALUE) : M VALUE :=
  match x, y with
  | RArray a, RArray b => ret (RArray (a ++ b))
  | _, _ => rb_raise "TypeError" "can't convert into Array"
  end.

(** [Kernel.raise(exc, msg, bt)]: raises an exception of the class of [exc]
    with message [msg] and backtrace [bt]. *)
Definition ruby_raise (exc msg bt : VALUE) : M unit :=
  match exc with
  | Exception klass _ _ => raise (Exception klass msg bt)
  | _ => rb_raise "TypeError" "exception class/object expected"
  end.

(** [rb_apply(obj, id_send, msg)]. *)
Definition ruby_send (obj msg : VALUE) : M VALUE :=
  modify (log (EvSend obj msg)) ;;
  lift (send obj msg).

(** [obj.get_object(object_id)]. *)
Definition ruby_get_object (obj : VALUE) (object_id : Z) : M VALUE :=
  lift (get_object obj object_id).

(** [obj.slice!(min..max)] on the backtrace array of an exception: the
    array is changed in place, so the exception is. *)
Definition ruby_slice_bang (exc : VALUE) (min max : Z) : M VALUE :=
  match exc with
  | Exception klass mesg (RArray a) =>
    a' <- lift (slice_bang a min max) ;;
    ret (Exception klass mesg (RArray a'))
  | _ => rb_raise "NoMethodError" "undefined method `slice!'"
  end.

Definition ruby_print_exception (exc : VALUE) : M unit :=
  modify (log (EvPrint exc)).

Definition ruby_lock (obj : VALUE) : M VALUE :=
  modify (log (EvLock obj)) ;; ret Qnil.

Definition ruby_unlock (obj : VALUE) : M VALUE :=
  modify (log (EvUnlock obj)) ;; ret Qnil.

(** [rb_ensure(body, ensure)]. *)
Definition rb_ensure {A} (body : M A) (ensure : M VALUE) : M A :=
  fun w =>
    match body w with
    | (r, w') =>
      match ensure w' with
      | (Return _, w'') => (r, w'')
      | (Raise exc, w'') => (Raise exc, w'')
      end
    end.

(** [rb_rescue2(body, rescue, rb_eException, 0)]. *)
Definition rb_rescue2 {A} (body : M A) (rescue : VALUE -> M A) : M A :=
  fun w =>
    match body w with
    | (Return a, w') => (Return a, w')
    | (Raise exc, w') => rescue exc w'
    end.

(** [rb_protect(body, &status)]: nothing is raised; the status tells. *)
Definition rb_protect (body : M VALUE) : M (VALUE * Z) :=
  fun w =>
    match body w with
    | (Return v, w') => (Return (v, 0), w')
    | (Raise _, w') => (Return (Qnil, 6), w')
    end.

(* ------------------------------------------------------------------------- *)
(** ** Marshalling functions *)
(* ------------------------------------------------------------------------- *)

Definition marshal_dump (obj : VALUE) : M (list Z) := lift (Marshal_dump obj).

Definition marshal_load (str : list Z) : M VALUE := lift (Marshal_load str).

(* ------------------------------------------------------------------------- *)
(** ** Session functions *)
(* ------------------------------------------------------------------------- *)

Definition send_message_helper (sp : session_ptr) (data : list Z) (len : nat)
    (message_type object_id : Z) : M unit :=
  s <- gets session ;;
  let mem := put_header (buf s) (Z.of_nat len) message_type object_id in
  modify (set_session (set_buf mem s)) ;;
  ruby_write_throw mem ROMP_BUFFER_SIZE (nonblock s) ;;
  ruby_write_throw data len (nonblock s) ;;
  ret tt.

Definition send_message (sp : session_ptr) (message : ROMP_Message) : M unit :=
  data <- marshal_dump (message_obj message) ;;
  send_message_helper sp data (length data)
    (message_type message) (object_id message).

Definition send_null_message (sp : session_ptr) : M unit :=
  send_message_helper sp [] 0 ROMP_NULL_MSG 0.

(** One round of the [do ... while(magic != ROMP_MSG_START)] of
    [get_message]: the fields of [message] are assigned in every round. *)
Definition get_message_round (message : ROMP_Message)
  : M (option (Z * ROMP_Message)) :=
  fun w =>
    let s := session w in
    let '(data, r, w) := ruby_read_throw ROMP_BUFFER_SIZE (nonblock s) w in
    let mem := data ++ skipn (length data) (buf s) in
    let w := set_session (set_buf mem (session w)) w in
    match r with
    | Raise exc => (Raise exc, w)
    | Return _ =>
      let '(magic, data_len, message_type, object_id) := get_header mem in
      let message := mkMessage message_type object_id (message_obj message) in
      if magic =? ROMP_MSG_START
      then (Return (Some (data_len, message)), w)
      else (Return None, w)
    end.

(** Raised only where the fuel of a loop runs out, which [rounds] excludes. *)
Definition out_of_fuel {A} : M A :=
  raise (Exception "fatal" (RString "out of fuel") Qnil).

(** [get_message(session, &message)]: the three fields of the out-parameter
    are the answer. *)
Definition get_message (sp : session_ptr) : M ROMP_Message :=
  fun w =>
    match loop (rounds w) (get_message_round (mkMessage 0 0 Qnil)) w with
    | None => out_of_fuel w
    | Some (Raise exc, w) => (Raise exc, w)
    | Some (Return (data_len, message), w) =>
      let '(ruby_str, r, w) :=
        ruby_read_throw (Z.to_nat data_len) (nonblock (session w)) w in
      match r with
      | Raise exc => (Raise exc, w)
      | Return _ =>
        if negb (message_type message =? ROMP_NULL_MSG)
        then
          (obj <- marshal_load ruby_str ;;
           ret (mkMessage (message_type message) (object_id message) obj)) w
        else
          (Return (mkMessage (message_type message) (object_id message) Qnil),
           w)
      end
    end.

Definition session_finished (sp : session_ptr) : bool := false.

Definition send_sync (sp : session_ptr) : M unit :=
  let message := mkMessage ROMP_SYNC 0 Qnil in
  send_message sp message.

Definition is_Qnil (v : VALUE) : bool :=
  match v with Qnil => true | _ => false end.

Definition wait_sync (sp : session_ptr) : M unit :=
  message <- get_message sp ;;
  if negb (message_type message =? ROMP_SYNC)
     && negb (object_id message =? 1)
     && negb (is_Qnil (message_obj message))
  then rb_raise "RuntimeError" "ROMP synchronization failed"
  else ret tt.

Definition reply_sync (sp : session_ptr) (value : Z) : M unit :=
  if value =? 0
  then
    let message := mkMessage ROMP_SYNC 1 Qnil in
    send_message sp message
  else ret tt.

(* ------------------------------------------------------------------------- *)
(** ** Server functions *)
(* ------------------------------------------------------------------------- *)

Definition server_funcall : M VALUE :=
  si <- gets server_info ;;
  ruby_send (si_obj si) (message_obj (si_message si)).

Definition server_send_yield (retval : VALUE) : M VALUE :=
  modify (fun w =>
    set_server_info (set_message (mkMessage ROMP_YIELD 0 retval)
                       (server_info w)) w) ;;
  si <- gets server_info ;;
  send_message (si_session si) (si_message si) ;;
  ret Qnil.

Definition server_send_retval (retval : VALUE) : M VALUE :=
  modify (fun w =>
    set_server_info (set_message (mkMessage ROMP_RETVAL 0 retval)
                       (server_info w)) w) ;;
  si <- gets server_info ;;
  send_message (si_session si) (si_message si) ;;
  ret Qnil.

(** [RARRAY(v)->len].  The C code reads the length through the VALUE
    whatever it is; on an array that is its length.  On anything else the
    read has no defined result: the 0 here stands for it, and the [slice!]
    that follows in [server_exception] raises.  The theorems on what
    [server_exception] sends are stated for backtraces that are arrays. *)
Definition RARRAY_len (v : VALUE) : Z :=
  match v with RArray a => Z.of_nat (length a) | _ => 0 end.

(** [message_obj] and [exc] are one object: the message carries the
    backtrace as [slice!] leaves it. *)
Definition server_exception (exc : VALUE) : M VALUE :=
  caller_v <- ruby_caller ;;
  bt <- ruby_exc_backtrace exc ;;
  modify (fun w =>
    set_server_info (set_message (mkMessage ROMP_EXCEPTION 0 exc)
                       (server_info w)) w) ;;
  exc <- ruby_slice_bang exc (RARRAY_len bt - RARRAY_len caller_v - 1) (-1) ;;
  modify (fun w =>
    set_server_info (set_message (mkMessage ROMP_EXCEPTION 0 exc)
                       (server_info w)) w) ;;
  si <- gets server_info ;;
  (if si_debug si then ruby_print_exception exc else ret tt) ;;
  send_message (si_session si) (si_message si) ;;
  ret Qnil.

(** [rb_iterate(server_funcall, info, server_send_yield, info)]: the method
    runs with [server_send_yield] as its block. *)
Fixpoint yield_each (ys : list VALUE) (blk : VALUE -> M VALUE) : M unit :=
  match ys with
  | [] => ret tt
  | y :: ys => blk y ;; yield_each ys blk
  end.

Definition rb_iterate_server_funcall (blk : VALUE -> M VALUE) : M VALUE :=
  si <- gets server_info ;;
  let obj := si_obj si in
  let msg := message_obj (si_message si) in
  modify (log (EvSend obj msg)) ;;
  yield_each (fst (send_iterate obj msg)) blk ;;
  lift (snd (send_iterate obj msg)).

Definition server_reply : M VALUE :=
  si <- gets server_info ;;
  obj <- ruby_get_object (si_obj si) (object_id (si_message si)) ;;
  modify (fun w => set_server_info (set_obj obj (server_info w)) w) ;;
  si <- gets server_info ;;
  let ty := message_type (si_message si) in
  if ty =? ROMP_ONEWAY_SYNC then
    send_null_message (si_session si) ;;
    rb_protect server_funcall ;;
    ret Qnil
  else if ty =? ROMP_ONEWAY then
    rb_protect server_funcall ;;
    ret Qnil
  else if ty =? ROMP_REQUEST then
    retval <- ruby_send (si_obj si) (message_obj (si_message si)) ;;
    server_send_retval retval ;;
    ret Qnil
  else if ty =? ROMP_REQUEST_BLOCK then
    retval <- rb_iterate_server_funcall server_send_yield ;;
    server_send_retval retval ;;
    ret Qnil
  else if ty =? ROMP_SYNC then
    reply_sync (si_session si) (object_id (si_message si)) ;;
    ret Qnil
  else rb_raise "RuntimeError" "Bad session request".

(** One round of the [while] of [server_loop]. *)
Definition server_loop_round (resolve_server : VALUE) : M (option unit) :=
  si <- gets server_info ;;
  if session_finished (si_session si) then ret (Some tt)
  else
    message <- get_message (si_session si) ;;
    modify (fun w =>
      set_server_info (set_message message (server_info w)) w) ;;
    rb_rescue2 server_reply server_exception ;;
    modify (fun w =>
      set_server_info (set_obj resolve_server (server_info w)) w) ;;
    ret None.

(** The [message] of the frame of [server_loop] starts uninitialised: it is
    what the world holds there. *)
Definition server_loop (sp : session_ptr) (resolve_server : VALUE)
    (dbg : bool) : M unit :=
  fun w =>
    let w :=
      set_server_info
        (mkServerInfo sp (si_message (server_info w)) resolve_server dbg) w in
    match loop (rounds w) (server_loop_round resolve_server) w with
    | None => out_of_fuel w
    | Some r => r
    end.

(* ------------------------------------------------------------------------- *)
(** ** Client functions *)
(* ------------------------------------------------------------------------- *)

(** [Data_Get_Struct(self, Proxy_Object, proxy_object)]. *)
Definition Data_Get_Proxy (self : VALUE) : M nat :=
  fun w =>
    match self with
    | Proxy_Data p =>
      match proxies w !! p with
      | Some _ => (Return p, w)
      | None => rb_raise "TypeError" "wrong argument type" w
      end
    | _ => rb_raise "TypeError" "wrong argument type" w
    end.

(** Reading the struct behind a [Proxy_Object *]. *)
Definition deref (p : nat) : M Proxy_Object :=
  fun w =>
    match proxies w !! p with
    | Some obj => (Return obj, w)
    | None => rb_raise "TypeError" "wrong argument type" w
    end.

Definition is_Session (v : VALUE) : bool :=
  match v with Session_Data => true | _ => false end.

(** [Data_Make_Struct] clears the new struct: its [message] is the VALUE 0,
    [Qfalse]. *)
Definition ruby_proxy_object_new (self ruby_session ruby_mutex
    ruby_object_id : VALUE) : M VALUE :=
  n <- NUM2INT ruby_object_id ;;
  let object_id := uint16 n in
  if negb (is_Session ruby_session)
  then rb_raise "TypeError" "Expecting a session"
  else
    ps <- gets proxies ;;
    let proxy_object :=
      mkProxy the_session ruby_session object_id Qfalse ruby_mutex in
    modify (set_proxies (ps ++ [proxy_object])) ;;
    ret (Proxy_Data (length ps)).

Definition rb_cProxy_Object : VALUE := Object 0.

Definition msg_to_obj (message session mutex : VALUE) : M VALUE :=
  match message with
  | Object_Reference object_id =>
    ruby_proxy_object_new rb_cProxy_Object session mutex (Fixnum object_id)
  | _ => ret message
  end.

Definition rb_block_given_p : bool :=
  match block with Some _ => true | None => false end.

Definition rb_yield (v : VALUE) : M VALUE :=
  match block with
  | Some blk => modify (log (EvYield v)) ;; lift (blk v)
  | None => rb_raise "LocalJumpError" "yield called out of block"
  end.

(** One round of the [for(;;)] of [client_request]. *)
Definition client_request_round (obj : Proxy_Object) : M (option VALUE) :=
  msg <- get_message (po_session obj) ;;
  let ty := message_type msg in
  if ty =? ROMP_RETVAL then
    v <- msg_to_obj (message_obj msg) (po_ruby_session obj) (po_mutex obj) ;;
    ret (Some v)
  else if ty =? ROMP_YIELD then
    v <- msg_to_obj (message_obj msg) (po_ruby_session obj) (po_mutex obj) ;;
    rb_yield v ;;
    ret None
  else if ty =? ROMP_EXCEPTION then
    mesg <- ruby_exc_message (message_obj msg) ;;
    bt <- ruby_exc_backtrace (message_obj msg) ;;
    caller_v <- ruby_caller ;;
    bt <- rb_ary_concat bt caller_v ;;
    ruby_raise (message_obj msg) mesg bt ;;
    ret None
  else if ty =? ROMP_SYNC then
    value <- NUM2INT (message_obj msg) ;;
    reply_sync (po_session obj) value ;;
    ret None
  else rb_raise "RuntimeError" "Invalid msg type received".

Definition client_request (ruby_proxy_object : nat) : M VALUE :=
  obj <- deref ruby_proxy_object ;;
  let msg :=
    mkMessage (if rb_block_given_p then ROMP_REQUEST_BLOCK else ROMP_REQUEST)
      (po_object_id obj) (po_message obj) in
  send_message (po_session obj) msg ;;
  fun w =>
    match loop (rounds w) (client_request_round obj) w with
    | None => out_of_fuel w
    | Some r => r
    end.

Definition client_oneway (ruby_proxy_object : nat) : M VALUE :=
  obj <- deref ruby_proxy_object ;;
  let msg := mkMessage ROMP_ONEWAY (po_object_id obj) (po_message obj) in
  send_message (po_session obj) msg ;;
  ret Qnil.

Definition client_oneway_sync (ruby_proxy_object : nat) : M VALUE :=
  obj <- deref ruby_proxy_object ;;
  let msg := mkMessage ROMP_ONEWAY_SYNC (po_object_id obj) (po_message obj) in
  send_message (po_session obj) msg ;;
  get_message (po_session obj) ;;
  ret Qnil.

Definition client_sync (ruby_proxy_object : nat) : M VALUE :=
  obj <- deref ruby_proxy_object ;;
  send_sync (po_session obj) ;;
  wait_sync (po_session obj) ;;
  ret Qnil.

(* ------------------------------------------------------------------------- *)
(** ** Ruby interface functions *)
(* ------------------------------------------------------------------------- *)

(** The session [ruby_session_new] makes on an IO object whose read end will
    deliver [input]: a cleared struct, [nonblock = 0]. *)
Definition ruby_session_new (input : list Z) : ROMP_Session :=
  mkSession input (repeat 0 ROMP_BUFFER_SIZE) false.

Definition ruby_set_nonblock (self nonblock : VALUE) : M VALUE :=
  match nonblock with
  | Qtrue => modify (fun w => set_session (set_nonblock true (session w)) w) ;;
             ret Qnil
  | Qfalse => modify (fun w => set_session (set_nonblock false (session w)) w) ;;
              ret Qnil
  | _ => rb_raise "TypeError" "Expecting a boolean"
  end.

(** [proxy_object->message = message]. *)
Definition store_message (p : nat) (message : VALUE) : M unit :=
  modify (fun w =>
    match proxies w !! p with
    | Some obj => set_proxies (<[p := set_po_message message obj]> (proxies w)) w
    | None => w
    end).

Definition ruby_proxy_object_method_missing (self message : VALUE) : M VALUE :=
  proxy_object <- Data_Get_Proxy self ;;
  store_message proxy_object message ;;
  obj <- deref proxy_object ;;
  ruby_lock (po_mutex obj) ;;
  rb_ensure (client_request proxy_object) (ruby_unlock (po_mutex obj)).

Definition ruby_proxy_object_oneway (self message : VALUE) : M VALUE :=
  proxy_object <- Data_Get_Proxy self ;;
  store_message proxy_object message ;;
  obj <- deref proxy_object ;;
  ruby_lock (po_mutex obj) ;;
  rb_ensure (client_oneway proxy_object) (ruby_unlock (po_mutex obj)) ;;
  ret Qnil.

Definition ruby_proxy_object_oneway_sync (self message : VALUE) : M VALUE :=
  proxy_object <- Data_Get_Proxy self ;;
  store_message proxy_object message ;;
  obj <- deref proxy_object ;;
  ruby_lock (po_mutex obj) ;;
  rb_ensure (client_oneway_sync proxy_object) (ruby_unlock (po_mutex obj)) ;;
  ret Qnil.

Definition ruby_proxy_object_sync (self : VALUE) : M VALUE :=
  proxy_object <- Data_Get_Proxy self ;;
  obj <- deref proxy_object ;;
  ruby_lock (po_mutex obj) ;;
  rb_ensure (client_sync proxy_object) (ruby_unlock (po_mutex obj)) ;;
  ret Qnil.

Definition ruby_server_loop (self ruby_session resolve_server
    ruby_debug : VALUE) : M VALUE :=
  if negb (is_Session ruby_session)
  then rb_raise "TypeError" "Excpecting a session"
  else
    let debug :=
      negb (match ruby_debug with Qfalse => true | _ => false end)
      && negb (is_Qnil ruby_debug) in
    server_loop the_session resolve_server debug ;;
    ret Qnil.

End Helper.

(* ------------------------------------------------------------------------- *)
(** ** The write end, system call by system call *)
(* ------------------------------------------------------------------------- *)

(** What the system answers to one call on [write_fd], a [select] or a
    [write]: the value the call returns and, when that is -1, [errno]. *)
Record answer : Type := mkAnswer {
  returned : Z;
  errno : Z
}.

Definition EWOULDBLOCK : Z := 11.

(** What the platform has for a value of [errno]: the name of the exception
    class of that error, a subclass of [SystemCallError] ([Errno::EPIPE] for
    32), and its text ("Broken pipe"). *)
Class System : Type := {
  Errno : Z -> string;
  strerror : Z -> string
}.

(** [select] finding the descriptor ready; [write] taking [count] bytes. *)
Definition ready : answer := mkAnswer 1 0.
Definition accepts (count : nat) : answer := mkAnswer (Z.of_nat count) 0.

(** The answers to come are a script of finitely many; once it is used up
    the descriptor is ready and takes what it is given. *)
Definition next (dflt : answer) (os : list answer) : answer * list answer :=
  match os with
  | [] => (dflt, [])
  | a :: os => (a, os)
  end.

(** [ruby_write_throw] and the two senders with the system calls written
    out.  An [EvWrite] is here one [write] that returned, with the bytes it
    took. *)
Module WriteEnd.
Section WriteEnd.
Context {rb : Ruby} {sys : System}.

(** [rb_sys_fail(mesg)] raises the exception that belongs to [errno]: its
    class is the one of the error, its message the text of the error, then
    " - " and [mesg]. *)
Definition rb_sys_fail {A} (mesg : string) (errno : Z) : M A :=
  raise (Exception (Errno errno)
           (RString (String.append (strerror errno)
                       (String.append " - " mesg)))
           (RArray caller)).

(** [WRITE_HELPER] on the answer to [write(fd, buf, count)], which takes no
    more than [count] bytes: the cursor, [count] and [total] after it. *)
Definition WRITE_HELPER (a : answer) (buf : list Z) (count total : nat)
  : M (list Z * nat * nat) :=
  let write_count :=
    if returned a <? 0 then -1 else Z.min (returned a) (Z.of_nat count) in
  if write_count <? 0 then
    if negb (errno a =? EWOULDBLOCK) then rb_sys_fail "write" (errno a)
    else ret (buf, count, total)
  else if (write_count =? 0) && negb (Nat.eqb count 0) then
    rb_raise "IOError" "disconnected"
  else
    let k := Z.to_nat write_count in
    modify (log (EvWrite (firstn k buf))) ;;
    ret (skipn k buf, (count - k)%nat, (total + k)%nat).

(** A round of the [while] on a descriptor that is ready and takes all: it
    is the last, [count] being 0 after it. *)
Definition last_round (buf : list Z) (count total : nat) (w : world)
  : outcome Z * list answer * world :=
  match WRITE_HELPER (accepts count) buf count total w with
  | (Raise exc, w) => (Raise exc, [], w)
  | (Return (_, _, total), w) => (Return (Z.of_nat total), [], w)
  end.

(** [while(count > 0)]: [rb_thread_select], then [WRITE_HELPER]. *)
Fixpoint write_loop (os : list answer) (buf : list Z) (count total : nat)
    (w : world) : outcome Z * list answer * world :=
  match count with
  | O => (Return (Z.of_nat total), os, w)
  | S _ =>
    match os with
    | [] => last_round buf count total w
    | sel :: os =>
      if returned sel =? -1 then
        if errno sel =? EWOULDBLOCK then write_loop os buf count total w
        else
          match @rb_sys_fail Z "select" (errno sel) w with
          | (r, w) => (r, os, w)
          end
      else
        match os with
        | [] => last_round buf count total w
        | wr :: os =>
          match WRITE_HELPER wr buf count total w with
          | (Raise exc, w) => (Raise exc, os, w)
          | (Return (buf, count, total), w) => write_loop os buf count total w
          end
        end
    end
  end.

(** The first [write] is made at once on a non-blocking session, and after
    a [select] that found the descriptor on a blocking one. *)
Definition ruby_write_throw (os : list answer) (buf : list Z) (count : nat)
    (nonblock : bool) (w : world) : outcome Z * list answer * world :=
  let total := 0%nat in
  let '(first, os) :=
    if negb nonblock then
      let '(sel, os) := next ready os in
      if 0 <? returned sel then
        let '(wr, os) := next (accepts count) os in (Some wr, os)
      else (None, os)
    else
      let '(wr, os) := next (accepts count) os in (Some wr, os) in
  match first with
  | None => write_loop os buf count total w
  | Some wr =>
    match WRITE_HELPER wr buf count total w with
    | (Raise exc, w) => (Raise exc, os, w)
    | (Return (buf, count, total), w) => write_loop os buf count total w
    end
  end.

Definition send_message_helper (os : list answer) (sp : session_ptr)
    (data : list Z) (len : nat) (message_type object_id : Z) (w : world)
  : outcome unit * list answer * world :=
  let s := session w in
  let mem := put_header (buf s) (Z.of_nat len) message_type object_id in
  let w := set_session (set_buf mem s) w in
  match ruby_write_throw os mem ROMP_BUFFER_SIZE (nonblock s) w with
  | (Raise exc, os, w) => (Raise exc, os, w)
  | (Return _, os, w) =>
    match ruby_write_throw os data len (nonblock s) w with
    | (Raise exc, os, w) => (Raise exc, os, w)
    | (Return _, os, w) => (Return tt, os, w)
    end
  end.

Definition send_message (os : list answer) (sp : session_ptr)
    (message : ROMP_Message) (w : world)
  : outcome unit * list answer * world :=
  match marshal_dump (message_obj message) w with
  | (Raise exc, w) => (Raise exc, os, w)
  | (Return data, w) =>
    send_message_helper os sp data (length data)
      (message_type message) (object_id message) w
  end.

End WriteEnd.
End WriteEnd.

(** [w'] is [w] with the events [evs] added. *)
Definition adds (evs : list event) (w w' : world) : Prop :=
  session w' = session w /\ proxies w' = proxies w /\
  server_info w' = server_info w /\ trace w' = trace w ++ evs.

(** The exceptions of the I/O layer on the write end. *)
Definition write_failure {rb : Ruby} {sys : System} (exc : VALUE) : Prop :=
  (exists errno mesg,
     (mesg = "write"%string \/ mesg = "select"%string) /\
     exc = Exception (Errno errno)
             (RString (String.append (strerror errno)
                         (String.append " - " mesg)))
             (RArray caller)) \/
  exc = Exception "IOError" (RString "disconnected") (RArray caller).

(** What a run of the I/O layer on the write end establishes: a prefix of
    the bytes has left, all of them if it returns; and it raises one of the
    exceptions of the layer. *)
Definition write_run {rb : Ruby} {sys : System} (buf : list Z) (count : nat)
    (w : world) (r : outcome Z * list answer * world) : Prop :=
  exists k evs,
    (k <= count)%nat /\ written evs = firstn k buf /\ adds evs w (snd r) /\
    (forall n, fst (fst r) = Return n -> k = count) /\
    (forall exc, fst (fst r) = Raise exc -> write_failure exc).

(* ------------------------------------------------------------------------- *)
(** ** The frame as the specification words it *)
(* ------------------------------------------------------------------------- *)

(** Four big-endian 16-bit fields: magic, len, kind, object_id. *)
Definition encode_header (kind object_id payload_len : Z) : list Z :=
  [ to_char (Z.shiftr ROMP_MSG_START 8); to_char (Z.land ROMP_MSG_START 255);
    to_char (Z.shiftr payload_len 8); to_char (Z.land payload_len 255);
    to_char (Z.shiftr kind 8); to_char (Z.land kind 255);
    to_char (Z.shiftr object_id 8); to_char (Z.land object_id 255) ].

(** An 8-byte header immediately followed by the payload. *)
Definition spec_frame (kind object_id : Z) (payload : list Z) : list Z :=
  encode_header kind object_id (Z.of_nat (length payload)) ++ payload.

(** The header block the helper transfers: the 8 header bytes and the rest
    of the session buffer, [ROMP_BUFFER_SIZE] bytes in all. *)
Definition header_block (mem : list Z) (kind object_id payload_len : Z)
  : list Z :=
  encode_header kind object_id payload_len ++ skipn 8 mem.

(** A block of [ROMP_BUFFER_SIZE] bytes that does not start with the magic. *)
Definition garbage_block (b : list Z) : Prop :=
  length b = ROMP_BUFFER_SIZE /\
  fst (GETSHORT b 0) <> ROMP_MSG_START.

(** The buffer of a session has [ROMP_BUFFER_SIZE] bytes. *)
Definition wf_session (s : ROMP_Session) : Prop :=
  length (buf s) = ROMP_BUFFER_SIZE.

(** The world once [data] has been read, [rest] still pending: into the
    session buffer ([after_block]) or into a buffer of the caller
    ([after_payload]). *)
Definition after_block (data rest : list Z) (w : world) : world :=
  mkWorld (mkSession rest data (nonblock (session w)))
    (proxies w) (server_info w) (trace w ++ [EvRead data]).

Definition after_payload (data rest : list Z) (w : world) : world :=
  mkWorld (mkSession rest (buf (session w)) (nonblock (session w)))
    (proxies w) (server_info w) (trace w ++ [EvRead data]).

(** What [get_message] answers for a frame of kind [ty] and tag [oid] with
    payload [payload]. *)
Definition received {rb : Ruby} (ty oid : Z) (payload : list Z)
  : outcome ROMP_Message :=
  if negb (ty =? ROMP_NULL_MSG)
  then
    match Marshal_load payload with
    | Return obj => Return (mkMessage ty oid obj)
    | Raise exc => Raise exc
    end
  else Return (mkMessage ty oid Qnil).

(** How the helper moves the world, whatever it runs: proxies are only
    added, events only appended, pending input only consumed, and the
    session buffer keeps its size. *)
Definition evolves (w w' : world) : Prop :=
  (exists ps, proxies w' = proxies w ++ ps) /\
  (exists evs, trace w' = trace w ++ evs) /\
  (length (read_fd (session w')) <= length (read_fd (session w)))%nat /\
  (wf_session (session w) -> wf_session (session w')).

Definition sound {A} (m : M A) : Prop := forall w, evolves w (snd (m w)).

(** A run that takes input whenever it returns. *)
Definition takes {A} (m : M A) : Prop :=
  forall w a, fst (m w) = Return a ->
    (length (read_fd (session (snd (m w)))) < length (read_fd (session w)))%nat.

(** The events a run added to the trace. *)
Definition events_since (w w' : world) : list event :=
  skipn (length (trace w)) (trace w').

(* ------------------------------------------------------------------------- *)
(** ** Frames between two endpoints *)
(* ------------------------------------------------------------------------- *)

(** The bytes of a frame as a session with buffer [mem] sends it. *)
Definition frame (mem : list Z) (kind object_id : Z) (data : list Z) : list Z :=
  header_block mem kind object_id (Z.of_nat (length data)) ++ data.

(** The two events of a frame leaving. *)
Definition frame_events (mem : list Z) (kind object_id : Z) (data : list Z)
  : list event :=
  [EvWrite (header_block mem kind object_id (Z.of_nat (length data)));
   EvWrite data].

(** An endpoint given [input] to read. *)
Definition fed (input : list Z) (w : world) : world :=
  set_session (set_read_fd input (session w)) w.

(** A 16-bit field. *)
Definition is_short (z : Z) : Prop := 0 <= z < 65536.

Definition is_lock (ev : event) : bool :=
  match ev with EvLock _ | EvUnlock _ => true | _ => false end.

(** A run all of whose events satisfy [P]. *)
Definition emits (P : event -> Prop) {A} (m : M A) : Prop :=
  forall w, exists evs, trace (snd (m w)) = trace w ++ evs /\ Forall P evs.

(** Neither taking nor releasing a lock. *)
Definition lock_free (ev : event) : Prop := is_lock ev = false.

(** What a client operation does between taking and releasing the lock:
    it writes, it reads, it enters the caller's block. *)
Definition client_event (ev : event) : Prop :=
  match ev with
  | EvWrite _ | EvRead _ | EvYield _ => True
  | _ => False
  end.

(** The kind of the request of a call. *)
Definition request_kind {rb : Ruby} : Z :=
  if rb_block_given_p then ROMP_REQUEST_BLOCK else ROMP_REQUEST.

(** A reply as it lies in the input: a header block of kind [ty], the
    payload it announces, and the value the payload loads to, which is not
    an object reference. *)
Definition reply_frame {rb : Ruby} (ty : Z) (f : list Z * list Z * VALUE)
  : Prop :=
  let '(b, payload, v) := f in
  length b = ROMP_BUFFER_SIZE /\
  (exists data_len tag,
     get_header b = (ROMP_MSG_START, data_len, ty, tag) /\
     length payload = Z.to_nat data_len) /\
  Marshal_load payload = Return v /\
  (forall n, v <> Object_Reference n).

Definition reply_bytes (f : list Z * list Z * VALUE) : list Z :=
  let '(b, payload, _) := f in b ++ payload.

Definition reply_reads (f : list Z * list Z * VALUE) : list event :=
  let '(b, payload, _) := f in [EvRead b; EvRead payload].

Definition reply_value (f : list Z * list Z * VALUE) : VALUE :=
  let '(_, _, v) := f in v.

(** What every entry point of the helper keeps: the size of the session
    buffer, the proxies there are (their handles stay good), and the input
    not yet taken is never more than before. *)
Definition keeps {A} (m : M A) : Prop :=
  forall w,
    (wf_session (session w) -> wf_session (session (snd (m w)))) /\
    (length (proxies w) <= length (proxies (snd (m w))))%nat /\
    (length (read_fd (session (snd (m w)))) <= length (read_fd (session w)))%nat.

(** The world in which the loop of [server_loop] starts. *)
Definition serving (sp : session_ptr) (resolve_server : VALUE) (dbg : bool)
    (w : world) : world :=
  set_server_info
    (mkServerInfo sp (si_message (server_info w)) resolve_server dbg) w.

(** The world after [n] rounds of the loop of the server, each of which
    went on to the next. *)
Fixpoint served {rb : Ruby} (n : nat) (resolve_server : VALUE) (w : world)
  : option world :=
  match n with
  | O => Some w
  | S n =>
    match server_loop_round resolve_server w with
    | (Return None, w') => served n resolve_server w'
    | _ => None
    end
  end.

(** What the server raises for a request of a kind it does not know: the
    registry is asked first, and an exception of the registry comes before
    the one of the kind. *)
Definition bad_request {rb : Ruby} (answer : outcome VALUE) : VALUE :=
  match answer with
  | Return _ =>
    Exception "RuntimeError" (RString "Bad session request") (RArray caller)
  | Raise exc => exc
  end.

(* ------------------------------------------------------------------------- *)
(** ** A small interpreter to run the helper on examples *)
(* ------------------------------------------------------------------------- *)

Module Demo.

Definition boom : VALUE :=
  Exception "RuntimeError" (RString "boom")
    (RArray [RString "thrower.rb:3:in bang"; RString "romp.rb:120:in send"]).

Definition cannot (klass mesg : string) {A} : outcome A :=
  Raise (Exception klass (RString mesg) Qnil).

(** A codec of a few values: one tag byte, then one byte of data.  Every
    exception travels as [boom], every string as "hi", every array as the
    call of echo. *)
Definition dump (v : VALUE) : outcome (list Z) :=
  match v with
  | Qnil => Return [48]
  | Qtrue => Return [84]
  | Qfalse => Return [70]
  | Fixnum n => Return [105; to_char n]
  | RString _ => Return [34]
  | RArray _ => Return [91]
  | Exception _ _ _ => Return [101]
  | Object_Reference n => Return [64; to_char n]
  | _ => cannot "TypeError" "no marshal_dump is defined"
  end.

Definition load (str : list Z) : outcome VALUE :=
  match str with
  | [48] => Return Qnil
  | [84] => Return Qtrue
  | [70] => Return Qfalse
  | [105; n] => Return (Fixnum n)
  | [34] => Return (RString "hi")
  | [91] => Return (RArray [RString "echo"; RString "hi"])
  | [101] => Return boom
  | [64; n] => Return (Object_Reference n)
  | _ => cannot "ArgumentError" "marshal data too short"
  end.

(** A registry with an echo object at 1 and a thrower at 5. *)
Definition registry (obj : VALUE) (object_id : Z) : outcome VALUE :=
  if object_id =? 1 then Return (Object 1)
  else if object_id =? 5 then Return (Object 5)
  else Return Qnil.

Definition call (obj msg : VALUE) : outcome VALUE :=
  match obj with
  | Object 1 => Return msg
  | Object 5 => Raise boom
  | _ => cannot "NoMethodError" "undefined method"
  end.

Definition ruby : Ruby := {|
  Marshal_dump := dump;
  Marshal_load := load;
  get_object := registry;
  send := call;
  send_iterate := fun obj msg => ([], call obj msg);
  slice_bang := fun a min max => Return (firstn (Z.to_nat min) a);
  caller := [RString "client.rb:7"];
  block := None
|}.

(** An endpoint whose peer has sent [input]; the server serves with
    [debug]. *)
Definition endpoint (input : list Z) (message : ROMP_Message) (debug : bool)
  : world :=
  mkWorld (ruby_session_new input) []
    (mkServerInfo the_session message (Object 100) debug) [].

(** The same endpoint with one proxy for [object_id]. *)
Definition client (input : list Z) (object_id : Z) : world :=
  set_proxies [mkProxy the_session Session_Data object_id Qfalse (Object 7)]
    (endpoint input (mkMessage 0 0 Qnil) false).

(** Header blocks as the peer sends them from a fresh session. *)
Definition block_of (kind object_id payload_len : Z) : list Z :=
  header_block (repeat 0 16) kind object_id payload_len.

End Demo.

(** The same interpreter for a caller that gives a block, with a method
    that yields at the object 4, a method that returns what cannot be
    dumped at the object 2, and dump errors that carry a backtrace. *)
Module Yielder.

Definition not_dumped : VALUE :=
  Exception "TypeError" (RString "no marshal_dump is defined")
    (RArray [RString "server.rb:1"]).

Definition dump (v : VALUE) : outcome (list Z) :=
  match v with
  | Session_Data | Proxy_Data _ | Object _ => Raise not_dumped
  | _ => Demo.dump v
  end.

Definition call (obj msg : VALUE) : outcome VALUE :=
  match obj with
  | Object 2 => Return (Object 99)
  | _ => Demo.call obj msg
  end.

Definition iterate (obj msg : VALUE) : list VALUE * outcome VALUE :=
  match obj with
  | Object 4 => ([Fixnum 1; Fixnum 2; Fixnum 3], Return Qnil)
  | _ => ([], call obj msg)
  end.

Definition registry (obj : VALUE) (object_id : Z) : outcome VALUE :=
  if object_id =? 2 then Return (Object 2)
  else if object_id =? 4 then Return (Object 4)
  else Demo.registry obj object_id.

Definition ruby : Ruby := {|
  Marshal_dump := dump;
  Marshal_load := Demo.load;
  get_object := registry;
  send := call;
  send_iterate := iterate;
  slice_bang := fun a min max => Return (firstn (Z.to_nat min) a);
  caller := [RString "client.rb:7"];
  block := Some (fun v => Return Qnil)
|}.

End Yielder.

(** The interpreter of [Demo] with a registry that knows the objects 1 and
    5 and raises for every other id. *)
Module Strict.

Definition no_object : VALUE :=
  Exception "ArgumentError" (RString "no such object")
    (RArray [RString "registry.rb:12:in get_object"]).

Definition registry (obj : VALUE) (object_id : Z) : outcome VALUE :=
  if object_id =? 1 then Return (Object 1)
  else if object_id =? 5 then Return (Object 5)
  else Raise no_object.

Definition ruby : Ruby := {|
  Marshal_dump := Demo.dump;
  Marshal_load := Demo.load;
  get_object := registry;
  send := Demo.call;
  send_iterate := fun obj msg => ([], Demo.call obj msg);
  slice_bang := fun a min max => Return (firstn (Z.to_nat min) a);
  caller := [RString "client.rb:7"];
  block := None
|}.

End Strict.

(** The errors of the system that the examples meet. *)
Module Posix.

Definition EPIPE : Z := 32.

Definition system : System := {|
  Errno := fun errno =>
    if errno =? EPIPE then "Errno::EPIPE"%string
    else "SystemCallError"%string;
  strerror := fun errno =>
    if errno =? EPIPE then "Broken pipe"%string
    else "Unknown error"%string
|}.

End Posix.

(* ------------------------------------------------------------------------- *)
(** * Properties *)
(* ------------------------------------------------------------------------- *)

(** ** Facts on the macros *)

Lemma to_char_range z : 0 <= to_char z < 256.
Proof. unfold to_char. apply Z.mod_pos_bound. lia. Qed.

Lemma uint16_range z : 0 <= uint16 z < 65536.
Proof. unfold uint16. apply Z.mod_pos_bound. lia. Qed.

Lemma uint16_small z : 0 <= z < 65536 -> uint16 z = z.
Proof. intros Hz. unfold uint16. apply Z.mod_small. exact Hz. Qed.

(** Two bytes written big-endian read back as the low 16 bits. *)
Lemma short_join s :
  uint16 (Z.lor (Z.shiftl (uint16 (to_char (Z.shiftr s 8))) 8)
                (to_char (Z.land s 255))) = uint16 s.
Proof.
  unfold to_char, uint16.
  change 65536 with (2 ^ 16). change 256 with (2 ^ 8).
  change 255 with (Z.ones 8).
  apply Z.bits_inj'. intros n Hn.
  rewrite !(Z.testbit_mod_pow2 _ 16) by lia.
  rewrite Z.lor_spec, Z.shiftl_spec by lia.
  rewrite (Z.testbit_mod_pow2 (Z.land s (Z.ones 8))) by lia.
  rewrite Z.land_spec, Z.testbit_ones by lia.
  destruct (Z.ltb_spec n 16) as [H16 | H16]; simpl; [ | reflexivity ].
  destruct (Z.ltb_spec n 8) as [H8 | H8]; simpl.
  - rewrite (Z.testbit_neg_r _ (n - 8)) by lia. simpl.
    destruct (Z.leb_spec 0 n); [ | lia ]. simpl.
    now rewrite andb_true_r.
  - rewrite !Z.testbit_mod_pow2 by lia.
    rewrite Z.shiftr_spec by lia.
    replace (n - 8 + 8) with n by lia.
    destruct (Z.ltb_spec (n - 8) 16); [ | lia ].
    destruct (Z.ltb_spec (n - 8) 8); [ | lia ].
    simpl. now rewrite orb_false_r.
Qed.

(** The four stores of [send_message_helper] fill the first 8 bytes of the
    buffer and leave the rest. *)
Lemma put_header_block mem len message_type object_id :
  length mem = ROMP_BUFFER_SIZE ->
  put_header mem len message_type object_id =
  header_block mem message_type object_id len.
Proof.
  intros Hlen.
  do 16 (destruct mem as [ | ? mem ]; [ discriminate Hlen | ]).
  destruct mem; [ | discriminate Hlen ].
  reflexivity.
Qed.

Lemma header_block_length mem kind object_id len :
  length mem = ROMP_BUFFER_SIZE ->
  length (header_block mem kind object_id len) = ROMP_BUFFER_SIZE.
Proof.
  intros Hlen. unfold header_block.
  rewrite length_app, length_skipn, Hlen. reflexivity.
Qed.

(** Reading the fields back from 8 encoded bytes, whatever follows them. *)
Lemma get_header_encode kind object_id len rest :
  get_header (encode_header kind object_id len ++ rest) =
  (ROMP_MSG_START, uint16 len, uint16 kind, uint16 object_id).
Proof.
  unfold get_header, encode_header, GETSHORT.
  cbn [app nth fst snd].
  rewrite !short_join. reflexivity.
Qed.

(** ** The I/O layer and [get_message] *)

Section Receive.
Context {rb : Ruby}.

Lemma ruby_read_throw_ok count nb w data rest :
  read_fd (session w) = data ++ rest ->
  length data = count ->
  ruby_read_throw count nb w =
  (data, Return (Z.of_nat count), after_payload data rest w).
Proof.
  intros Hfd Hlen. unfold ruby_read_throw, after_payload.
  rewrite Hfd. subst count.
  rewrite firstn_app, Nat.sub_diag, firstn_all, app_nil_r. simpl firstn.
  rewrite skipn_app, Nat.sub_diag, skipn_all. simpl.
  rewrite length_app.
  destruct (Nat.leb_spec (length data) (length data + length rest)); [ | lia ].
  reflexivity.
Qed.

Lemma ruby_read_throw_short count nb w :
  (length (read_fd (session w)) < count)%nat ->
  exists exc w',
    ruby_read_throw count nb w = (read_fd (session w), Raise exc, w') /\
    read_fd (session w') = [].
Proof.
  intros Hlt. unfold ruby_read_throw.
  destruct (Nat.leb_spec count (length (read_fd (session w)))); [ lia | ].
  rewrite firstn_all2 by lia. rewrite skipn_all2 by lia.
  eexists _, _. split; reflexivity.
Qed.

(** A round on a block that does not start with the magic: the block is
    taken, nothing is answered. *)
Lemma get_message_round_garbage m w b rest :
  wf_session (session w) ->
  garbage_block b ->
  read_fd (session w) = b ++ rest ->
  get_message_round m w = (Return None, after_block b rest w).
Proof.
  intros Hwf [Hlen Hmagic] Hfd. unfold get_message_round.
  rewrite (ruby_read_throw_ok _ _ _ b rest Hfd Hlen).
  unfold wf_session in Hwf.
  cbn [after_payload session buf set_session set_buf read_fd nonblock].
  rewrite Hlen, <- Hwf, skipn_all, app_nil_r.
  unfold get_header.
  destruct (GETSHORT b 0) as [magic p0] eqn:E0.
  destruct (GETSHORT b p0) as [data_len p1].
  destruct (GETSHORT b p1) as [ty p2].
  destruct (GETSHORT b p2) as [oid p3].
  simpl in Hmagic.
  destruct (Z.eqb_spec magic ROMP_MSG_START) as [Heq | Hne]; [ contradiction | ].
  reflexivity.
Qed.

(** A round on a block that starts with the magic. *)
Lemma get_message_round_header m w b rest data_len ty oid :
  wf_session (session w) ->
  length b = ROMP_BUFFER_SIZE ->
  get_header b = (ROMP_MSG_START, data_len, ty, oid) ->
  read_fd (session w) = b ++ rest ->
  get_message_round m w =
  (Return (Some (data_len, mkMessage ty oid (message_obj m))),
   after_block b rest w).
Proof.
  intros Hwf Hlen Hhdr Hfd. unfold get_message_round.
  rewrite (ruby_read_throw_ok _ _ _ b rest Hfd Hlen).
  unfold wf_session in Hwf.
  cbn [after_payload session buf set_session set_buf read_fd nonblock].
  rewrite Hlen, <- Hwf, skipn_all, app_nil_r, Hhdr.
  reflexivity.
Qed.

Lemma after_block_wf b rest w :
  length b = ROMP_BUFFER_SIZE -> wf_session (session (after_block b rest w)).
Proof. intros Hlen. exact Hlen. Qed.

(** The rounds of [get_message] over garbage followed by a header block. *)
Lemma get_message_rounds garbage : forall fuel m w b rest data_len ty oid,
  Forall garbage_block garbage ->
  wf_session (session w) ->
  length b = ROMP_BUFFER_SIZE ->
  get_header b = (ROMP_MSG_START, data_len, ty, oid) ->
  read_fd (session w) = concat garbage ++ b ++ rest ->
  (length garbage < fuel)%nat ->
  loop fuel (get_message_round m) w =
  Some (Return (data_len, mkMessage ty oid (message_obj m)),
        mkWorld (mkSession rest b (nonblock (session w)))
          (proxies w) (server_info w)
          (trace w ++ map EvRead garbage ++ [EvRead b])).
Proof.
  induction garbage as [ | g garbage IH ];
    intros fuel m w b rest data_len ty oid Hg Hwf Hlen Hhdr Hfd Hfuel.
  - destruct fuel as [ | fuel ]; [ simpl in Hfuel; lia | ].
    simpl in Hfd. simpl loop.
    rewrite (get_message_round_header m w b rest data_len ty oid) by assumption.
    reflexivity.
  - destruct fuel as [ | fuel ]; [ simpl in Hfuel; lia | ].
    inversion Hg as [ | ? ? Hg1 Hg2 ]; subst.
    simpl in Hfd. rewrite <- app_assoc in Hfd. simpl loop.
    rewrite (get_message_round_garbage m w g _ Hwf Hg1 Hfd).
    rewrite (IH fuel m _ b rest data_len ty oid Hg2); try assumption.
    + unfold after_block. cbn [session proxies server_info trace nonblock].
      rewrite <- app_assoc. reflexivity.
    + apply after_block_wf. apply Hg1.
    + reflexivity.
    + simpl in Hfuel. lia.
Qed.

Lemma garbage_length garbage :
  Forall garbage_block garbage ->
  (length garbage <= length (concat garbage))%nat.
Proof.
  induction 1 as [ | g garbage [Hlen _] _ IH ]; simpl; [ lia | ].
  rewrite length_app, Hlen. unfold ROMP_BUFFER_SIZE. lia.
Qed.

(** [get_message] on garbage blocks followed by a frame: the garbage is
    skipped block by block and the frame is received. *)
Lemma get_message_frame garbage w b payload rest data_len ty oid :
  Forall garbage_block garbage ->
  wf_session (session w) ->
  length b = ROMP_BUFFER_SIZE ->
  get_header b = (ROMP_MSG_START, data_len, ty, oid) ->
  length payload = Z.to_nat data_len ->
  read_fd (session w) = concat garbage ++ b ++ payload ++ rest ->
  get_message the_session w =
  (received ty oid payload,
   mkWorld (mkSession rest b (nonblock (session w)))
     (proxies w) (server_info w)
     (trace w ++ map EvRead garbage ++ [EvRead b; EvRead payload])).
Proof.
  intros Hg Hwf Hlen Hhdr Hpay Hfd. unfold get_message.
  rewrite (get_message_rounds garbage (rounds w) (mkMessage 0 0 Qnil) w b
             (payload ++ rest) data_len ty oid); try assumption.
  - erewrite (ruby_read_throw_ok _ _ _ payload rest); [ | reflexivity | easy ].
    unfold after_payload, received.
    cbn [session proxies server_info trace nonblock buf message_type object_id].
    replace (trace w ++ map EvRead garbage ++ [EvRead b; EvRead payload])
      with ((trace w ++ map EvRead garbage ++ [EvRead b]) ++ [EvRead payload])
      by (rewrite <- !app_assoc; reflexivity).
    destruct (negb (ty =? ROMP_NULL_MSG)); [ | reflexivity ].
    unfold bind, marshal_load, lift, ret.
    destruct (Marshal_load payload); reflexivity.
  - unfold rounds. rewrite Hfd, length_app.
    pose proof (garbage_length garbage Hg). lia.
Qed.

End Receive.

Lemma events_since_app w w' evs :
  trace w' = trace w ++ evs -> events_since w w' = evs.
Proof.
  intros Ht. unfold events_since. rewrite Ht.
  rewrite skipn_app, Nat.sub_diag, skipn_all. reflexivity.
Qed.

Lemma written_app t1 t2 : written (t1 ++ t2) = written t1 ++ written t2.
Proof.
  induction t1 as [ | ev t1 IH ]; simpl; [ reflexivity | ].
  destruct ev; rewrite ?IH, <- ?app_assoc; reflexivity.
Qed.

(** What [send_message_helper] does: the header block, then the payload. *)
Lemma send_message_helper_spec sp w data kind oid :
  wf_session (session w) ->
  send_message_helper sp data (length data) kind oid w =
  (Return tt,
   mkWorld
     (mkSession (read_fd (session w))
        (header_block (buf (session w)) kind oid (Z.of_nat (length data)))
        (nonblock (session w)))
     (proxies w) (server_info w)
     (trace w ++
      [EvWrite (header_block (buf (session w)) kind oid
                  (Z.of_nat (length data)));
       EvWrite data])).
Proof.
  intros Hwf. unfold send_message_helper, bind, gets, modify, ret,
    ruby_write_throw, bind, modify, ret, log.
  cbn [session proxies server_info trace set_session set_buf read_fd buf
       nonblock].
  rewrite put_header_block by exact Hwf.
  rewrite firstn_all.
  rewrite firstn_all2
    by (rewrite header_block_length by exact Hwf; apply Nat.le_refl).
  rewrite <- app_assoc. reflexivity.
Qed.

(** ** The frame on the wire *)

(** C3. For all kind, object id and length below 2^16, the four fields read
    back from a session buffer by the [GETSHORT]s of [get_message], after
    the [PUTSHORT]s of [send_message_helper] wrote them, are
    [(ROMP_MSG_START, len, kind, oid)]. *)
Theorem header_round_trip (kind oid len : Z) (mem : list Z) :
  0 <= kind < 65536 ->
  0 <= oid < 65536 ->
  0 <= len < 65536 ->
  length mem = ROMP_BUFFER_SIZE ->
  get_header (put_header mem len kind oid) = (ROMP_MSG_START, len, kind, oid).
Proof.
  intros Hkind Hoid Hlen Hmem.
  rewrite put_header_block by exact Hmem.
  unfold header_block. rewrite get_header_encode.
  rewrite !uint16_small by assumption. reflexivity.
Qed.

Lemma header_round_trip_witness :
  get_header (put_header (repeat 0 16) 65535 ROMP_REQUEST 65535) =
  (ROMP_MSG_START, 65535, ROMP_REQUEST, 65535).
Proof.
  apply header_round_trip.
  - unfold ROMP_REQUEST. lia.
  - lia.
  - lia.
  - reflexivity.
Defined.

(** C1, as the code has it.  Every message is sent as a header block of
    [ROMP_BUFFER_SIZE] = 16 bytes (the four big-endian 16-bit fields magic,
    len, kind, object_id in its first 8 bytes, then bytes 8..15 of the
    session buffer), immediately followed by all the payload bytes; the len
    field is the payload length modulo 2^16.  The receiver reads exactly one
    16-byte block before it reads the payload, whose length is the len field
    of the block. *)
Theorem frame_layout {rb : Ruby} (w : world) (data : list Z) (kind oid : Z) :
  wf_session (session w) ->
  let block :=
    header_block (buf (session w)) kind oid (Z.of_nat (length data)) in
  let sent := send_message_helper the_session data (length data) kind oid w in
  (fst sent = Return tt /\
   events_since w (snd sent) = [EvWrite block; EvWrite data] /\
   written (events_since w (snd sent)) = block ++ data /\
   length block = ROMP_BUFFER_SIZE /\
   firstn 8 block = encode_header kind oid (Z.of_nat (length data)) /\
   get_header block =
   (ROMP_MSG_START, uint16 (Z.of_nat (length data)), uint16 kind, uint16 oid))
  /\
  (forall b payload rest data_len ty tag,
     length b = ROMP_BUFFER_SIZE ->
     get_header b = (ROMP_MSG_START, data_len, ty, tag) ->
     length payload = Z.to_nat data_len ->
     read_fd (session w) = b ++ payload ++ rest ->
     let got := get_message the_session w in
     fst got = received ty tag payload /\
     events_since w (snd got) = [EvRead b; EvRead payload] /\
     read_fd (session (snd got)) = rest).
Proof.
  intros Hwf block sent. split.
  - subst sent. rewrite send_message_helper_spec by exact Hwf.
    cbn [fst snd]. fold block.
    rewrite (events_since_app w _ [EvWrite block; EvWrite data]) by reflexivity.
    repeat apply conj.
    + reflexivity.
    + reflexivity.
    + simpl. now rewrite app_nil_r.
    + apply header_block_length, Hwf.
    + reflexivity.
    + apply get_header_encode.
  - intros b payload rest data_len ty tag Hb Hhdr Hpay Hfd got. subst got.
    rewrite (get_message_frame [] w b payload rest data_len ty tag);
      try assumption; [ | constructor ].
    cbn [fst snd]. repeat apply conj.
    + reflexivity.
    + apply events_since_app. reflexivity.
    + reflexivity.
Qed.

(** C2, as the code has it.  A header block that does not start with the
    magic is discarded whole, all 16 bytes of it, and another block is read.
    Garbage of [k] such blocks before a frame raises nothing: after exactly
    [k] re-reads the frame is received, with the answer [get_message] gives
    without the garbage. *)
Theorem magic_resync {rb : Ruby} (garbage : list (list Z)) (w : world)
    (b payload rest : list Z) (data_len ty tag : Z) :
  Forall garbage_block garbage ->
  wf_session (session w) ->
  length b = ROMP_BUFFER_SIZE ->
  get_header b = (ROMP_MSG_START, data_len, ty, tag) ->
  length payload = Z.to_nat data_len ->
  read_fd (session w) = concat garbage ++ b ++ payload ++ rest ->
  let got := get_message the_session w in
  let clean :=
    get_message the_session
      (set_session (set_read_fd (b ++ payload ++ rest) (session w)) w) in
  fst got = received ty tag payload /\
  fst got = fst clean /\
  events_since w (snd got) = map EvRead garbage ++ [EvRead b; EvRead payload] /\
  length (List.filter is_read (events_since w (snd got))) = (length garbage + 2)%nat /\
  read_fd (session (snd got)) = rest.
Proof.
  intros Hg Hwf Hb Hhdr Hpay Hfd got clean. subst got clean.
  rewrite (get_message_frame garbage w b payload rest data_len ty tag)
    by assumption.
  rewrite (get_message_frame [] _ b payload rest data_len ty tag);
    [ | constructor | exact Hwf | assumption .. | reflexivity ].
  cbn [fst snd].
  rewrite (events_since_app w _
             (map EvRead garbage ++ [EvRead b; EvRead payload])) by reflexivity.
  repeat apply conj; try reflexivity.
  rewrite List.filter_app, length_app. simpl.
  assert (Hall : List.filter is_read (map EvRead garbage) = map EvRead garbage).
  { clear. induction garbage as [ | g garbage IH ]; simpl; [ reflexivity | ].
    now rewrite IH. }
  rewrite Hall, length_map. reflexivity.
Qed.

(** ** How the helper moves the world *)

Create HintDb romp.

Lemma evolves_refl w : evolves w w.
Proof.
  repeat apply conj; [ exists [] | exists [] | | ];
    rewrite ?app_nil_r; auto.
Qed.

Lemma evolves_trans w1 w2 w3 : evolves w1 w2 -> evolves w2 w3 -> evolves w1 w3.
Proof.
  intros ([ps1 Hp1] & [ev1 He1] & Hl1 & Hw1) ([ps2 Hp2] & [ev2 He2] & Hl2 & Hw2).
  repeat apply conj.
  - exists (ps1 ++ ps2). rewrite Hp2, Hp1, app_assoc. reflexivity.
  - exists (ev1 ++ ev2). rewrite He2, He1, app_assoc. reflexivity.
  - lia.
  - auto.
Qed.

Lemma evolves_log ev w : evolves w (log ev w).
Proof.
  repeat apply conj; simpl; [ exists [] | exists [ev] | | ];
    rewrite ?app_nil_r; auto.
Qed.

Lemma evolves_set_server_info si w : evolves w (set_server_info si w).
Proof.
  repeat apply conj; simpl; [ exists [] | exists [] | | ];
    rewrite ?app_nil_r; auto.
Qed.

Lemma evolves_alloc p w : evolves w (set_proxies (proxies w ++ [p]) w).
Proof.
  repeat apply conj; simpl; [ exists [p] | exists [] | | ];
    rewrite ?app_nil_r; auto.
Qed.

Lemma evolves_set_nonblock b w :
  evolves w (set_session (set_nonblock b (session w)) w).
Proof.
  repeat apply conj; simpl; [ exists [] | exists [] | | ];
    rewrite ?app_nil_r; auto.
Qed.

Lemma sound_ret {A} (a : A) : sound (ret a).
Proof. intros w. apply evolves_refl. Qed.

Lemma sound_raise {A} exc : sound (@raise A exc).
Proof. intros w. apply evolves_refl. Qed.

Lemma sound_lift {A} (o : outcome A) : sound (lift o).
Proof. intros w. apply evolves_refl. Qed.

Lemma sound_gets {A} (f : world -> A) : sound (gets f).
Proof. intros w. apply evolves_refl. Qed.

Lemma sound_modify f : (forall w, evolves w (f w)) -> sound (modify f).
Proof. intros Hf w. apply Hf. Qed.

Lemma sound_bind {A B} (m : M A) (k : A -> M B) :
  sound m -> (forall a, sound (k a)) -> sound (bind m k).
Proof.
  intros Hm Hk w. unfold bind. specialize (Hm w).
  destruct (m w) as [[a | exc] w1]; simpl in *.
  - eapply evolves_trans; [ exact Hm | apply Hk ].
  - exact Hm.
Qed.

Lemma sound_loop {A} (body : M (option A)) :
  sound body ->
  forall fuel w r w', loop fuel body w = Some (r, w') -> evolves w w'.
Proof.
  intros Hbody fuel. induction fuel as [ | fuel IH ]; intros w r w' Hloop.
  - discriminate Hloop.
  - simpl in Hloop. specialize (Hbody w).
    destruct (body w) as [[[a | ] | exc] w1]; simpl in Hbody.
    + now inversion Hloop; subst.
    + eapply evolves_trans; [ exact Hbody | eapply IH, Hloop ].
    + now inversion Hloop; subst.
Qed.

Lemma sound_out_of_fuel {A} : sound (@out_of_fuel A).
Proof. intros w. apply evolves_refl. Qed.

(** A loop run on the fuel [rounds] gives. *)
Lemma sound_rounds {A} (body : M (option A)) :
  sound body ->
  sound (fun w =>
           match loop (rounds w) body w with
           | None => out_of_fuel w
           | Some r => r
           end).
Proof.
  intros Hbody w.
  destruct (loop (rounds w) body w) as [[r w'] | ] eqn:Hloop.
  - simpl. eapply sound_loop; eassumption.
  - apply evolves_refl.
Qed.

#[export] Hint Resolve evolves_refl evolves_log evolves_set_server_info
  evolves_alloc evolves_set_nonblock sound_ret sound_raise sound_lift
  sound_gets sound_modify sound_out_of_fuel sound_rounds : romp.

Ltac sound_step :=
  match goal with
  | |- sound (bind _ _) => apply sound_bind; [ | intros ? ]
  | |- sound (if ?b then _ else _) => destruct b
  | |- sound (match ?x with _ => _ end) => destruct x
  | |- sound _ => solve [ eauto with romp ]
  end.

Ltac prove_sound := repeat sound_step.

Section Sound.
Context {rb : Ruby}.

Lemma sound_rb_raise {A} klass mesg : sound (@rb_raise rb A klass mesg).
Proof. unfold rb_raise. prove_sound. Qed.

Lemma sound_rb_ensure {A} (body : M A) ensure :
  sound body -> sound ensure -> sound (rb_ensure body ensure).
Proof.
  intros Hb He w. unfold rb_ensure. specialize (Hb w).
  destruct (body w) as [r w1]. specialize (He w1).
  destruct (ensure w1) as [[v | exc] w2]; simpl in *;
    eapply evolves_trans; eassumption.
Qed.

Lemma sound_rb_rescue2 {A} (body : M A) rescue :
  sound body -> (forall exc, sound (rescue exc)) -> sound (rb_rescue2 body rescue).
Proof.
  intros Hb Hr w. unfold rb_rescue2. specialize (Hb w).
  destruct (body w) as [[a | exc] w1]; simpl in *.
  - exact Hb.
  - eapply evolves_trans; [ exact Hb | apply Hr ].
Qed.

Lemma sound_rb_protect body : sound body -> sound (rb_protect body).
Proof.
  intros Hb w. unfold rb_protect. specialize (Hb w).
  destruct (body w) as [[a | exc] w1]; exact Hb.
Qed.

Lemma put_header_length mem len ty oid :
  length (put_header mem len ty oid) = length mem.
Proof.
  unfold put_header, PUTSHORT. cbn [fst snd].
  now rewrite !length_insert.
Qed.

Lemma sound_ruby_write_throw data count nb :
  sound (ruby_write_throw data count nb).
Proof. unfold ruby_write_throw. prove_sound. Qed.

Lemma sound_send_message_helper sp data len ty oid :
  sound (send_message_helper sp data len ty oid).
Proof.
  intros w. unfold send_message_helper, bind, gets, modify, ret,
    ruby_write_throw, bind, modify, ret, log. simpl.
  repeat apply conj; simpl.
  - exists []. now rewrite app_nil_r.
  - eexists. rewrite <- app_assoc. reflexivity.
  - apply Nat.le_refl.
  - unfold wf_session. simpl. now rewrite put_header_length.
Qed.

#[local] Hint Resolve sound_rb_raise sound_rb_ensure sound_rb_rescue2
  sound_rb_protect sound_ruby_write_throw sound_send_message_helper : romp.

Lemma sound_NUM2INT v : sound (NUM2INT v).
Proof. unfold NUM2INT. prove_sound. Qed.

Lemma sound_marshal_dump v : sound (marshal_dump v).
Proof. unfold marshal_dump. prove_sound. Qed.

Lemma sound_marshal_load str : sound (marshal_load str).
Proof. unfold marshal_load. prove_sound. Qed.

#[local] Hint Resolve sound_NUM2INT sound_marshal_dump sound_marshal_load : romp.

Lemma sound_send_message sp message : sound (send_message sp message).
Proof. unfold send_message. prove_sound. Qed.

Lemma sound_send_null_message sp : sound (send_null_message sp).
Proof. unfold send_null_message. prove_sound. Qed.

#[local] Hint Resolve sound_send_message sound_send_null_message : romp.

(** A round of [get_message] takes input: strictly less is pending after a
    round that did not raise. *)
Lemma get_message_round_evolves m w :
  evolves w (snd (get_message_round m w)) /\
  (forall a, fst (get_message_round m w) = Return a ->
     (length (read_fd (session (snd (get_message_round m w))))
      < length (read_fd (session w)))%nat).
Proof.
  unfold get_message_round, ruby_read_throw.
  set (avail := read_fd (session w)).
  set (data := firstn ROMP_BUFFER_SIZE avail).
  assert (Hdata : (length data <= ROMP_BUFFER_SIZE)%nat)
    by (subst data; rewrite length_firstn; lia).
  assert (Hev : evolves w
    (set_session
       (set_buf (data ++ skipn (length data) (buf (session w)))
          (session (log (EvRead data)
             (set_session (set_read_fd (skipn ROMP_BUFFER_SIZE avail)
                (session w)) w))))
       (log (EvRead data)
          (set_session (set_read_fd (skipn ROMP_BUFFER_SIZE avail)
             (session w)) w)))).
  { repeat apply conj; simpl.
    - exists []. now rewrite app_nil_r.
    - exists [EvRead data]. reflexivity.
    - rewrite length_skipn. fold avail. lia.
    - unfold wf_session. simpl. intros Hwf.
      rewrite length_app, length_skipn, Hwf. lia. }
  destruct (Nat.leb_spec ROMP_BUFFER_SIZE (length avail)) as [Hle | Hlt].
  - destruct (get_header _) as [[[magic data_len] ty] oid].
    destruct (magic =? ROMP_MSG_START); (split; [ exact Hev | ]);
      intros a _; simpl; rewrite length_skipn; fold avail;
      unfold ROMP_BUFFER_SIZE in *; lia.
  - split; [ exact Hev | ]. intros a Ha. discriminate Ha.
Qed.

Lemma sound_get_message_round m : sound (get_message_round m).
Proof. intros w. apply get_message_round_evolves. Qed.

#[local] Hint Resolve sound_get_message_round : romp.

Lemma takes_bind {A B} (m : M A) (k : A -> M B) :
  takes m -> (forall a, sound (k a)) -> takes (bind m k).
Proof.
  intros Hm Hk w b. unfold bind. specialize (Hm w).
  destruct (m w) as [[a | exc] w1]; simpl in *; [ | discriminate ].
  intros _. specialize (Hm a eq_refl).
  destruct (Hk a w1) as (_ & _ & Hle & _). lia.
Qed.

Lemma takes_gets {A B} (f : world -> A) (k : A -> M B) :
  (forall a, takes (k a)) -> takes (bind (gets f) k).
Proof. intros Hk w b. apply (Hk (f w)). Qed.

(** A loop whose rounds take input does not run out of the fuel [rounds]
    gives. *)
Lemma loop_total {A} (body : M (option A)) :
  takes body ->
  forall fuel w,
    (length (read_fd (session w)) < fuel)%nat -> loop fuel body w <> None.
Proof.
  intros Hbody fuel. induction fuel as [ | fuel IH ]; intros w Hfuel; [ lia | ].
  simpl. specialize (Hbody w).
  destruct (body w) as [[[a | ] | exc] w1]; try discriminate.
  apply IH. specialize (Hbody None eq_refl). simpl in Hbody. lia.
Qed.

Lemma takes_get_message_round m : takes (get_message_round m).
Proof. intros w a. apply get_message_round_evolves. Qed.

(** A run of the rounds that answers has taken input. *)
Lemma loop_takes {A} (body : M (option A)) :
  sound body -> takes body ->
  forall fuel w a w',
    loop fuel body w = Some (Return a, w') ->
    (length (read_fd (session w')) < length (read_fd (session w)))%nat.
Proof.
  intros Hs Hbody fuel.
  induction fuel as [ | fuel IH ]; intros w a w' Hloop; [ discriminate | ].
  simpl in Hloop. specialize (Hbody w). specialize (Hs w).
  destruct (body w) as [[[x | ] | exc] w1]; simpl in *.
  - inversion Hloop; subst. apply (Hbody (Some a) eq_refl).
  - specialize (Hbody None eq_refl). specialize (IH _ _ _ Hloop). lia.
  - discriminate Hloop.
Qed.

Lemma ruby_read_throw_evolves count nb w :
  evolves w (snd (ruby_read_throw count nb w)).
Proof.
  unfold ruby_read_throw.
  assert (Hev : evolves w
    (log (EvRead (firstn count (read_fd (session w))))
       (set_session (set_read_fd (skipn count (read_fd (session w)))
          (session w)) w))).
  { repeat apply conj; simpl.
    - exists []. now rewrite app_nil_r.
    - eexists. reflexivity.
    - rewrite length_skipn. lia.
    - auto. }
  destruct (count <=? length (read_fd (session w)))%nat; exact Hev.
Qed.

(** [get_message] does not run out of fuel, and it takes input. *)
Lemma get_message_total w :
  loop (rounds w) (get_message_round (mkMessage 0 0 Qnil)) w <> None.
Proof.
  apply loop_total; [ apply takes_get_message_round | ].
  unfold rounds. lia.
Qed.

Lemma get_message_evolves sp w :
  evolves w (snd (get_message sp w)) /\
  (forall m, fst (get_message sp w) = Return m ->
     (length (read_fd (session (snd (get_message sp w))))
      < length (read_fd (session w)))%nat).
Proof.
  unfold get_message.
  destruct (loop (rounds w) _ w) as [[[[data_len message] | exc] w1] | ] eqn:Hloop.
  - pose proof (sound_loop _ (sound_get_message_round _) _ _ _ _ Hloop) as Hev1.
    pose proof (loop_takes _ (sound_get_message_round _)
                  (takes_get_message_round _) _ _ _ _ Hloop) as Hlt1.
    pose proof (ruby_read_throw_evolves (Z.to_nat data_len)
                  (nonblock (session w1)) w1) as Hev2.
    destruct (ruby_read_throw _ _ w1) as [[ruby_str [n | exc]] w2];
      simpl in Hev2.
    + assert (Hev : evolves w w2) by (eapply evolves_trans; eassumption).
      assert (Hlt : (length (read_fd (session w2))
                     < length (read_fd (session w)))%nat)
        by (destruct Hev2 as (_ & _ & Hle & _); lia).
      destruct (negb (message_type message =? ROMP_NULL_MSG)).
      * unfold bind, marshal_load, lift, ret.
        destruct (Marshal_load ruby_str); simpl; split; auto.
      * simpl. split; auto.
    + simpl. split; [ eapply evolves_trans; eassumption | discriminate ].
  - simpl. split; [ | discriminate ].
    eapply sound_loop; [ apply sound_get_message_round | exact Hloop ].
  - exfalso. eapply get_message_total; eassumption.
Qed.

Lemma sound_get_message sp : sound (get_message sp).
Proof. intros w. apply get_message_evolves. Qed.

Lemma takes_get_message sp : takes (get_message sp).
Proof. intros w a. apply get_message_evolves. Qed.

#[local] Hint Resolve sound_get_message : romp.

Lemma sound_reply_sync sp value : sound (reply_sync sp value).
Proof. unfold reply_sync. prove_sound. Qed.

Lemma sound_send_sync sp : sound (send_sync sp).
Proof. unfold send_sync. prove_sound. Qed.

Lemma sound_wait_sync sp : sound (wait_sync sp).
Proof. unfold wait_sync. prove_sound. Qed.

Lemma NUM2INT_world v w : snd (NUM2INT v w) = w.
Proof.
  destruct v; try reflexivity. simpl.
  destruct (_ && _); reflexivity.
Qed.

Lemma sound_ruby_proxy_object_new self ruby_session ruby_mutex ruby_object_id :
  sound (ruby_proxy_object_new self ruby_session ruby_mutex ruby_object_id).
Proof.
  intros w. unfold ruby_proxy_object_new, bind.
  pose proof (NUM2INT_world ruby_object_id w) as Hw.
  destruct (NUM2INT ruby_object_id w) as [[n | exc] w1]; simpl in Hw; subst w1;
    [ | apply evolves_refl ].
  destruct (negb (is_Session ruby_session)); [ apply sound_rb_raise | ].
  simpl. apply evolves_alloc.
Qed.

#[local] Hint Resolve sound_reply_sync sound_send_sync sound_wait_sync
  sound_ruby_proxy_object_new : romp.

Lemma sound_msg_to_obj message session mutex :
  sound (msg_to_obj message session mutex).
Proof. unfold msg_to_obj. prove_sound. Qed.

Lemma sound_rb_yield v : sound (rb_yield v).
Proof. unfold rb_yield. prove_sound. Qed.

Lemma sound_ruby_exc_message exc : sound (ruby_exc_message exc).
Proof. unfold ruby_exc_message. prove_sound. Qed.

Lemma sound_ruby_exc_backtrace exc : sound (ruby_exc_backtrace exc).
Proof. unfold ruby_exc_backtrace. prove_sound. Qed.

Lemma sound_ruby_caller : sound ruby_caller.
Proof. unfold ruby_caller. prove_sound. Qed.

Lemma sound_rb_ary_concat x y : sound (rb_ary_concat x y).
Proof. unfold rb_ary_concat. prove_sound. Qed.

Lemma sound_ruby_raise exc msg bt : sound (ruby_raise exc msg bt).
Proof. unfold ruby_raise. prove_sound. Qed.

Lemma sound_deref p : sound (deref p).
Proof.
  intros w. unfold deref. destruct (proxies w !! p); [ apply evolves_refl | ].
  apply sound_rb_raise.
Qed.

Lemma sound_ruby_lock obj : sound (ruby_lock obj).
Proof. unfold ruby_lock. prove_sound. Qed.

Lemma sound_ruby_unlock obj : sound (ruby_unlock obj).
Proof. unfold ruby_unlock. prove_sound. Qed.

#[local] Hint Resolve sound_msg_to_obj sound_rb_yield sound_ruby_exc_message
  sound_ruby_exc_backtrace sound_ruby_caller sound_rb_ary_concat
  sound_ruby_raise sound_deref sound_ruby_lock sound_ruby_unlock : romp.

Lemma sound_client_request_round obj : sound (client_request_round obj).
Proof. unfold client_request_round. prove_sound. Qed.

Lemma takes_client_request_round obj : takes (client_request_round obj).
Proof.
  unfold client_request_round. apply takes_bind.
  - apply takes_get_message.
  - intros msg. prove_sound.
Qed.

#[local] Hint Resolve sound_client_request_round : romp.

(** The response loop of [client_request] does not run out of fuel. *)
Lemma client_request_total obj w :
  loop (rounds w) (client_request_round obj) w <> None.
Proof.
  apply loop_total; [ apply takes_client_request_round | ].
  unfold rounds. lia.
Qed.

Lemma sound_client_request p : sound (client_request p).
Proof. unfold client_request. prove_sound. Qed.

Lemma sound_client_oneway p : sound (client_oneway p).
Proof. unfold client_oneway. prove_sound. Qed.

Lemma sound_client_oneway_sync p : sound (client_oneway_sync p).
Proof. unfold client_oneway_sync. prove_sound. Qed.

Lemma sound_client_sync p : sound (client_sync p).
Proof. unfold client_sync. prove_sound. Qed.

Lemma sound_ruby_send obj msg : sound (ruby_send obj msg).
Proof. unfold ruby_send. prove_sound. Qed.

Lemma sound_ruby_get_object obj object_id :
  sound (ruby_get_object obj object_id).
Proof. unfold ruby_get_object. prove_sound. Qed.

Lemma sound_ruby_slice_bang exc min max : sound (ruby_slice_bang exc min max).
Proof. unfold ruby_slice_bang. prove_sound. Qed.

Lemma sound_ruby_print_exception exc : sound (ruby_print_exception exc).
Proof. unfold ruby_print_exception. prove_sound. Qed.

#[local] Hint Resolve sound_ruby_send sound_ruby_get_object
  sound_ruby_slice_bang sound_ruby_print_exception : romp.

Lemma sound_server_funcall : sound server_funcall.
Proof. unfold server_funcall. prove_sound. Qed.

Lemma sound_server_send_yield retval : sound (server_send_yield retval).
Proof. unfold server_send_yield. prove_sound. Qed.

Lemma sound_server_send_retval retval : sound (server_send_retval retval).
Proof. unfold server_send_retval. prove_sound. Qed.

Lemma sound_server_exception exc : sound (server_exception exc).
Proof. unfold server_exception. prove_sound. Qed.

Lemma sound_yield_each ys blk :
  (forall y, sound (blk y)) -> sound (yield_each ys blk).
Proof.
  intros Hblk. induction ys as [ | y ys IH ]; simpl; [ apply sound_ret | ].
  apply sound_bind; [ apply Hblk | intros _; exact IH ].
Qed.

#[local] Hint Resolve sound_server_funcall sound_server_send_yield
  sound_server_send_retval sound_server_exception sound_yield_each : romp.

Lemma sound_rb_iterate_server_funcall blk :
  (forall y, sound (blk y)) -> sound (rb_iterate_server_funcall blk).
Proof. intros Hblk. unfold rb_iterate_server_funcall. prove_sound. Qed.

#[local] Hint Resolve sound_rb_iterate_server_funcall : romp.

Lemma sound_server_reply : sound server_reply.
Proof. unfold server_reply. prove_sound. Qed.

#[local] Hint Resolve sound_server_reply : romp.

Lemma sound_server_loop_round resolve_server :
  sound (server_loop_round resolve_server).
Proof. unfold server_loop_round. prove_sound. Qed.

Lemma takes_server_loop_round resolve_server :
  takes (server_loop_round resolve_server).
Proof.
  unfold server_loop_round, session_finished.
  apply takes_gets; intros si.
  apply takes_bind.
  - apply takes_get_message.
  - intros msg. prove_sound.
Qed.

(** [server_loop] does not run out of fuel: it ends by the exception that
    ends the session. *)
Lemma server_loop_total resolve_server w :
  loop (rounds w) (server_loop_round resolve_server) w <> None.
Proof.
  apply loop_total; [ apply takes_server_loop_round | ].
  unfold rounds. lia.
Qed.

End Sound.

(** ** The client *)

Section Client.
Context {rb : Ruby}.

(** A round of the response loop on a frame at the head of the input. *)
Lemma client_request_round_frame obj w b payload rest data_len ty tag msg :
  wf_session (session w) ->
  length b = ROMP_BUFFER_SIZE ->
  get_header b = (ROMP_MSG_START, data_len, ty, tag) ->
  length payload = Z.to_nat data_len ->
  read_fd (session w) = b ++ payload ++ rest ->
  received ty tag payload = Return msg ->
  client_request_round obj w =
  (let ty := message_type msg in
   if ty =? ROMP_RETVAL then
     v <- msg_to_obj (message_obj msg) (po_ruby_session obj) (po_mutex obj) ;;
     ret (Some v)
   else if ty =? ROMP_YIELD then
     v <- msg_to_obj (message_obj msg) (po_ruby_session obj) (po_mutex obj) ;;
     rb_yield v ;;
     ret None
   else if ty =? ROMP_EXCEPTION then
     mesg <- ruby_exc_message (message_obj msg) ;;
     bt <- ruby_exc_backtrace (message_obj msg) ;;
     caller_v <- ruby_caller ;;
     bt <- rb_ary_concat bt caller_v ;;
     ruby_raise (message_obj msg) mesg bt ;;
     ret None
   else if ty =? ROMP_SYNC then
     value <- NUM2INT (message_obj msg) ;;
     reply_sync (po_session obj) value ;;
     ret None
   else rb_raise "RuntimeError" "Invalid msg type received")
    (mkWorld (mkSession rest b (nonblock (session w)))
       (proxies w) (server_info w)
       (trace w ++ [EvRead b; EvRead payload])).
Proof.
  intros Hwf Hb Hhdr Hpay Hfd Hrecv.
  unfold client_request_round. unfold bind at 1.
  destruct (po_session obj).
  rewrite (get_message_frame [] w b payload rest data_len ty tag);
    try assumption; [ | constructor ].
  rewrite Hrecv. reflexivity.
Qed.

(** C4. When the response loop of a call receives an EXCEPTION frame whose
    payload decodes to an exception with a backtrace, it raises an
    exception of the same class, with the message of the remote exception,
    and with the remote backtrace followed by the local caller stack. *)
Theorem remote_exception_raised (obj : Proxy_Object) (w : world)
    (b payload rest : list Z) (data_len tag : Z)
    (klass : string) (mesg : VALUE) (bt : list VALUE) (fuel : nat) :
  wf_session (session w) ->
  length b = ROMP_BUFFER_SIZE ->
  get_header b = (ROMP_MSG_START, data_len, ROMP_EXCEPTION, tag) ->
  length payload = Z.to_nat data_len ->
  read_fd (session w) = b ++ payload ++ rest ->
  Marshal_load payload = Return (Exception klass mesg (RArray bt)) ->
  let remote := Exception klass mesg (RArray bt) in
  let raised := Exception klass (message_text klass mesg) (RArray (bt ++ caller)) in
  exists w',
    loop (S fuel) (client_request_round obj) w = Some (Raise raised, w') /\
    events_since w w' = [EvRead b; EvRead payload] /\
    fst (ruby_exc_message raised w') = fst (ruby_exc_message remote w').
Proof.
  intros Hwf Hb Hhdr Hpay Hfd Hload remote raised.
  eexists. repeat apply conj.
  - cbn [loop].
    rewrite (client_request_round_frame obj w b payload rest data_len
               ROMP_EXCEPTION tag (mkMessage ROMP_EXCEPTION tag remote));
      try assumption.
    + reflexivity.
    + unfold received. rewrite Hload. reflexivity.
  - apply events_since_app. reflexivity.
  - simpl. destruct mesg; reflexivity.
Qed.

(** C7, where the code departs from it.  A SYNC frame received in the
    response loop is not acknowledged on its tag: the loop converts the
    decoded payload with [NUM2INT], and the payload of the SYNC frames the
    helper sends is nil, so the call ends with a [TypeError] and nothing is
    written, whatever the tag. *)
Theorem sync_in_response_loop (obj : Proxy_Object) (w : world)
    (b payload rest : list Z) (data_len tag : Z) (fuel : nat) :
  wf_session (session w) ->
  length b = ROMP_BUFFER_SIZE ->
  get_header b = (ROMP_MSG_START, data_len, ROMP_SYNC, tag) ->
  length payload = Z.to_nat data_len ->
  read_fd (session w) = b ++ payload ++ rest ->
  Marshal_load payload = Return Qnil ->
  exists w',
    loop (S fuel) (client_request_round obj) w =
    Some (Raise (Exception "TypeError"
                   (RString "no implicit conversion from nil to integer")
                   (RArray caller)), w') /\
    events_since w w' = [EvRead b; EvRead payload].
Proof.
  intros Hwf Hb Hhdr Hpay Hfd Hload.
  eexists. split.
  - cbn [loop].
    rewrite (client_request_round_frame obj w b payload rest data_len
               ROMP_SYNC tag (mkMessage ROMP_SYNC tag Qnil));
      try assumption.
    + reflexivity.
    + unfold received. rewrite Hload. reflexivity.
  - apply events_since_app. reflexivity.
Qed.

Lemma received_fields ty tag payload msg :
  received ty tag payload = Return msg ->
  message_type msg = ty /\ object_id msg = tag.
Proof.
  unfold received. destruct (negb (ty =? ROMP_NULL_MSG)).
  - destruct (Marshal_load payload); intros Heq; inversion Heq; auto.
  - intros Heq; inversion Heq; auto.
Qed.

(** C6, where the code departs from it.  [wait_sync] raises only on a frame
    that is at once not a SYNC, not tagged 1 and not nil: every frame that
    is a SYNC, or is tagged 1, or carries nil is accepted as the reply. *)
Theorem wait_sync_accepts (w : world) (b payload rest : list Z)
    (data_len ty tag : Z) (msg : ROMP_Message) :
  wf_session (session w) ->
  length b = ROMP_BUFFER_SIZE ->
  get_header b = (ROMP_MSG_START, data_len, ty, tag) ->
  length payload = Z.to_nat data_len ->
  read_fd (session w) = b ++ payload ++ rest ->
  received ty tag payload = Return msg ->
  fst (wait_sync the_session w) =
  if negb (ty =? ROMP_SYNC) && negb (tag =? 1)
     && negb (is_Qnil (message_obj msg))
  then Raise (Exception "RuntimeError" (RString "ROMP synchronization failed")
                (RArray caller))
  else Return tt.
Proof.
  intros Hwf Hb Hhdr Hpay Hfd Hrecv.
  unfold wait_sync, bind.
  rewrite (get_message_frame [] w b payload rest data_len ty tag);
    try assumption; [ | constructor ].
  rewrite Hrecv.
  destruct (received_fields _ _ _ _ Hrecv) as [-> ->].
  destruct (_ && _); reflexivity.
Qed.

(** The stores of [PUTSHORT] keep the low 16 bits of what they are given. *)
Lemma PUTSHORT_uint16 s mem buf :
  PUTSHORT (s mod 65536) mem buf = PUTSHORT s mem buf.
Proof.
  unfold PUTSHORT, to_char.
  assert (Hhi : Z.shiftr (s mod 65536) 8 mod 256 = Z.shiftr s 8 mod 256).
  { change 65536 with (2 ^ 16). change 256 with (2 ^ 8).
    apply Z.bits_inj'. intros i Hi.
    rewrite !(Z.testbit_mod_pow2 _ 8) by lia.
    destruct (Z.ltb_spec i 8); [ | reflexivity ].
    rewrite !Z.shiftr_spec by lia.
    rewrite Z.testbit_mod_pow2 by lia.
    destruct (Z.ltb_spec (i + 8) 16); [ reflexivity | lia ]. }
  assert (Hlo : Z.land (s mod 65536) 255 mod 256 = Z.land s 255 mod 256).
  { change 65536 with (2 ^ 16). change 256 with (2 ^ 8).
    change 255 with (Z.ones 8).
    apply Z.bits_inj'. intros i Hi.
    rewrite !(Z.testbit_mod_pow2 _ 8) by lia.
    destruct (Z.ltb_spec i 8); [ | reflexivity ].
    rewrite !Z.land_spec.
    rewrite Z.testbit_mod_pow2 by lia.
    destruct (Z.ltb_spec i 16); [ reflexivity | lia ]. }
  now rewrite Hhi, Hlo.
Qed.

Lemma put_header_uint16_id mem len message_type object_id :
  put_header mem len message_type (object_id mod 65536) =
  put_header mem len message_type object_id.
Proof.
  unfold put_header.
  destruct (PUTSHORT ROMP_MSG_START mem 0) as [mem1 buf1].
  destruct (PUTSHORT len mem1 buf1) as [mem2 buf2].
  destruct (PUTSHORT message_type mem2 buf2) as [mem3 buf3].
  now rewrite PUTSHORT_uint16.
Qed.

(** C8, as the code has it.  An object id is not rejected but reduced modulo
    2^16.  Making a proxy with an id in the range of [int] succeeds and
    stores the low 16 bits of the id.  In sending, the id is never the cause
    of a failure: a message for the id [n] is sent exactly as one for
    [n mod 2^16], and the header built in the session buffer, which is the
    block written first, holds the low 16 bits of the id in its object_id
    field. *)
Theorem object_id_wraps (w : world) (self mutex : VALUE) (n : Z) :
  - 2 ^ 31 <= n < 2 ^ 31 ->
  wf_session (session w) ->
  ruby_proxy_object_new self Session_Data mutex (Fixnum n) w =
  (Return (Proxy_Data (length (proxies w))),
   set_proxies
     (proxies w ++ [mkProxy the_session Session_Data (n mod 65536) Qfalse mutex])
     w) /\
  forall data kind,
    let sent := send_message_helper the_session data (length data) kind n w in
    sent =
    send_message_helper the_session data (length data) kind (n mod 65536) w /\
    get_header (buf (session (snd sent))) =
    (ROMP_MSG_START, uint16 (Z.of_nat (length data)), uint16 kind,
     n mod 65536) /\
    forall block evs,
      events_since w (snd sent) = EvWrite block :: evs ->
      block = buf (session (snd sent)).
Proof.
  intros Hn Hwf. split.
  - unfold ruby_proxy_object_new, bind, NUM2INT.
    destruct (Z.leb_spec (- 2 ^ 31) n); [ | lia ].
    destruct (Z.ltb_spec n (2 ^ 31)); [ | lia ].
    reflexivity.
  - intros data kind sent. repeat apply conj.
    + subst sent. unfold send_message_helper, bind, gets.
      now rewrite put_header_uint16_id.
    + subst sent. rewrite send_message_helper_spec by exact Hwf.
      cbn [snd session buf]. apply get_header_encode.
    + intros block evs. subst sent.
      rewrite send_message_helper_spec by exact Hwf. cbn [snd session buf].
      erewrite events_since_app by reflexivity.
      intros Hevs. now inversion Hevs.
Qed.

Lemma tail_keeps_proxy {A} (m : M A) w p obj :
  sound m -> proxies w !! p = Some obj -> proxies (snd (m w)) !! p = Some obj.
Proof.
  intros Hm Hp. destruct (Hm w) as ([ps Hps] & _).
  rewrite Hps. now apply lookup_app_l_Some.
Qed.

Lemma sound_Data_Get_Proxy self : sound (Data_Get_Proxy self).
Proof.
  intros w. unfold Data_Get_Proxy.
  destruct self; try apply sound_rb_raise.
  destruct (proxies w !! p); [ apply evolves_refl | apply sound_rb_raise ].
Qed.

(** Running [body] under the lock of the proxy. *)
Lemma sound_locked {A} (body : M A) mutex :
  sound body ->
  sound (ruby_lock mutex ;; rb_ensure body (ruby_unlock mutex)).
Proof.
  intros Hbody.
  apply sound_bind; [ apply sound_ruby_lock | intros _ ].
  apply sound_rb_ensure; [ exact Hbody | apply sound_ruby_unlock ].
Qed.

(** A method of the proxy that stores its message and goes on with [tail]:
    the message stays in the struct. *)
Lemma stored_then (tail : nat -> Proxy_Object -> M VALUE) w p obj message :
  (forall q o, sound (tail q o)) ->
  proxies w !! p = Some obj ->
  proxies
    (snd ((proxy_object <- Data_Get_Proxy (Proxy_Data p) ;;
           store_message proxy_object message ;;
           obj <- deref proxy_object ;;
           tail proxy_object obj) w)) !! p
  = Some (set_po_message message obj).
Proof.
  intros Htail Hp.
  unfold bind at 1. unfold Data_Get_Proxy. rewrite Hp.
  unfold bind at 1. unfold store_message, modify. rewrite Hp.
  apply tail_keeps_proxy.
  - apply sound_bind; [ apply sound_deref | intros o; apply Htail ].
  - simpl. apply list_lookup_insert_eq. eapply lookup_lt_Some, Hp.
Qed.

(** C10, as the code has it.  No client operation changes the session,
    ruby_session, object_id or mutex field of a proxy.  The message field is
    part of the proxy: a call, a oneway and a oneway_sync store the outgoing
    message in it before they send, and it stays there; sync leaves the
    proxy as it is. *)
Theorem proxy_fields_after_call (w : world) (p : nat) (obj : Proxy_Object)
    (message : VALUE) :
  proxies w !! p = Some obj ->
  let stored :=
    mkProxy (po_session obj) (po_ruby_session obj) (po_object_id obj)
      message (po_mutex obj) in
  proxies (snd (ruby_proxy_object_method_missing (Proxy_Data p) message w)) !! p
  = Some stored /\
  proxies (snd (ruby_proxy_object_oneway (Proxy_Data p) message w)) !! p
  = Some stored /\
  proxies (snd (ruby_proxy_object_oneway_sync (Proxy_Data p) message w)) !! p
  = Some stored /\
  proxies (snd (ruby_proxy_object_sync (Proxy_Data p) w)) !! p = Some obj.
Proof.
  intros Hp stored. repeat apply conj.
  - exact (stored_then
             (fun proxy_object obj =>
                ruby_lock (po_mutex obj) ;;
                rb_ensure (client_request proxy_object)
                  (ruby_unlock (po_mutex obj)))
             w p obj message
             (fun q o => sound_locked _ _ (sound_client_request q)) Hp).
  - refine (stored_then
              (fun proxy_object obj =>
                 ruby_lock (po_mutex obj) ;;
                 rb_ensure (client_oneway proxy_object)
                   (ruby_unlock (po_mutex obj)) ;;
                 ret Qnil)
              w p obj message _ Hp).
    intros q o.
    apply sound_bind; [ apply sound_ruby_lock | intros _ ].
    apply sound_bind; [ | intros _; apply sound_ret ].
    apply sound_rb_ensure; [ apply sound_client_oneway | apply sound_ruby_unlock ].
  - refine (stored_then
              (fun proxy_object obj =>
                 ruby_lock (po_mutex obj) ;;
                 rb_ensure (client_oneway_sync proxy_object)
                   (ruby_unlock (po_mutex obj)) ;;
                 ret Qnil)
              w p obj message _ Hp).
    intros q o.
    apply sound_bind; [ apply sound_ruby_lock | intros _ ].
    apply sound_bind; [ | intros _; apply sound_ret ].
    apply sound_rb_ensure;
      [ apply sound_client_oneway_sync | apply sound_ruby_unlock ].
  - apply tail_keeps_proxy; [ | exact Hp ].
    unfold ruby_proxy_object_sync.
    apply sound_bind; [ apply sound_Data_Get_Proxy | intros q ].
    apply sound_bind; [ apply sound_deref | intros o ].
    apply sound_bind; [ apply sound_ruby_lock | intros _ ].
    apply sound_bind; [ | intros _; apply sound_ret ].
    apply sound_rb_ensure; [ apply sound_client_sync | apply sound_ruby_unlock ].
Qed.

End Client.

(** ** The server *)

Section Server.
Context {rb : Ruby}.

(** A ONEWAY request whose target the registry finds: the method is called,
    whatever it does nothing else happens. *)
Lemma server_oneway w target :
  message_type (si_message (server_info w)) = ROMP_ONEWAY ->
  get_object (si_obj (server_info w)) (object_id (si_message (server_info w)))
  = Return target ->
  rb_rescue2 server_reply server_exception w =
  (Return Qnil,
   log (EvSend target (message_obj (si_message (server_info w))))
     (set_server_info (set_obj target (server_info w)) w)).
Proof.
  intros Hty Hget.
  unfold rb_rescue2, server_reply, bind, gets, ruby_get_object, lift, modify.
  rewrite Hget. cbn [server_info set_server_info set_obj si_message].
  rewrite Hty.
  change (ROMP_ONEWAY =? ROMP_ONEWAY_SYNC) with false.
  change (ROMP_ONEWAY =? ROMP_ONEWAY) with true. cbv iota.
  unfold rb_protect, server_funcall, bind, gets, ruby_send, bind, modify, lift, ret.
  cbn [server_info set_server_info set_obj si_message si_obj log].
  destruct (send target _); reflexivity.
Qed.

(** A ONEWAY_SYNC request whose target the registry finds: the NULL_MSG
    frame is written, then the method is called. *)
Lemma server_oneway_sync w target :
  wf_session (session w) ->
  message_type (si_message (server_info w)) = ROMP_ONEWAY_SYNC ->
  get_object (si_obj (server_info w)) (object_id (si_message (server_info w)))
  = Return target ->
  let ack := header_block (buf (session w)) ROMP_NULL_MSG 0 0 in
  rb_rescue2 server_reply server_exception w =
  (Return Qnil,
   mkWorld (mkSession (read_fd (session w)) ack (nonblock (session w)))
     (proxies w) (set_obj target (server_info w))
     (trace w ++
      [EvWrite ack; EvWrite [];
       EvSend target (message_obj (si_message (server_info w)))])).
Proof.
  intros Hwf Hty Hget ack.
  unfold rb_rescue2, server_reply, bind, gets, ruby_get_object, lift, modify.
  rewrite Hget. cbn [server_info set_server_info set_obj si_message].
  rewrite Hty.
  change (ROMP_ONEWAY_SYNC =? ROMP_ONEWAY_SYNC) with true. cbv iota.
  unfold send_null_message.
  change 0%nat with (length (@nil Z)).
  rewrite (send_message_helper_spec _ _ [] ROMP_NULL_MSG 0) by exact Hwf.
  unfold rb_protect, server_funcall, bind, gets, ruby_send, bind, modify, lift, ret.
  cbn [server_info set_server_info set_obj si_message si_obj log session
       proxies trace read_fd buf nonblock length Z.of_nat].
  destruct (send target _); unfold log;
    cbn [session proxies server_info trace]; rewrite <- app_assoc;
    reflexivity.
Qed.

(** A SYNC request is acknowledged on the tag of its frame: tag 0 is
    answered with a SYNC frame tagged 1, any other tag with nothing. *)
Lemma server_sync_reply w target data :
  wf_session (session w) ->
  message_type (si_message (server_info w)) = ROMP_SYNC ->
  get_object (si_obj (server_info w)) (object_id (si_message (server_info w)))
  = Return target ->
  Marshal_dump Qnil = Return data ->
  let run := rb_rescue2 server_reply server_exception w in
  fst run = Return Qnil /\
  events_since w (snd run) =
  if object_id (si_message (server_info w)) =? 0
  then [EvWrite (header_block (buf (session w)) ROMP_SYNC 1
                   (Z.of_nat (length data)));
        EvWrite data]
  else [].
Proof.
  intros Hwf Hty Hget Hdump run. subst run.
  unfold rb_rescue2, server_reply, bind, gets, ruby_get_object, lift, modify.
  rewrite Hget. cbn [server_info set_server_info set_obj si_message].
  rewrite Hty.
  change (ROMP_SYNC =? ROMP_ONEWAY_SYNC) with false.
  change (ROMP_SYNC =? ROMP_ONEWAY) with false.
  change (ROMP_SYNC =? ROMP_REQUEST) with false.
  change (ROMP_SYNC =? ROMP_REQUEST_BLOCK) with false.
  change (ROMP_SYNC =? ROMP_SYNC) with true. cbv iota.
  unfold reply_sync.
  destruct (object_id (si_message (server_info w)) =? 0).
  - unfold send_message, bind, marshal_dump, lift. cbn [message_obj].
    rewrite Hdump. cbn [message_type object_id].
    rewrite send_message_helper_spec by exact Hwf.
    split; [ reflexivity | ]. apply events_since_app. reflexivity.
  - split; [ reflexivity | ]. apply events_since_app.
    simpl. now rewrite app_nil_r.
Qed.

(** [server_exception] calls no method. *)
Lemma server_exception_quiet exc w :
  exists evs,
    trace (snd (server_exception exc w)) = trace w ++ evs /\
    Forall (fun ev => is_send ev = false) evs.
Proof.
  unfold server_exception, bind, ruby_caller, ret, ruby_exc_backtrace.
  destruct exc as [ | | | | | | klass mesg bt | | | | ];
    try (exists []; split; [ now rewrite app_nil_r | constructor ]).
  unfold modify, ruby_slice_bang, bind, lift, ret, gets.
  destruct bt as [ | | | | | a | | | | | ];
    try (exists []; split; [ now rewrite app_nil_r | constructor ]).
  destruct (slice_bang a _ _) as [a' | exc'];
    [ | exists []; split; [ now rewrite app_nil_r | constructor ] ].
  cbn [server_info set_server_info set_message si_debug si_message si_session].
  unfold ruby_print_exception, send_message, marshal_dump, bind, modify, lift.
  destruct (si_debug (server_info w));
    (destruct (Marshal_dump _) as [data | exc'];
     [ unfold send_message_helper, bind, gets, modify, ret, ruby_write_throw,
         bind, modify, ret
     | ]);
    cbn [message_obj snd log trace session set_session];
    eexists; (split; [ rewrite <- ?app_assoc; try reflexivity;
                       now rewrite app_nil_r
                     | repeat constructor ]).
Qed.

(** C5, as the code has it.  For a ONEWAY_SYNC request whose target the
    registry finds, exactly one frame is sent before the target method is
    called, the NULL_MSG acknowledgement, and nothing is sent after the
    call, whatever the call does: the events of the request are the two
    writes of the acknowledgement and then the call. *)
Theorem oneway_sync_ack_first (w : world) (target : VALUE) :
  wf_session (session w) ->
  message_type (si_message (server_info w)) = ROMP_ONEWAY_SYNC ->
  get_object (si_obj (server_info w)) (object_id (si_message (server_info w)))
  = Return target ->
  let run := rb_rescue2 server_reply server_exception w in
  let evs := events_since w (snd run) in
  let ack := header_block (buf (session w)) ROMP_NULL_MSG 0 0 in
  get_header ack = (ROMP_MSG_START, 0, ROMP_NULL_MSG, 0) /\
  fst run = Return Qnil /\
  evs = [EvWrite ack; EvWrite [];
         EvSend target (message_obj (si_message (server_info w)))] /\
  (forall pre obj msg post,
     evs = pre ++ EvSend obj msg :: post ->
     pre = [EvWrite ack; EvWrite []] /\ post = []).
Proof.
  intros Hwf Hty Hget run evs ack.
  assert (Hevs : evs = [EvWrite ack; EvWrite [];
                        EvSend target
                          (message_obj (si_message (server_info w)))]).
  { subst evs run. rewrite (server_oneway_sync w target Hwf Hty Hget).
    apply events_since_app. reflexivity. }
  repeat apply conj.
  - apply get_header_encode.
  - subst run. rewrite (server_oneway_sync w target Hwf Hty Hget). reflexivity.
  - exact Hevs.
  - intros pre obj msg post Hpre. rewrite Hevs in Hpre.
    destruct pre as [ | e1 [ | e2 [ | e3 pre ] ] ]; simpl in Hpre;
      inversion Hpre; subst; auto.
    destruct pre; discriminate.
Qed.

(** C9, as the code has it.  For a ONEWAY request whose target the registry
    finds, the server calls the method and sends no frame; an exception of
    the call is discarded without being printed, whatever debug is, and is
    neither raised further nor sent to the client. *)
Theorem oneway_no_reply (w : world) (target : VALUE) :
  message_type (si_message (server_info w)) = ROMP_ONEWAY ->
  get_object (si_obj (server_info w)) (object_id (si_message (server_info w)))
  = Return target ->
  let run := rb_rescue2 server_reply server_exception w in
  let evs := events_since w (snd run) in
  fst run = Return Qnil /\
  evs = [EvSend target (message_obj (si_message (server_info w)))] /\
  written evs = [] /\
  List.filter is_print evs = [] /\
  session (snd run) = session w.
Proof.
  intros Hty Hget run evs. subst evs run.
  rewrite (server_oneway w target Hty Hget). cbn [fst snd].
  rewrite (events_since_app w _
             [EvSend target (message_obj (si_message (server_info w)))])
    by reflexivity.
  repeat apply conj; reflexivity.
Qed.

End Server.

(** ** Frames from one endpoint to the other *)

Section Wire.
Context {rb : Ruby}.

Lemma header_block_again mem k1 o1 l1 kind oid len :
  header_block (header_block mem k1 o1 l1) kind oid len =
  header_block mem kind oid len.
Proof. reflexivity. Qed.

(** [send_message] when the object can be dumped. *)
Lemma send_message_spec sp w ty oid obj data :
  wf_session (session w) ->
  Marshal_dump obj = Return data ->
  send_message sp (mkMessage ty oid obj) w =
  (Return tt,
   mkWorld
     (mkSession (read_fd (session w))
        (header_block (buf (session w)) ty oid (Z.of_nat (length data)))
        (nonblock (session w)))
     (proxies w) (server_info w)
     (trace w ++ frame_events (buf (session w)) ty oid data)).
Proof.
  intros Hwf Hdump. unfold send_message, bind, marshal_dump, lift.
  cbn [message_obj message_type object_id]. rewrite Hdump.
  apply send_message_helper_spec, Hwf.
Qed.

Lemma written_frame_events mem ty oid data :
  written (frame_events mem ty oid data) = frame mem ty oid data.
Proof. unfold frame_events, frame. simpl. now rewrite app_nil_r. Qed.

Lemma uint16_of_nat_le n : (Z.to_nat (uint16 (Z.of_nat n)) <= n)%nat.
Proof.
  unfold uint16.
  assert (H : 0 <= Z.of_nat n mod 65536 <= Z.of_nat n).
  { split; [ apply Z.mod_pos_bound; lia | apply Z.mod_le; lia ]. }
  lia.
Qed.

(** [get_message] on the bytes of a frame as the peer wrote it. *)
Lemma get_message_transfer w mem ty oid data rest :
  wf_session (session w) ->
  length mem = ROMP_BUFFER_SIZE ->
  is_short ty -> is_short oid ->
  read_fd (session w) = frame mem ty oid data ++ rest ->
  let n := Z.to_nat (uint16 (Z.of_nat (length data))) in
  let block := header_block mem ty oid (Z.of_nat (length data)) in
  get_message the_session w =
  (received ty oid (firstn n data),
   mkWorld (mkSession (skipn n data ++ rest) block (nonblock (session w)))
     (proxies w) (server_info w)
     (trace w ++ [EvRead block; EvRead (firstn n data)])).
Proof.
  intros Hwf Hmem Hty Hoid Hfd n block.
  apply (get_message_frame [] w block (firstn n data) (skipn n data ++ rest)
           (uint16 (Z.of_nat (length data))) ty oid).
  - constructor.
  - exact Hwf.
  - apply header_block_length, Hmem.
  - unfold block, header_block. rewrite get_header_encode.
    rewrite (uint16_small ty), (uint16_small oid) by assumption. reflexivity.
  - rewrite length_firstn. subst n.
    pose proof (uint16_of_nat_le (length data)). lia.
  - rewrite Hfd. unfold frame. fold block. simpl.
    rewrite <- !app_assoc, (app_assoc (firstn n data)), firstn_skipn.
    reflexivity.
Qed.

(** X2. The len field wraps.  The receiver of a frame sent with a payload of
    [L] bytes takes [L mod 65536] bytes as the payload and leaves the others
    pending, where the next header block is looked for: a payload of 65536
    bytes or more does not arrive whole. *)
Theorem payload_length_wraps (w : world) (mem : list Z) (ty oid : Z)
    (data rest : list Z) :
  wf_session (session w) ->
  length mem = ROMP_BUFFER_SIZE ->
  is_short ty -> is_short oid ->
  read_fd (session w) = frame mem ty oid data ++ rest ->
  let n := (Z.of_nat (length data) mod 65536) in
  let got := get_message the_session w in
  fst got = received ty oid (firstn (Z.to_nat n) data) /\
  read_fd (session (snd got)) = skipn (Z.to_nat n) data ++ rest /\
  (Z.of_nat (length data) < 65536 ->
   fst got = received ty oid data /\ read_fd (session (snd got)) = rest).
Proof.
  intros Hwf Hmem Hty Hoid Hfd n got. subst got.
  rewrite (get_message_transfer w mem ty oid data rest) by assumption.
  cbn [fst snd session read_fd]. fold (uint16 (Z.of_nat (length data))).
  repeat apply conj; try reflexivity.
  intros Hlt. rewrite uint16_small by lia.
  rewrite Nat2Z.id, firstn_all, skipn_all. split; reflexivity.
Qed.

(** X3. A message goes round: what [send_message] writes for a message of a
    kind other than NULL_MSG, with 16-bit kind and tag and a dump shorter
    than 65536 bytes that loads back to the object, is received by
    [get_message] at the other end as that very message, and nothing more is
    taken from the input. *)
Theorem message_round_trip (ws wr : world) (ty oid : Z) (obj : VALUE)
    (data rest : list Z) :
  wf_session (session ws) ->
  wf_session (session wr) ->
  is_short ty -> is_short oid ->
  ty <> ROMP_NULL_MSG ->
  Marshal_dump obj = Return data ->
  Marshal_load data = Return obj ->
  Z.of_nat (length data) < 65536 ->
  let sent := send_message the_session (mkMessage ty oid obj) ws in
  read_fd (session wr) = written (events_since ws (snd sent)) ++ rest ->
  let got := get_message the_session wr in
  fst got = Return (mkMessage ty oid obj) /\
  read_fd (session (snd got)) = rest.
Proof.
  intros Hws Hwr Hty Hoid Hnull Hdump Hload Hlen sent Hfd got.
  subst sent got.
  rewrite (send_message_spec _ ws ty oid obj data Hws Hdump) in Hfd.
  cbn [snd] in Hfd.
  rewrite (events_since_app ws _ (frame_events (buf (session ws)) ty oid data))
    in Hfd by reflexivity.
  rewrite written_frame_events in Hfd.
  rewrite (get_message_transfer wr _ ty oid data rest Hwr Hws Hty Hoid Hfd).
  cbn [fst snd session read_fd].
  rewrite uint16_small by lia.
  rewrite Nat2Z.id, firstn_all, skipn_all.
  split; [ | reflexivity ].
  unfold received.
  destruct (Z.eqb_spec ty ROMP_NULL_MSG) as [Heq | _]; [ contradiction | ].
  simpl. rewrite Hload. reflexivity.
Qed.

(** X4. A NULL_MSG frame carries nothing: its payload is taken from the
    input and never loaded, so the message received holds nil whatever the
    bytes are, also where they would not load. *)
Theorem null_message_payload_ignored (w : world) (b payload rest : list Z)
    (data_len tag : Z) :
  wf_session (session w) ->
  length b = ROMP_BUFFER_SIZE ->
  get_header b = (ROMP_MSG_START, data_len, ROMP_NULL_MSG, tag) ->
  length payload = Z.to_nat data_len ->
  read_fd (session w) = b ++ payload ++ rest ->
  let got := get_message the_session w in
  fst got = Return (mkMessage ROMP_NULL_MSG tag Qnil) /\
  read_fd (session (snd got)) = rest /\
  events_since w (snd got) = [EvRead b; EvRead payload].
Proof.
  intros Hwf Hb Hhdr Hpay Hfd got. subst got.
  rewrite (get_message_frame [] w b payload rest data_len ROMP_NULL_MSG tag);
    try assumption; [ | constructor ].
  cbn [fst snd session read_fd]. repeat apply conj; try reflexivity.
  apply events_since_app. reflexivity.
Qed.

End Wire.

(** ** The senders on a write end that may fail *)

Section WriteEndRuns.
Context {rb : Ruby} {sys : System}.

Lemma adds_refl w : adds [] w w.
Proof. unfold adds. now rewrite app_nil_r. Qed.

Lemma adds_log ev w : adds [ev] w (log ev w).
Proof. repeat split. Qed.

Lemma adds_trans evs1 evs2 w w1 w2 :
  adds evs1 w w1 -> adds evs2 w1 w2 -> adds (evs1 ++ evs2) w w2.
Proof.
  intros (Hs1 & Hp1 & Hi1 & Ht1) (Hs2 & Hp2 & Hi2 & Ht2).
  repeat split; try congruence.
  rewrite Ht2, Ht1. now rewrite app_assoc.
Qed.

Lemma adds_events_since evs w w' : adds evs w w' -> events_since w w' = evs.
Proof. intros (_ & _ & _ & Ht). now apply events_since_app. Qed.

(** One [WRITE_HELPER]: it raises, nothing having left, or [k] bytes of the
    [count] have left. *)
Lemma WRITE_HELPER_spec a buf count total w :
  (exists exc,
     WriteEnd.WRITE_HELPER a buf count total w = (Raise exc, w) /\
     write_failure exc) \/
  (exists k evs w',
     WriteEnd.WRITE_HELPER a buf count total w =
     (Return (skipn k buf, (count - k)%nat, (total + k)%nat), w') /\
     (k <= count)%nat /\ written evs = firstn k buf /\ adds evs w w').
Proof.
  unfold WriteEnd.WRITE_HELPER.
  destruct (Z.ltb_spec (returned a) 0) as [Hneg | Hpos].
  - change (-1 <? 0) with true. cbv iota.
    destruct (errno a =? EWOULDBLOCK); cbn [negb].
    + right. exists 0%nat, [], w.
      rewrite Nat.sub_0_r, Nat.add_0_r.
      split; [ reflexivity | ]. split; [ lia | ].
      split; [ reflexivity | apply adds_refl ].
    + left. eexists. split; [ reflexivity | ].
      left. exists (errno a), "write"%string. split; [ now left | reflexivity ].
  - destruct (Z.ltb_spec (Z.min (returned a) (Z.of_nat count)) 0); [ lia | ].
    destruct ((Z.min (returned a) (Z.of_nat count) =? 0)
              && negb (Nat.eqb count 0)).
    + left. eexists. split; [ reflexivity | ]. right. reflexivity.
    + right.
      eexists (Z.to_nat (Z.min (returned a) (Z.of_nat count))),
        [EvWrite (firstn (Z.to_nat (Z.min (returned a) (Z.of_nat count))) buf)],
        _.
      split; [ reflexivity | ]. split; [ lia | ].
      split; [ simpl; apply app_nil_r | apply adds_log ].
Qed.

Lemma write_run_failed buf count w exc os :
  write_failure exc -> write_run buf count w (Raise exc, os, w).
Proof.
  intros Hexc. exists 0%nat, [].
  split; [ lia | ]. split; [ reflexivity | ]. split; [ apply adds_refl | ].
  split; [ discriminate | ].
  intros exc' Heq. simpl in Heq. inversion Heq; subst. exact Hexc.
Qed.

(** A run after [k1] bytes have left is a run from the start. *)
Lemma write_run_after buf count w k1 evs1 w1 r :
  (k1 <= count)%nat -> written evs1 = firstn k1 buf -> adds evs1 w w1 ->
  write_run (skipn k1 buf) (count - k1) w1 r ->
  write_run buf count w r.
Proof.
  intros Hk1 Hw1 Ha1 (k2 & evs2 & Hk2 & Hw2 & Ha2 & Hret & Hexc).
  exists (k1 + k2)%nat, (evs1 ++ evs2).
  split; [ lia | ].
  split; [ rewrite written_app, Hw1, Hw2; apply take_take_drop | ].
  split; [ eapply adds_trans; eassumption | ].
  split; [ | exact Hexc ].
  intros n Hn. specialize (Hret n Hn). lia.
Qed.

Lemma last_round_run buf count total w :
  write_run buf count w (WriteEnd.last_round buf count total w).
Proof.
  unfold WriteEnd.last_round.
  destruct (WRITE_HELPER_spec (accepts count) buf count total w)
    as [(exc & -> & Hexc) | (k & evs & w' & Heq & Hk & Hw & Ha)].
  - now apply write_run_failed.
  - assert (Hall : k = count).
    { revert Heq. unfold WriteEnd.WRITE_HELPER, accepts. cbn [returned errno].
      destruct (Z.ltb_spec (Z.of_nat count) 0); [ lia | ].
      rewrite Z.min_id.
      destruct (Z.ltb_spec (Z.of_nat count) 0); [ lia | ].
      destruct (Nat.eqb_spec count 0) as [-> | Hne]; intros Heq.
      - lia.
      - destruct (Z.eqb_spec (Z.of_nat count) 0); [ lia | ].
        cbn [andb] in Heq. unfold bind, modify, ret in Heq.
        inversion Heq as [[Hskip Hcount Htotal Hworld]]. lia. }
    rewrite Heq. exists k, evs. cbn [fst snd].
    split; [ exact Hk | ]. split; [ exact Hw | ]. split; [ exact Ha | ].
    split; [ intros _ _; exact Hall | discriminate ].
Qed.

Lemma write_loop_run : forall n os buf count total w,
  (length os <= n)%nat ->
  write_run buf count w (WriteEnd.write_loop os buf count total w).
Proof.
  induction n as [ | n IH ]; intros os buf count total w Hn.
  - destruct os; [ | simpl in Hn; lia ].
    destruct count; simpl.
    + exists 0%nat, [].
      split; [ lia | ]. split; [ reflexivity | ].
      split; [ apply adds_refl | ]. split; [ reflexivity | discriminate ].
    + apply last_round_run.
  - destruct count as [ | count' ].
    { destruct os; simpl; exists 0%nat, [];
        (split; [ lia | ]); (split; [ reflexivity | ]);
        (split; [ apply adds_refl | ]); (split; [ reflexivity | discriminate ]). }
    destruct os as [ | sel os ]; [ apply last_round_run | ].
    simpl in Hn. cbn [WriteEnd.write_loop].
    destruct (returned sel =? -1).
    + destruct (errno sel =? EWOULDBLOCK).
      * apply IH. lia.
      * apply write_run_failed.
        left. exists (errno sel), "select"%string.
        split; [ now right | reflexivity ].
    + destruct os as [ | wr os ]; [ apply last_round_run | ].
      simpl in Hn.
      destruct (WRITE_HELPER_spec wr buf (S count') total w)
        as [(exc & -> & Hexc) | (k & evs & w' & -> & Hk & Hw & Ha)].
      * now apply write_run_failed.
      * eapply write_run_after; try eassumption.
        apply IH. lia.
Qed.

Lemma ruby_write_throw_run os buf count nb w :
  write_run buf count w (WriteEnd.ruby_write_throw os buf count nb w).
Proof.
  unfold WriteEnd.ruby_write_throw.
  assert (Hfirst : forall wr os,
    write_run buf count w
      match WriteEnd.WRITE_HELPER wr buf count 0 w with
      | (Raise exc, w) => (Raise exc, os, w)
      | (Return (buf, count, total), w) =>
        WriteEnd.write_loop os buf count total w
      end).
  { intros wr os'.
    destruct (WRITE_HELPER_spec wr buf count 0 w)
      as [(exc & -> & Hexc) | (k & evs & w' & -> & Hk & Hw & Ha)].
    - now apply write_run_failed.
    - eapply write_run_after; try eassumption.
      eapply write_loop_run. apply Nat.le_refl. }
  destruct nb; cbn [negb].
  - destruct (next (accepts count) os) as [wr os']. apply Hfirst.
  - destruct (next ready os) as [sel os'].
    destruct (0 <? returned sel).
    + destruct (next (accepts count) os') as [wr os'']. apply Hfirst.
    + eapply write_loop_run. apply Nat.le_refl.
Qed.

(** On a descriptor that is ready and takes what it is given the I/O layer
    does one [write] of all the bytes. *)
Lemma ruby_write_throw_ready buf count nb w :
  WriteEnd.ruby_write_throw [] buf count nb w =
  (fst (ruby_write_throw buf count nb w), [],
   snd (ruby_write_throw buf count nb w)).
Proof.
  unfold WriteEnd.ruby_write_throw, ruby_write_throw, bind, modify, ret.
  cbn [fst snd].
  assert (Hfirst :
    match WriteEnd.WRITE_HELPER (accepts count) buf count 0 w with
    | (Raise exc, w) => (Raise exc, [], w)
    | (Return (buf, count, total), w) =>
      WriteEnd.write_loop [] buf count total w
    end = (Return (Z.of_nat count), [], log (EvWrite (firstn count buf)) w)).
  { unfold WriteEnd.WRITE_HELPER, accepts. cbn [returned errno].
    destruct (Z.ltb_spec (Z.of_nat count) 0); [ lia | ].
    rewrite Z.min_id.
    destruct (Z.ltb_spec (Z.of_nat count) 0); [ lia | ].
    assert (Hz : (Z.of_nat count =? 0) && negb (Nat.eqb count 0) = false).
    { destruct (Nat.eqb_spec count 0) as [-> | Hne];
        [ reflexivity | ].
      destruct (Z.eqb_spec (Z.of_nat count) 0); [ lia | reflexivity ]. }
    rewrite Hz. unfold bind, modify, ret.
    rewrite Nat2Z.id, Nat.sub_diag. reflexivity. }
  destruct nb; cbn [negb next ready returned]; [ exact Hfirst | ].
  change (0 <? 1) with true. cbv iota. exact Hfirst.
Qed.

(** [send_message_helper] on any answers of the system: the header is built
    in the session buffer, and what has left is a prefix of the frame. *)
Lemma send_message_helper_run os sp w data kind oid :
  wf_session (session w) ->
  let sent := WriteEnd.send_message_helper os sp data (length data) kind oid w in
  let f := frame (buf (session w)) kind oid data in
  exists k evs,
    written evs = firstn k f /\
    trace (snd sent) = trace w ++ evs /\
    (fst (fst sent) = Return tt -> written evs = f) /\
    (forall exc, fst (fst sent) = Raise exc -> write_failure exc).
Proof.
  intros Hwf sent f. subst sent. unfold WriteEnd.send_message_helper.
  rewrite put_header_block by exact Hwf.
  set (mem := header_block (buf (session w)) kind oid (Z.of_nat (length data))).
  set (w0 := set_session (set_buf mem (session w)) w).
  assert (Hmem : length mem = ROMP_BUFFER_SIZE)
    by (apply header_block_length, Hwf).
  destruct (ruby_write_throw_run os mem ROMP_BUFFER_SIZE (nonblock (session w)) w0)
    as (k1 & evs1 & Hk1 & Hw1 & Ha1 & Hret1 & Hexc1).
  destruct (WriteEnd.ruby_write_throw os mem ROMP_BUFFER_SIZE
              (nonblock (session w)) w0) as [[[n1 | exc1] os1] w1];
    cbn [fst snd] in *.
  - specialize (Hret1 n1 eq_refl). subst k1.
    rewrite <- Hmem, firstn_all in Hw1.
    destruct (ruby_write_throw_run os1 data (length data)
                (nonblock (session w)) w1)
      as (k2 & evs2 & Hk2 & Hw2 & Ha2 & Hret2 & Hexc2).
    assert (Hevs : written (evs1 ++ evs2) = firstn (length mem + k2) f).
    { rewrite written_app, Hw1, Hw2. unfold f, frame. fold mem.
      symmetry. apply take_app_add. }
    destruct (WriteEnd.ruby_write_throw os1 data (length data)
                (nonblock (session w)) w1) as [[[n2 | exc2] os2] w2];
      cbn [fst snd] in *;
      exists (length mem + k2)%nat, (evs1 ++ evs2);
      (split; [ exact Hevs | ]);
      (split; [ destruct Ha1 as (_ & _ & _ & Ht1);
                destruct Ha2 as (_ & _ & _ & Ht2);
                rewrite Ht2, Ht1; cbn [w0 trace set_session];
                now rewrite app_assoc | ]).
    + split; [ | discriminate ].
      intros _. rewrite Hevs. specialize (Hret2 n2 eq_refl). subst k2.
      unfold f, frame. fold mem. rewrite <- length_app. apply firstn_all.
    + split; [ discriminate | ].
      intros exc Heq. inversion Heq; subst. now apply Hexc2.
  - exists k1, evs1.
    split.
    { rewrite Hw1. unfold f, frame. fold mem.
      symmetry. apply take_app_le. lia. }
    split; [ destruct Ha1 as (_ & _ & _ & Ht1); exact Ht1 | ].
    split; [ discriminate | ].
    intros exc Heq. inversion Heq; subst. now apply Hexc1.
Qed.

(** X1. [send_message] on a write end that may fail.  The object is dumped
    before the descriptor is touched: when the dump raises, that exception
    is raised, no system call has been made and nothing has changed.
    Otherwise, whatever the system answers to the selects and writes, what
    has left is a prefix of the frame, the header block first and then the
    dump; when [send_message] returns, the whole frame has left; when it
    raises, it is with an exception of the I/O layer, a part of the frame,
    the header block alone for one, having left.  On a descriptor that is
    ready and takes what it is given, the frame leaves in two writes, the
    header block and the dump, and [send_message] returns. *)
Theorem send_message_writes_prefix (os : list answer) (sp : session_ptr)
    (w : world) (ty oid : Z) (obj : VALUE) :
  wf_session (session w) ->
  let sent := WriteEnd.send_message os sp (mkMessage ty oid obj) w in
  match Marshal_dump obj with
  | Raise exc => sent = (Raise exc, os, w)
  | Return data =>
    let f := frame (buf (session w)) ty oid data in
    let gone := written (events_since w (snd sent)) in
    (exists k, gone = firstn k f) /\
    (fst (fst sent) = Return tt -> gone = f) /\
    (forall exc, fst (fst sent) = Raise exc -> write_failure exc) /\
    (os = [] ->
     fst (fst sent) = Return tt /\
     events_since w (snd sent) = frame_events (buf (session w)) ty oid data /\
     (fst (fst sent), snd sent) = send_message sp (mkMessage ty oid obj) w)
  end.
Proof.
  intros Hwf sent. subst sent.
  unfold WriteEnd.send_message, marshal_dump, lift.
  cbn [message_obj message_type object_id].
  destruct (Marshal_dump obj) as [data | exc] eqn:Hdump; [ | reflexivity ].
  destruct (send_message_helper_run os sp w data ty oid Hwf)
    as (k & evs & Hw & Ht & Hret & Hexc).
  rewrite (events_since_app _ _ _ Ht).
  split; [ exists k; exact Hw | ].
  split; [ exact Hret | ].
  split; [ exact Hexc | ].
  intros ->.
  assert (Hsame :
    WriteEnd.send_message_helper [] sp data (length data) ty oid w =
    (Return tt, [],
     snd (send_message_helper sp data (length data) ty oid w))).
  { unfold WriteEnd.send_message_helper, send_message_helper, bind, gets,
      modify, ret.
    rewrite !ruby_write_throw_ready.
    unfold ruby_write_throw, bind, modify, ret. reflexivity. }
  rewrite Hsame in Ht |- *. cbn [fst snd] in Ht |- *.
  rewrite (send_message_spec sp w ty oid obj data Hwf Hdump).
  rewrite send_message_helper_spec in Ht |- * by exact Hwf.
  cbn [snd trace] in Ht |- *. apply app_inv_head in Ht.
  split; [ reflexivity | ].
  split; [ symmetry; exact Ht | reflexivity ].
Qed.

End WriteEndRuns.

(** ** The end of the input *)

Section EndOfInput.
Context {rb : Ruby}.

(** A round of [get_message] on fewer bytes than a header block. *)
Lemma get_message_round_short m w :
  (length (read_fd (session w)) < ROMP_BUFFER_SIZE)%nat ->
  get_message_round m w =
  (Raise (Exception "IOError" (RString "disconnected") (RArray caller)),
   mkWorld
     (mkSession []
        (read_fd (session w)
         ++ skipn (length (read_fd (session w))) (buf (session w)))
        (nonblock (session w)))
     (proxies w) (server_info w) (trace w ++ [EvRead (read_fd (session w))])).
Proof.
  intros Hlt. unfold get_message_round, ruby_read_throw.
  destruct (Nat.leb_spec ROMP_BUFFER_SIZE (length (read_fd (session w))));
    [ lia | ].
  rewrite firstn_all2 by lia.
  rewrite (skipn_all2 (n := ROMP_BUFFER_SIZE)) by lia.
  reflexivity.
Qed.

Lemma get_message_rounds_short garbage : forall fuel m w tail,
  Forall garbage_block garbage ->
  wf_session (session w) ->
  (length tail < ROMP_BUFFER_SIZE)%nat ->
  read_fd (session w) = concat garbage ++ tail ->
  (length garbage < fuel)%nat ->
  exists w',
    loop fuel (get_message_round m) w =
    Some (Raise (Exception "IOError" (RString "disconnected") (RArray caller)),
          w') /\
    read_fd (session w') = [] /\
    trace w' = trace w ++ map EvRead garbage ++ [EvRead tail].
Proof.
  induction garbage as [ | g garbage IH ];
    intros fuel m w tail Hg Hwf Htail Hfd Hfuel.
  - destruct fuel as [ | fuel ]; [ simpl in Hfuel; lia | ].
    simpl in Hfd. simpl loop.
    rewrite get_message_round_short by (rewrite Hfd; exact Htail).
    eexists. repeat apply conj; try reflexivity.
    simpl. now rewrite Hfd.
  - destruct fuel as [ | fuel ]; [ simpl in Hfuel; lia | ].
    inversion Hg as [ | ? ? Hg1 Hg2 ]; subst.
    simpl in Hfd. rewrite <- app_assoc in Hfd. simpl loop.
    rewrite (get_message_round_garbage m w g _ Hwf Hg1 Hfd).
    destruct (IH fuel m (after_block g (concat garbage ++ tail) w) tail Hg2)
      as (w' & Hloop & Hrest & Htrace).
    + apply after_block_wf, Hg1.
    + exact Htail.
    + reflexivity.
    + simpl in Hfuel. lia.
    + exists w'. repeat apply conj; try assumption.
      rewrite Htrace. simpl. rewrite <- app_assoc. reflexivity.
Qed.

(** X5. Input that ends before a header block is found.  When the pending
    input is any number of blocks without the magic followed by fewer than
    16 bytes (none at all included), [get_message] takes all of it and
    raises the [IOError] "disconnected" of the I/O layer: there is no other
    error for a stream without a header. *)
Theorem get_message_disconnected (garbage : list (list Z)) (tail : list Z)
    (w : world) :
  Forall garbage_block garbage ->
  wf_session (session w) ->
  (length tail < ROMP_BUFFER_SIZE)%nat ->
  read_fd (session w) = concat garbage ++ tail ->
  let got := get_message the_session w in
  fst got = Raise (Exception "IOError" (RString "disconnected") (RArray caller))
  /\ read_fd (session (snd got)) = []
  /\ events_since w (snd got) = map EvRead garbage ++ [EvRead tail].
Proof.
  intros Hg Hwf Htail Hfd got. subst got. unfold get_message.
  destruct (get_message_rounds_short garbage (rounds w) (mkMessage 0 0 Qnil)
              w tail Hg Hwf Htail Hfd) as (w' & Hloop & Hrest & Htrace).
  - unfold rounds. rewrite Hfd, length_app.
    pose proof (garbage_length garbage Hg). lia.
  - rewrite Hloop. cbn [fst snd]. repeat apply conj; try assumption.
    + reflexivity.
    + apply events_since_app, Htrace.
Qed.

(** X6. Input that ends inside a payload.  After a header block that
    announces more payload bytes than are left, [get_message] takes what is
    there and raises "disconnected"; nothing is loaded. *)
Theorem get_message_truncated_payload (w : world) (b avail : list Z)
    (data_len ty tag : Z) :
  wf_session (session w) ->
  length b = ROMP_BUFFER_SIZE ->
  get_header b = (ROMP_MSG_START, data_len, ty, tag) ->
  (length avail < Z.to_nat data_len)%nat ->
  read_fd (session w) = b ++ avail ->
  let got := get_message the_session w in
  fst got = Raise (Exception "IOError" (RString "disconnected") (RArray caller))
  /\ read_fd (session (snd got)) = []
  /\ events_since w (snd got) = [EvRead b; EvRead avail].
Proof.
  intros Hwf Hb Hhdr Hshort Hfd got. subst got. unfold get_message.
  rewrite (get_message_rounds [] (rounds w) (mkMessage 0 0 Qnil) w b avail
             data_len ty tag);
    [ | constructor | exact Hwf | exact Hb | exact Hhdr | exact Hfd
      | unfold rounds; simpl; lia ].
  unfold ruby_read_throw.
  cbn [session read_fd nonblock set_session set_read_fd log proxies
       server_info trace buf].
  destruct (Nat.leb_spec (Z.to_nat data_len) (length avail)); [ lia | ].
  rewrite firstn_all2 by lia.
  rewrite (skipn_all2 (n := Z.to_nat data_len)) by lia.
  cbn [fst snd session read_fd trace]. repeat apply conj; try reflexivity.
  apply events_since_app. simpl. rewrite <- app_assoc. reflexivity.
Qed.

End EndOfInput.

(** ** The events of the client *)

Lemma emits_ret P {A} (a : A) : emits P (ret a).
Proof. intros w. exists []. split; [ now rewrite app_nil_r | constructor ]. Qed.

Lemma emits_raise P {A} exc : emits P (@raise A exc).
Proof. intros w. exists []. split; [ now rewrite app_nil_r | constructor ]. Qed.

Lemma emits_lift P {A} (o : outcome A) : emits P (lift o).
Proof. intros w. exists []. split; [ now rewrite app_nil_r | constructor ]. Qed.

Lemma emits_gets P {A} (f : world -> A) : emits P (gets f).
Proof. intros w. exists []. split; [ now rewrite app_nil_r | constructor ]. Qed.

Lemma emits_log P ev : P ev -> emits P (modify (log ev)).
Proof. intros Hev w. exists [ev]. split; [ reflexivity | now constructor ]. Qed.

Lemma emits_bind P {A B} (m : M A) (k : A -> M B) :
  emits P m -> (forall a, emits P (k a)) -> emits P (bind m k).
Proof.
  intros Hm Hk w. unfold bind. destruct (Hm w) as (ev1 & Ht1 & Hp1).
  destruct (m w) as [[a | exc] w1]; simpl in *.
  - destruct (Hk a w1) as (ev2 & Ht2 & Hp2).
    exists (ev1 ++ ev2). split.
    + rewrite Ht2, Ht1, app_assoc. reflexivity.
    + apply Forall_app. split; assumption.
  - exists ev1. split; assumption.
Qed.

Lemma emits_loop P {A} (body : M (option A)) :
  emits P body ->
  forall fuel w r w',
    loop fuel body w = Some (r, w') ->
    exists evs, trace w' = trace w ++ evs /\ Forall P evs.
Proof.
  intros Hbody fuel. induction fuel as [ | fuel IH ]; intros w r w' Hloop.
  - discriminate Hloop.
  - simpl in Hloop. destruct (Hbody w) as (ev1 & Ht1 & Hp1).
    destruct (body w) as [[[a | ] | exc] w1]; simpl in *.
    + inversion Hloop; subst. exists ev1. split; assumption.
    + destruct (IH _ _ _ Hloop) as (ev2 & Ht2 & Hp2).
      exists (ev1 ++ ev2). split.
      * rewrite Ht2, Ht1, app_assoc. reflexivity.
      * apply Forall_app. split; assumption.
    + inversion Hloop; subst. exists ev1. split; assumption.
Qed.

Lemma emits_rounds P {A} (body : M (option A)) :
  emits P body ->
  emits P (fun w =>
             match loop (rounds w) body w with
             | None => out_of_fuel w
             | Some r => r
             end).
Proof.
  intros Hbody w.
  destruct (loop (rounds w) body w) as [[r w'] | ] eqn:Hloop.
  - simpl. eapply emits_loop; eassumption.
  - exists []. split; [ simpl; now rewrite app_nil_r | constructor ].
Qed.

Section Emits.
Context {rb : Ruby}.
Variable P : event -> Prop.
Hypothesis P_write : forall data, P (EvWrite data).
Hypothesis P_read : forall data, P (EvRead data).
Hypothesis P_yield : forall v, P (EvYield v).

Lemma emits_rb_raise {A} klass mesg : emits P (@rb_raise rb A klass mesg).
Proof. apply emits_raise. Qed.

Lemma emits_rb_ensure {A} (body : M A) ensure :
  emits P body -> emits P ensure -> emits P (rb_ensure body ensure).
Proof.
  intros Hb He w. unfold rb_ensure. destruct (Hb w) as (ev1 & Ht1 & Hp1).
  destruct (body w) as [r w1]. destruct (He w1) as (ev2 & Ht2 & Hp2).
  exists (ev1 ++ ev2).
  destruct (ensure w1) as [[v | exc] w2]; simpl in *;
    (split; [ rewrite Ht2, Ht1, app_assoc; reflexivity
            | apply Forall_app; split; assumption ]).
Qed.

Lemma emits_send_message_helper sp data len ty oid :
  emits P (send_message_helper sp data len ty oid).
Proof.
  intros w. eexists. split.
  - unfold send_message_helper, bind, gets, modify, ret, ruby_write_throw,
      bind, modify, ret, log. simpl. rewrite <- app_assoc. reflexivity.
  - repeat constructor; apply P_write.
Qed.

Lemma emits_send_message sp message : emits P (send_message sp message).
Proof.
  unfold send_message. apply emits_bind; [ apply emits_lift | intros data ].
  apply emits_send_message_helper.
Qed.

Lemma emits_get_message_round m : emits P (get_message_round m).
Proof.
  intros w. exists [EvRead (firstn ROMP_BUFFER_SIZE (read_fd (session w)))].
  split; [ | repeat constructor; apply P_read ].
  unfold get_message_round, ruby_read_throw.
  destruct (_ <=? _)%nat; [ | reflexivity ].
  destruct (get_header _) as [[[magic data_len] ty] oid].
  destruct (magic =? ROMP_MSG_START); reflexivity.
Qed.

Lemma emits_get_message sp : emits P (get_message sp).
Proof.
  intros w. unfold get_message.
  destruct (loop (rounds w) _ w) as [[[[data_len message] | exc] w1] | ] eqn:Hloop.
  - destruct (emits_loop P _ (emits_get_message_round _) _ _ _ _ Hloop)
      as (ev1 & Ht1 & Hp1).
    exists (ev1 ++ [EvRead (firstn (Z.to_nat data_len) (read_fd (session w1)))]).
    split; [ | apply Forall_app; split;
               [ assumption | repeat constructor; apply P_read ] ].
    unfold ruby_read_throw.
    destruct (_ <=? _)%nat; simpl; [ | rewrite Ht1, app_assoc; reflexivity ].
    destruct (negb _); simpl; [ | rewrite Ht1, app_assoc; reflexivity ].
    unfold bind, marshal_load, lift, ret.
    destruct (Marshal_load _); simpl; rewrite Ht1, app_assoc; reflexivity.
  - simpl. eapply emits_loop; [ apply emits_get_message_round | exact Hloop ].
  - exists []. split; [ simpl; now rewrite app_nil_r | constructor ].
Qed.

Lemma emits_NUM2INT v : emits P (NUM2INT v).
Proof.
  intros w. exists []. rewrite NUM2INT_world.
  split; [ now rewrite app_nil_r | constructor ].
Qed.

Lemma emits_reply_sync sp value : emits P (reply_sync sp value).
Proof.
  unfold reply_sync. destruct (value =? 0);
    [ apply emits_send_message | apply emits_ret ].
Qed.

Lemma emits_ruby_proxy_object_new self ruby_session ruby_mutex ruby_object_id :
  emits P (ruby_proxy_object_new self ruby_session ruby_mutex ruby_object_id).
Proof.
  intros w. exists []. split; [ | constructor ]. rewrite app_nil_r.
  unfold ruby_proxy_object_new, bind.
  pose proof (NUM2INT_world ruby_object_id w) as Hw.
  destruct (NUM2INT ruby_object_id w) as [[n | exc] w1]; simpl in Hw; subst w1;
    [ | reflexivity ].
  destruct (negb (is_Session ruby_session)); reflexivity.
Qed.

Lemma emits_msg_to_obj message session mutex :
  emits P (msg_to_obj message session mutex).
Proof.
  unfold msg_to_obj.
  destruct message; try apply emits_ret. apply emits_ruby_proxy_object_new.
Qed.

Lemma emits_rb_yield v : emits P (rb_yield v).
Proof.
  unfold rb_yield. destruct block as [blk | ]; [ | apply emits_rb_raise ].
  apply emits_bind; [ apply emits_log, P_yield | intros _; apply emits_lift ].
Qed.

Lemma emits_deref p : emits P (deref p).
Proof.
  intros w. exists []. split; [ | constructor ]. rewrite app_nil_r.
  unfold deref. destruct (proxies w !! p); reflexivity.
Qed.

Lemma emits_client_request_round obj : emits P (client_request_round obj).
Proof.
  unfold client_request_round.
  apply emits_bind; [ apply emits_get_message | intros msg ].
  cbv zeta.
  destruct (message_type msg =? ROMP_RETVAL).
  { apply emits_bind; [ apply emits_msg_to_obj | intros v; apply emits_ret ]. }
  destruct (message_type msg =? ROMP_YIELD).
  { apply emits_bind; [ apply emits_msg_to_obj | intros v ].
    apply emits_bind; [ apply emits_rb_yield | intros _; apply emits_ret ]. }
  destruct (message_type msg =? ROMP_EXCEPTION).
  { apply emits_bind; [ | intros mesg ].
    { unfold ruby_exc_message. destruct (message_obj msg);
        first [ apply emits_ret | apply emits_rb_raise ]. }
    apply emits_bind; [ | intros bt ].
    { unfold ruby_exc_backtrace. destruct (message_obj msg);
        first [ apply emits_ret | apply emits_rb_raise ]. }
    apply emits_bind; [ apply emits_ret | intros caller_v ].
    apply emits_bind; [ | intros bt' ].
    { unfold rb_ary_concat. destruct bt; try apply emits_rb_raise.
      destruct caller_v; first [ apply emits_ret | apply emits_rb_raise ]. }
    apply emits_bind; [ | intros _; apply emits_ret ].
    unfold ruby_raise. destruct (message_obj msg);
      first [ apply emits_raise | apply emits_rb_raise ]. }
  destruct (message_type msg =? ROMP_SYNC).
  { apply emits_bind; [ apply emits_NUM2INT | intros value ].
    apply emits_bind; [ apply emits_reply_sync | intros _; apply emits_ret ]. }
  apply emits_rb_raise.
Qed.

Lemma emits_client_request p : emits P (client_request p).
Proof.
  unfold client_request.
  apply emits_bind; [ apply emits_deref | intros obj ].
  apply emits_bind; [ apply emits_send_message | intros _ ].
  apply emits_rounds, emits_client_request_round.
Qed.

Lemma emits_client_oneway p : emits P (client_oneway p).
Proof.
  unfold client_oneway.
  apply emits_bind; [ apply emits_deref | intros obj ].
  apply emits_bind; [ apply emits_send_message | intros _; apply emits_ret ].
Qed.

Lemma emits_client_oneway_sync p : emits P (client_oneway_sync p).
Proof.
  unfold client_oneway_sync.
  apply emits_bind; [ apply emits_deref | intros obj ].
  apply emits_bind; [ apply emits_send_message | intros _ ].
  apply emits_bind; [ apply emits_get_message | intros _; apply emits_ret ].
Qed.

Lemma emits_client_sync p : emits P (client_sync p).
Proof.
  unfold client_sync, send_sync, wait_sync.
  apply emits_bind; [ apply emits_deref | intros obj ].
  apply emits_bind; [ apply emits_send_message | intros _ ].
  apply emits_bind; [ | intros _; apply emits_ret ].
  apply emits_bind; [ apply emits_get_message | intros msg ].
  destruct (_ && _); [ apply emits_rb_raise | apply emits_ret ].
Qed.

End Emits.

(** ** The operations of a proxy *)

Section ProxyCalls.
Context {rb : Ruby}.

(** Entering a method of the proxy: the struct is found, the message stored. *)
Lemma proxy_preamble (tail : nat -> Proxy_Object -> M VALUE) w p obj message :
  proxies w !! p = Some obj ->
  (proxy_object <- Data_Get_Proxy (Proxy_Data p) ;;
   store_message proxy_object message ;;
   obj <- deref proxy_object ;;
   tail proxy_object obj) w =
  tail p (set_po_message message obj)
    (set_proxies (<[p := set_po_message message obj]> (proxies w)) w).
Proof.
  intros Hp.
  unfold bind at 1. unfold Data_Get_Proxy. rewrite Hp.
  unfold bind at 1. unfold store_message, modify. rewrite Hp.
  unfold bind at 1. unfold deref. cbn [proxies set_proxies].
  rewrite list_lookup_insert_eq by (eapply lookup_lt_Some, Hp).
  reflexivity.
Qed.

Lemma deref_stored w p obj message :
  proxies w !! p = Some obj ->
  deref p (set_proxies (<[p := set_po_message message obj]> (proxies w)) w) =
  (Return (set_po_message message obj),
   set_proxies (<[p := set_po_message message obj]> (proxies w)) w).
Proof.
  intros Hp. unfold deref. cbn [proxies set_proxies].
  rewrite list_lookup_insert_eq by (eapply lookup_lt_Some, Hp).
  reflexivity.
Qed.

(** Under the lock: the lock is taken, the body runs, the lock is released,
    and the outcome is that of the body. *)
Lemma locked_run {A} (body : M A) mutex w :
  (ruby_lock mutex ;; rb_ensure body (ruby_unlock mutex)) w =
  (fst (body (log (EvLock mutex) w)),
   log (EvUnlock mutex) (snd (body (log (EvLock mutex) w)))).
Proof.
  unfold bind, ruby_lock, rb_ensure, ruby_unlock, bind, modify, ret.
  destruct (body _) as [r w1]. reflexivity.
Qed.

Lemma locked_run_ret {A} (body : M A) mutex w :
  (ruby_lock mutex ;; rb_ensure body (ruby_unlock mutex) ;; ret Qnil) w =
  (match fst (body (log (EvLock mutex) w)) with
   | Return _ => Return Qnil
   | Raise exc => Raise exc
   end,
   log (EvUnlock mutex) (snd (body (log (EvLock mutex) w)))).
Proof.
  unfold bind, ruby_lock, rb_ensure, ruby_unlock, bind, modify, ret.
  destruct (body _) as [[a | exc] w1]; reflexivity.
Qed.

(** A method of the proxy that stores nothing. *)
Lemma proxy_preamble_sync (tail : nat -> Proxy_Object -> M VALUE) w p obj :
  proxies w !! p = Some obj ->
  (proxy_object <- Data_Get_Proxy (Proxy_Data p) ;;
   obj <- deref proxy_object ;;
   tail proxy_object obj) w = tail p obj w.
Proof.
  intros Hp.
  unfold bind at 1. unfold Data_Get_Proxy. rewrite Hp.
  unfold bind at 1. unfold deref. rewrite Hp. reflexivity.
Qed.

Lemma bracket_trace {A} (body : M A) mutex w w0 :
  emits client_event body ->
  trace w = trace w0 ->
  exists evs,
    events_since w0 (log (EvUnlock mutex) (snd (body (log (EvLock mutex) w)))) =
    EvLock mutex :: evs ++ [EvUnlock mutex] /\
    Forall client_event evs.
Proof.
  intros Hbody Hw0.
  destruct (Hbody (log (EvLock mutex) w)) as (evs & Ht & Hp).
  exists evs. split; [ | exact Hp ].
  apply events_since_app.
  cbn [log trace]. rewrite Ht. cbn [log trace]. rewrite Hw0.
  rewrite <- !app_assoc. reflexivity.
Qed.

Lemma snd_then_ret {A B} (m : M A) (b : B) w :
  snd ((m ;; ret b) w) = snd (m w).
Proof. unfold bind, ret. destruct (m w) as [[a | exc] w1]; reflexivity. Qed.

Lemma client_event_write data : client_event (EvWrite data).
Proof. exact I. Qed.

Lemma client_event_read data : client_event (EvRead data).
Proof. exact I. Qed.

Lemma client_event_yield v : client_event (EvYield v).
Proof. exact I. Qed.

(** X7. The lock of a proxy.  A call, a oneway, a oneway_sync and a sync on
    a proxy each take the lock of the proxy once, first, and release it
    once, last, whether the operation returns or raises; in between the
    client only writes, reads and enters the caller's block. *)
Theorem lock_discipline (w : world) (p : nat) (obj : Proxy_Object)
    (message : VALUE) :
  proxies w !! p = Some obj ->
  let bracketed (w' : world) :=
    exists evs,
      events_since w w' = EvLock (po_mutex obj) :: evs ++ [EvUnlock (po_mutex obj)]
      /\ Forall client_event evs in
  bracketed (snd (ruby_proxy_object_method_missing (Proxy_Data p) message w)) /\
  bracketed (snd (ruby_proxy_object_oneway (Proxy_Data p) message w)) /\
  bracketed (snd (ruby_proxy_object_oneway_sync (Proxy_Data p) message w)) /\
  bracketed (snd (ruby_proxy_object_sync (Proxy_Data p) w)).
Proof.
  intros Hp bracketed. subst bracketed. cbv beta.
  assert (Hrequest := emits_client_request client_event client_event_write
                        client_event_read client_event_yield p).
  assert (Honeway := emits_client_oneway client_event client_event_write p).
  assert (Hsync1 := emits_client_oneway_sync client_event client_event_write
                      client_event_read p).
  assert (Hsync := emits_client_sync client_event client_event_write
                     client_event_read p).
  repeat apply conj.
  - unfold ruby_proxy_object_method_missing.
    rewrite (proxy_preamble
               (fun proxy_object obj =>
                  ruby_lock (po_mutex obj) ;;
                  rb_ensure (client_request proxy_object)
                    (ruby_unlock (po_mutex obj))) w p obj message Hp).
    rewrite locked_run. cbn [snd]. now apply bracket_trace.
  - unfold ruby_proxy_object_oneway.
    rewrite (proxy_preamble
               (fun proxy_object obj =>
                  ruby_lock (po_mutex obj) ;;
                  rb_ensure (client_oneway proxy_object)
                    (ruby_unlock (po_mutex obj)) ;;
                  ret Qnil) w p obj message Hp).
    rewrite locked_run_ret. cbn [snd]. now apply bracket_trace.
  - unfold ruby_proxy_object_oneway_sync.
    rewrite (proxy_preamble
               (fun proxy_object obj =>
                  ruby_lock (po_mutex obj) ;;
                  rb_ensure (client_oneway_sync proxy_object)
                    (ruby_unlock (po_mutex obj)) ;;
                  ret Qnil) w p obj message Hp).
    rewrite locked_run_ret. cbn [snd]. now apply bracket_trace.
  - unfold ruby_proxy_object_sync.
    rewrite (proxy_preamble_sync
               (fun proxy_object obj =>
                  ruby_lock (po_mutex obj) ;;
                  rb_ensure (client_sync proxy_object)
                    (ruby_unlock (po_mutex obj)) ;;
                  ret Qnil) w p obj Hp).
    rewrite locked_run_ret. cbn [snd]. now apply bracket_trace.
Qed.

End ProxyCalls.

(** ** A call and its reply *)

Ltac trace_eq :=
  cbn [log trace set_po_message po_mutex po_object_id frame_events map];
  rewrite <- ?app_assoc; cbn [app]; reflexivity.

Section Replies.
Context {rb : Ruby}.

(** [client_request] once the request is on its way. *)
Lemma client_request_run p obj w data :
  wf_session (session w) ->
  proxies w !! p = Some obj ->
  Marshal_dump (po_message obj) = Return data ->
  client_request p w =
  let w1 :=
    mkWorld
      (mkSession (read_fd (session w))
         (header_block (buf (session w)) request_kind (po_object_id obj)
            (Z.of_nat (length data)))
         (nonblock (session w)))
      (proxies w) (server_info w)
      (trace w ++
       frame_events (buf (session w)) request_kind (po_object_id obj) data) in
  match loop (rounds w1) (client_request_round obj) w1 with
  | None => out_of_fuel w1
  | Some r => r
  end.
Proof.
  intros Hwf Hp Hdump. unfold client_request.
  unfold bind at 1. unfold deref. rewrite Hp.
  unfold bind at 1.
  rewrite (send_message_spec _ w _ _ _ data Hwf Hdump).
  reflexivity.
Qed.

(** [ruby_proxy_object_new] on a session and an id in the range of [int]. *)
Lemma proxy_object_new_spec w self mutex n :
  - 2 ^ 31 <= n < 2 ^ 31 ->
  ruby_proxy_object_new self Session_Data mutex (Fixnum n) w =
  (Return (Proxy_Data (length (proxies w))),
   set_proxies
     (proxies w ++ [mkProxy the_session Session_Data (n mod 65536) Qfalse mutex])
     w).
Proof.
  intros Hn. unfold ruby_proxy_object_new, bind, NUM2INT.
  destruct (Z.leb_spec (- 2 ^ 31) n); [ | lia ].
  destruct (Z.ltb_spec n (2 ^ 31)); [ | lia ].
  reflexivity.
Qed.

Lemma msg_to_obj_plain v session mutex :
  (forall n, v <> Object_Reference n) -> msg_to_obj v session mutex = ret v.
Proof.
  intros Hv. destruct v; try reflexivity. now destruct (Hv object_id0).
Qed.

Lemma deref_bind {A} p obj w (k : Proxy_Object -> M A) :
  proxies w !! p = Some obj -> (o <- deref p ;; k o) w = k obj w.
Proof. intros Hp. unfold bind, deref. rewrite Hp. reflexivity. Qed.

Lemma entered_lookup w p obj message mutex :
  proxies w !! p = Some obj ->
  proxies
    (log (EvLock mutex)
       (set_proxies (<[p := set_po_message message obj]> (proxies w)) w)) !! p
  = Some (set_po_message message obj).
Proof.
  intros Hp. cbn [log proxies set_proxies].
  apply list_lookup_insert_eq. eapply lookup_lt_Some, Hp.
Qed.

(** The world of a call of [p] with [message], the lock taken. *)
Lemma entered_wf w p obj message :
  wf_session (session w) ->
  wf_session
    (session (log (EvLock (po_mutex obj))
                (set_proxies (<[p := set_po_message message obj]> (proxies w))
                   w))).
Proof. intros Hwf. exact Hwf. Qed.

(** A call on a proxy answered by a RETVAL frame. *)
Lemma call_returns_run (w : world) (p : nat) (obj : Proxy_Object)
    (message v : VALUE) (data b payload rest : list Z) (data_len tag : Z) :
  wf_session (session w) ->
  proxies w !! p = Some obj ->
  Marshal_dump message = Return data ->
  length b = ROMP_BUFFER_SIZE ->
  get_header b = (ROMP_MSG_START, data_len, ROMP_RETVAL, tag) ->
  length payload = Z.to_nat data_len ->
  read_fd (session w) = b ++ payload ++ rest ->
  Marshal_load payload = Return v ->
  (forall n, v <> Object_Reference n) ->
  let run := ruby_proxy_object_method_missing (Proxy_Data p) message w in
  fst run = Return v /\
  events_since w (snd run) =
  EvLock (po_mutex obj)
  :: frame_events (buf (session w)) request_kind (po_object_id obj) data
  ++ [EvRead b; EvRead payload; EvUnlock (po_mutex obj)] /\
  read_fd (session (snd run)) = rest.
Proof.
  intros Hwf Hp Hdump Hb Hhdr Hpay Hfd Hload Hv run. subst run.
  unfold ruby_proxy_object_method_missing.
  rewrite (proxy_preamble
             (fun proxy_object obj =>
                ruby_lock (po_mutex obj) ;;
                rb_ensure (client_request proxy_object)
                  (ruby_unlock (po_mutex obj))) w p obj message Hp).
  rewrite locked_run.
  rewrite (client_request_run p (set_po_message message obj) _ data);
    [ | exact Hwf
      | cbn [log proxies set_proxies];
        apply list_lookup_insert_eq; eapply lookup_lt_Some, Hp
      | exact Hdump ].
  cbv zeta. unfold rounds.
  cbn [loop session read_fd log set_proxies proxies server_info trace buf
       nonblock].
  rewrite (client_request_round_frame _ _ b payload rest data_len ROMP_RETVAL
             tag (mkMessage ROMP_RETVAL tag v));
    [ | apply header_block_length, Hwf | exact Hb | exact Hhdr | exact Hpay
      | exact Hfd | unfold received; rewrite Hload; reflexivity ].
  cbn [message_type message_obj].
  change (ROMP_RETVAL =? ROMP_RETVAL) with true. cbv iota zeta.
  rewrite msg_to_obj_plain by exact Hv.
  cbn [bind ret fst snd session read_fd]. unfold bind, ret.
  cbn [fst snd session read_fd log trace].
  repeat apply conj; try reflexivity.
  apply events_since_app.
  cbn [log trace set_po_message po_mutex po_object_id frame_events].
  rewrite <- !app_assoc. reflexivity.
Qed.

(** X9. A oneway does not wait.  It writes one ONEWAY frame for the object
    of the proxy under the lock and returns nil without reading: what is
    pending stays pending.  When the message cannot be dumped the exception
    of the dump is raised, nothing is written and the lock is released. *)
Theorem oneway_sends_and_returns (w : world) (p : nat) (obj : Proxy_Object)
    (message : VALUE) :
  wf_session (session w) ->
  proxies w !! p = Some obj ->
  let run := ruby_proxy_object_oneway (Proxy_Data p) message w in
  read_fd (session (snd run)) = read_fd (session w) /\
  match Marshal_dump message with
  | Return data =>
    fst run = Return Qnil /\
    events_since w (snd run) =
    EvLock (po_mutex obj)
    :: frame_events (buf (session w)) ROMP_ONEWAY (po_object_id obj) data
    ++ [EvUnlock (po_mutex obj)]
  | Raise exc =>
    fst run = Raise exc /\
    events_since w (snd run) = [EvLock (po_mutex obj); EvUnlock (po_mutex obj)]
  end.
Proof.
  intros Hwf Hp run. subst run.
  unfold ruby_proxy_object_oneway.
  rewrite (proxy_preamble
             (fun proxy_object obj =>
                ruby_lock (po_mutex obj) ;;
                rb_ensure (client_oneway proxy_object)
                  (ruby_unlock (po_mutex obj)) ;;
                ret Qnil) w p obj message Hp).
  rewrite locked_run_ret.
  unfold client_oneway.
  rewrite (deref_bind p (set_po_message message obj))
    by (apply entered_lookup, Hp).
  unfold bind.
  destruct (Marshal_dump message) as [data | exc] eqn:Hdump.
  - rewrite (send_message_spec _ _ _ _ _ data); [ | exact Hwf | exact Hdump ].
    cbn [fst snd session read_fd log set_proxies proxies server_info trace
         buf nonblock ret].
    repeat apply conj; try reflexivity.
    apply events_since_app. trace_eq.
  - unfold send_message, bind, marshal_dump, lift.
    cbn [message_obj set_po_message po_message]. rewrite Hdump.
    cbn [fst snd session read_fd log set_proxies proxies server_info trace].
    repeat apply conj; try reflexivity.
    apply events_since_app. trace_eq.
Qed.

(** X10. A oneway_sync takes any frame for its acknowledgement.  After its
    ONEWAY_SYNC frame it reads one frame and returns nil whatever the frame
    is: the kind, the tag and the value of the reply are not looked at. *)
Theorem oneway_sync_takes_any_reply (w : world) (p : nat) (obj : Proxy_Object)
    (message : VALUE) (data b payload rest : list Z) (data_len ty tag : Z)
    (msg : ROMP_Message) :
  wf_session (session w) ->
  proxies w !! p = Some obj ->
  Marshal_dump message = Return data ->
  length b = ROMP_BUFFER_SIZE ->
  get_header b = (ROMP_MSG_START, data_len, ty, tag) ->
  length payload = Z.to_nat data_len ->
  read_fd (session w) = b ++ payload ++ rest ->
  received ty tag payload = Return msg ->
  let run := ruby_proxy_object_oneway_sync (Proxy_Data p) message w in
  fst run = Return Qnil /\
  events_since w (snd run) =
  EvLock (po_mutex obj)
  :: frame_events (buf (session w)) ROMP_ONEWAY_SYNC (po_object_id obj) data
  ++ [EvRead b; EvRead payload; EvUnlock (po_mutex obj)] /\
  read_fd (session (snd run)) = rest.
Proof.
  intros Hwf Hp Hdump Hb Hhdr Hpay Hfd Hrecv run. subst run.
  unfold ruby_proxy_object_oneway_sync.
  rewrite (proxy_preamble
             (fun proxy_object obj =>
                ruby_lock (po_mutex obj) ;;
                rb_ensure (client_oneway_sync proxy_object)
                  (ruby_unlock (po_mutex obj)) ;;
                ret Qnil) w p obj message Hp).
  rewrite locked_run_ret.
  unfold client_oneway_sync.
  rewrite (deref_bind p (set_po_message message obj))
    by (apply entered_lookup, Hp).
  unfold bind.
  rewrite (send_message_spec _ _ _ _ _ data); [ | exact Hwf | exact Hdump ].
  destruct (po_session (set_po_message message obj)).
  rewrite (get_message_frame [] _ b payload rest data_len ty tag);
    [ | constructor | apply header_block_length, Hwf | exact Hb | exact Hhdr
      | exact Hpay | exact Hfd ].
  rewrite Hrecv.
  cbn [fst snd session read_fd log set_proxies proxies server_info trace
       buf nonblock ret].
  repeat apply conj; try reflexivity.
  apply events_since_app. trace_eq.
Qed.

(** X11. A reply of a kind the response loop does not know.  A frame that
    is not a RETVAL, a YIELD, an EXCEPTION or a SYNC ends the call with the
    [RuntimeError] "Invalid msg type received"; nothing is written. *)
Theorem unexpected_reply_kind (obj : Proxy_Object) (w : world)
    (b payload rest : list Z) (data_len ty tag : Z) (msg : ROMP_Message)
    (fuel : nat) :
  wf_session (session w) ->
  length b = ROMP_BUFFER_SIZE ->
  get_header b = (ROMP_MSG_START, data_len, ty, tag) ->
  length payload = Z.to_nat data_len ->
  read_fd (session w) = b ++ payload ++ rest ->
  received ty tag payload = Return msg ->
  ty <> ROMP_RETVAL -> ty <> ROMP_YIELD ->
  ty <> ROMP_EXCEPTION -> ty <> ROMP_SYNC ->
  exists w',
    loop (S fuel) (client_request_round obj) w =
    Some (Raise (Exception "RuntimeError" (RString "Invalid msg type received")
                   (RArray caller)), w') /\
    events_since w w' = [EvRead b; EvRead payload].
Proof.
  intros Hwf Hb Hhdr Hpay Hfd Hrecv H1 H2 H3 H4.
  eexists. split.
  - cbn [loop].
    rewrite (client_request_round_frame obj w b payload rest data_len ty tag msg)
      by assumption.
    destruct (received_fields _ _ _ _ Hrecv) as [-> _]. cbv zeta.
    destruct (Z.eqb_spec ty ROMP_RETVAL); [ contradiction | ].
    destruct (Z.eqb_spec ty ROMP_YIELD); [ contradiction | ].
    destruct (Z.eqb_spec ty ROMP_EXCEPTION); [ contradiction | ].
    destruct (Z.eqb_spec ty ROMP_SYNC); [ contradiction | ].
    reflexivity.
  - apply events_since_app. reflexivity.
Qed.

(** X12. An object reference comes back as a proxy.  When a RETVAL frame
    loads to an object reference for an id in the range of [int], the call
    of a proxy on a session returns a new proxy, on the same session and
    with the same lock, for that id modulo 65536; the proxies there were
    stay as they are. *)
Theorem reference_becomes_proxy (obj : Proxy_Object) (w : world)
    (b payload rest : list Z) (data_len tag n : Z) (fuel : nat) :
  wf_session (session w) ->
  length b = ROMP_BUFFER_SIZE ->
  get_header b = (ROMP_MSG_START, data_len, ROMP_RETVAL, tag) ->
  length payload = Z.to_nat data_len ->
  read_fd (session w) = b ++ payload ++ rest ->
  Marshal_load payload = Return (Object_Reference n) ->
  po_ruby_session obj = Session_Data ->
  - 2 ^ 31 <= n < 2 ^ 31 ->
  exists w',
    loop (S fuel) (client_request_round obj) w =
    Some (Return (Proxy_Data (length (proxies w))), w') /\
    proxies w' =
    proxies w
    ++ [mkProxy the_session Session_Data (n mod 65536) Qfalse (po_mutex obj)].
Proof.
  intros Hwf Hb Hhdr Hpay Hfd Hload Hsess Hn.
  eexists. split.
  - cbn [loop].
    rewrite (client_request_round_frame obj w b payload rest data_len
               ROMP_RETVAL tag (mkMessage ROMP_RETVAL tag (Object_Reference n)));
      try assumption; [ | unfold received; rewrite Hload; reflexivity ].
    cbn [message_type message_obj].
    change (ROMP_RETVAL =? ROMP_RETVAL) with true. cbv iota zeta.
    unfold msg_to_obj. unfold bind at 1.
    rewrite Hsess.
    rewrite proxy_object_new_spec by exact Hn.
    reflexivity.
  - reflexivity.
Qed.

(** X13. A proxy is not wrapped again.  What [msg_to_obj] returns is
    returned as it is by [msg_to_obj]: a value that is not an object
    reference is itself, and the proxy made for a reference is not a
    reference. *)
Theorem msg_to_obj_idempotent (v session mutex v' : VALUE) (w w' : world) :
  msg_to_obj v session mutex w = (Return v', w') ->
  msg_to_obj v' session mutex w' = (Return v', w').
Proof.
  intros Hrun.
  destruct v; try (inversion Hrun; subst; reflexivity).
  unfold msg_to_obj, ruby_proxy_object_new, bind in Hrun.
  destruct (NUM2INT (Fixnum object_id0) w) as [[n | exc] w1];
    [ | discriminate Hrun ].
  destruct (negb (is_Session session)); [ discriminate Hrun | ].
  inversion Hrun; subst. reflexivity.
Qed.

(** A round of the response loop on a YIELD frame, with a block that
    returns. *)
Lemma client_request_round_yield obj blk w b payload v rest r :
  block = Some blk ->
  wf_session (session w) ->
  reply_frame ROMP_YIELD (b, payload, v) ->
  read_fd (session w) = b ++ payload ++ rest ->
  blk v = Return r ->
  client_request_round obj w =
  (Return None,
   mkWorld (mkSession rest b (nonblock (session w)))
     (proxies w) (server_info w)
     (trace w ++ [EvRead b; EvRead payload; EvYield v])).
Proof.
  intros Hblock Hwf (Hb & (data_len & tag & Hhdr & Hpay) & Hload & Hv) Hfd Hr.
  rewrite (client_request_round_frame obj w b payload rest data_len ROMP_YIELD
             tag (mkMessage ROMP_YIELD tag v));
    try assumption; [ | unfold received; rewrite Hload; reflexivity ].
  cbn [message_type message_obj].
  change (ROMP_YIELD =? ROMP_RETVAL) with false.
  change (ROMP_YIELD =? ROMP_YIELD) with true. cbv iota zeta.
  rewrite msg_to_obj_plain by exact Hv.
  unfold rb_yield. rewrite Hblock.
  unfold bind, ret, modify, lift. rewrite Hr.
  unfold log. cbn [session proxies server_info trace].
  rewrite <- app_assoc. reflexivity.
Qed.

Lemma yields_then_return obj blk :
  block = Some blk ->
  forall ys fuel w fr rest,
    Forall (reply_frame ROMP_YIELD) ys ->
    Forall (fun f => exists r, blk (reply_value f) = Return r) ys ->
    reply_frame ROMP_RETVAL fr ->
    wf_session (session w) ->
    read_fd (session w) = concat (map reply_bytes ys) ++ reply_bytes fr ++ rest ->
    (length ys < fuel)%nat ->
    exists w',
      loop fuel (client_request_round obj) w = Some (Return (reply_value fr), w')
      /\ trace w' =
         trace w
         ++ flat_map (fun f => reply_reads f ++ [EvYield (reply_value f)]) ys
         ++ reply_reads fr
      /\ read_fd (session w') = rest.
Proof.
  intros Hblock ys.
  induction ys as [ | [[b payload] v] ys IH ];
    intros fuel w fr rest Hys Hblk Hfr Hwf Hfd Hfuel.
  - destruct fuel as [ | fuel ]; [ simpl in Hfuel; lia | ].
    destruct fr as [[b payload] v].
    destruct Hfr as (Hb & (data_len & tag & Hhdr & Hpay) & Hload & Hv).
    simpl in Hfd. rewrite <- app_assoc in Hfd.
    eexists. cbn [loop].
    rewrite (client_request_round_frame obj w b payload rest data_len
               ROMP_RETVAL tag (mkMessage ROMP_RETVAL tag v));
      try assumption; [ | unfold received; rewrite Hload; reflexivity ].
    cbn [message_type message_obj].
    change (ROMP_RETVAL =? ROMP_RETVAL) with true. cbv iota zeta.
    rewrite msg_to_obj_plain by exact Hv.
    unfold bind, ret. repeat apply conj; reflexivity.
  - destruct fuel as [ | fuel ]; [ simpl in Hfuel; lia | ].
    inversion Hys as [ | ? ? Hy Hys' ]; subst.
    inversion Hblk as [ | ? ? [r Hr] Hblk' ]; subst.
    simpl in Hfd. rewrite <- !app_assoc in Hfd. simpl in Hr.
    cbn [loop].
    rewrite (client_request_round_yield obj blk w b payload v _ r Hblock Hwf Hy
               Hfd Hr).
    destruct (IH fuel
                (mkWorld
                   (mkSession (concat (map reply_bytes ys) ++ reply_bytes fr
                               ++ rest) b (nonblock (session w)))
                   (proxies w) (server_info w)
                   (trace w ++ [EvRead b; EvRead payload; EvYield v]))
                fr rest Hys' Hblk' Hfr)
      as (w' & Hloop & Htrace & Hrest).
    + apply Hy.
    + reflexivity.
    + simpl in Hfuel. lia.
    + exists w'. repeat apply conj; try assumption.
      rewrite Htrace. cbn [trace flat_map reply_reads reply_value].
      rewrite <- !app_assoc. reflexivity.
Qed.

(** X14. Yields in order.  With a block given, YIELD frames followed by a
    RETVAL frame make the response loop enter the block once for each YIELD
    frame, with its value and in the order of the frames, each before the
    next frame is read, and then return the value of the RETVAL frame;
    nothing is written. *)
Theorem yields_in_order (obj : Proxy_Object) (blk : VALUE -> outcome VALUE)
    (ys : list (list Z * list Z * VALUE)) (fr : list Z * list Z * VALUE)
    (rest : list Z) (w : world) (fuel : nat) :
  block = Some blk ->
  Forall (reply_frame ROMP_YIELD) ys ->
  Forall (fun f => exists r, blk (reply_value f) = Return r) ys ->
  reply_frame ROMP_RETVAL fr ->
  wf_session (session w) ->
  read_fd (session w) = concat (map reply_bytes ys) ++ reply_bytes fr ++ rest ->
  (length ys < fuel)%nat ->
  exists w',
    loop fuel (client_request_round obj) w = Some (Return (reply_value fr), w')
    /\ events_since w w' =
       flat_map (fun f => reply_reads f ++ [EvYield (reply_value f)]) ys
       ++ reply_reads fr
    /\ read_fd (session w') = rest.
Proof.
  intros Hblock Hys Hblk Hfr Hwf Hfd Hfuel.
  destruct (yields_then_return obj blk Hblock ys fuel w fr rest Hys Hblk Hfr
              Hwf Hfd Hfuel) as (w' & Hloop & Htrace & Hrest).
  exists w'. repeat apply conj; try assumption.
  apply events_since_app, Htrace.
Qed.

(** X8. A call that is answered.  A call on a proxy whose message can be
    dumped, answered by a RETVAL frame whose payload loads to a value that
    is not an object reference, returns that value: under the lock the
    client writes one request frame, of kind REQUEST or, with a block,
    REQUEST_BLOCK, for the object of the proxy, and reads the one reply. *)
Theorem call_returns (w : world) (p : nat) (obj : Proxy_Object)
    (message v : VALUE) (data b payload rest : list Z) (data_len tag : Z) :
  wf_session (session w) ->
  proxies w !! p = Some obj ->
  Marshal_dump message = Return data ->
  length b = ROMP_BUFFER_SIZE ->
  get_header b = (ROMP_MSG_START, data_len, ROMP_RETVAL, tag) ->
  length payload = Z.to_nat data_len ->
  read_fd (session w) = b ++ payload ++ rest ->
  Marshal_load payload = Return v ->
  (forall n, v <> Object_Reference n) ->
  let run := ruby_proxy_object_method_missing (Proxy_Data p) message w in
  fst run = Return v /\
  events_since w (snd run) =
  EvLock (po_mutex obj)
  :: frame_events (buf (session w)) request_kind (po_object_id obj) data
  ++ [EvRead b; EvRead payload; EvUnlock (po_mutex obj)] /\
  read_fd (session (snd run)) = rest.
Proof. apply call_returns_run. Qed.

End Replies.

(** ** The replies of the server *)

Section ServerReplies.
Context {rb : Ruby}.

Lemma header_block_skipn mem mem' kind oid len :
  skipn 8 mem = skipn 8 mem' ->
  header_block mem kind oid len = header_block mem' kind oid len.
Proof. intros Heq. unfold header_block. now rewrite Heq. Qed.

(** [server_exception] when the backtrace can be cut and the exception
    dumped: the exception is printed if debug is on, then sent. *)
Lemma server_exception_spec w klass mesg bt bt' data :
  wf_session (session w) ->
  slice_bang bt (Z.of_nat (length bt) - Z.of_nat (length caller) - 1) (-1)
  = Return bt' ->
  Marshal_dump (Exception klass mesg (RArray bt')) = Return data ->
  let exc' := Exception klass mesg (RArray bt') in
  server_exception (Exception klass mesg (RArray bt)) w =
  (Return Qnil,
   mkWorld
     (mkSession (read_fd (session w))
        (header_block (buf (session w)) ROMP_EXCEPTION 0
           (Z.of_nat (length data)))
        (nonblock (session w)))
     (proxies w)
     (set_message (mkMessage ROMP_EXCEPTION 0 exc') (server_info w))
     (trace w
      ++ (if si_debug (server_info w) then [EvPrint exc'] else [])
      ++ frame_events (buf (session w)) ROMP_EXCEPTION 0 data)).
Proof.
  intros Hwf Hslice Hdump exc'.
  unfold server_exception, bind, ruby_caller, ret, ruby_exc_backtrace, modify,
    ruby_slice_bang, bind, lift, ret, gets.
  cbn [RARRAY_len]. rewrite Hslice.
  cbn [server_info set_server_info set_message si_debug si_message si_session].
  fold exc'.
  destruct (si_debug (server_info w)).
  - unfold ruby_print_exception, modify.
    rewrite (send_message_spec _ _ _ _ _ data); [ | exact Hwf | exact Hdump ].
    unfold log.
    cbn [session proxies server_info trace read_fd buf nonblock set_server_info
         set_message si_session si_obj si_debug].
    rewrite <- app_assoc. reflexivity.
  - rewrite (send_message_spec _ _ _ _ _ data); [ | exact Hwf | exact Hdump ].
    cbn [session proxies server_info trace read_fd buf nonblock set_server_info
         set_message si_session si_obj si_debug].
    reflexivity.
Qed.

(** A REQUEST whose method returns a value that can be dumped. *)
Lemma request_answered_run (w : world) (target v : VALUE) (data : list Z) :
  wf_session (session w) ->
  message_type (si_message (server_info w)) = ROMP_REQUEST ->
  get_object (si_obj (server_info w)) (object_id (si_message (server_info w)))
  = Return target ->
  send target (message_obj (si_message (server_info w))) = Return v ->
  Marshal_dump v = Return data ->
  let run := rb_rescue2 server_reply server_exception w in
  fst run = Return Qnil /\
  events_since w (snd run) =
  EvSend target (message_obj (si_message (server_info w)))
  :: frame_events (buf (session w)) ROMP_RETVAL 0 data /\
  buf (session (snd run)) =
  header_block (buf (session w)) ROMP_RETVAL 0 (Z.of_nat (length data)).
Proof.
  intros Hwf Hty Hget Hsend Hdump run. subst run.
  unfold rb_rescue2, server_reply, bind, gets, ruby_get_object, lift, modify.
  rewrite Hget. cbn [server_info set_server_info set_obj si_message si_obj].
  rewrite Hty.
  change (ROMP_REQUEST =? ROMP_ONEWAY_SYNC) with false.
  change (ROMP_REQUEST =? ROMP_ONEWAY) with false.
  change (ROMP_REQUEST =? ROMP_REQUEST) with true. cbv iota.
  unfold ruby_send, bind, modify, lift. rewrite Hsend.
  unfold server_send_retval, bind, modify, gets, log.
  cbn [server_info set_server_info set_message si_message si_session session
       proxies trace].
  rewrite (send_message_spec _ _ _ _ _ data); [ | exact Hwf | exact Hdump ].
  cbn [fst snd ret session buf proxies server_info trace read_fd nonblock].
  repeat apply conj; try reflexivity.
  apply events_since_app.
  cbn [snd trace session proxies server_info set_server_info].
  rewrite <- app_assoc. reflexivity.
Qed.

(** X16. A REQUEST whose method raises.  The exception is rescued: its
    backtrace is cut by [slice!] from the index that leaves out the frames
    of the server and one more, it is printed if and only if debug is on,
    and exactly one frame is written, an EXCEPTION tagged 0 with the dump of
    the exception as cut; the server goes on. *)
Theorem request_exception (w : world) (target : VALUE) (klass : string)
    (mesg : VALUE) (bt bt' : list VALUE) (data : list Z) :
  wf_session (session w) ->
  message_type (si_message (server_info w)) = ROMP_REQUEST ->
  get_object (si_obj (server_info w)) (object_id (si_message (server_info w)))
  = Return target ->
  send target (message_obj (si_message (server_info w)))
  = Raise (Exception klass mesg (RArray bt)) ->
  slice_bang bt (Z.of_nat (length bt) - Z.of_nat (length caller) - 1) (-1)
  = Return bt' ->
  Marshal_dump (Exception klass mesg (RArray bt')) = Return data ->
  let exc' := Exception klass mesg (RArray bt') in
  let run := rb_rescue2 server_reply server_exception w in
  fst run = Return Qnil /\
  events_since w (snd run) =
  EvSend target (message_obj (si_message (server_info w)))
  :: (if si_debug (server_info w) then [EvPrint exc'] else [])
  ++ frame_events (buf (session w)) ROMP_EXCEPTION 0 data.
Proof.
  intros Hwf Hty Hget Hsend Hslice Hdump exc' run. subst run.
  unfold rb_rescue2, server_reply, bind, gets, ruby_get_object, lift, modify.
  rewrite Hget. cbn [server_info set_server_info set_obj si_message si_obj].
  rewrite Hty.
  change (ROMP_REQUEST =? ROMP_ONEWAY_SYNC) with false.
  change (ROMP_REQUEST =? ROMP_ONEWAY) with false.
  change (ROMP_REQUEST =? ROMP_REQUEST) with true. cbv iota.
  unfold ruby_send, bind, modify, lift. rewrite Hsend.
  rewrite (server_exception_spec _ klass mesg bt bt' data);
    [ | exact Hwf | exact Hslice | exact Hdump ].
  cbn [fst snd]. split; [ reflexivity | ].
  apply events_since_app.
  unfold log.
  cbn [trace session proxies server_info set_server_info set_obj si_debug buf].
  rewrite <- app_assoc. reflexivity.
Qed.

(** X17. A result that cannot be dumped.  When the method of a REQUEST
    returns a value whose dump raises, no RETVAL frame is begun: the
    exception of the dump is rescued like one of the method and goes to the
    client in an EXCEPTION frame. *)
Theorem request_result_not_dumped (w : world) (target v : VALUE)
    (klass : string) (mesg : VALUE) (bt bt' : list VALUE) (data : list Z) :
  wf_session (session w) ->
  message_type (si_message (server_info w)) = ROMP_REQUEST ->
  get_object (si_obj (server_info w)) (object_id (si_message (server_info w)))
  = Return target ->
  send target (message_obj (si_message (server_info w))) = Return v ->
  Marshal_dump v = Raise (Exception klass mesg (RArray bt)) ->
  slice_bang bt (Z.of_nat (length bt) - Z.of_nat (length caller) - 1) (-1)
  = Return bt' ->
  Marshal_dump (Exception klass mesg (RArray bt')) = Return data ->
  let exc' := Exception klass mesg (RArray bt') in
  let run := rb_rescue2 server_reply server_exception w in
  fst run = Return Qnil /\
  events_since w (snd run) =
  EvSend target (message_obj (si_message (server_info w)))
  :: (if si_debug (server_info w) then [EvPrint exc'] else [])
  ++ frame_events (buf (session w)) ROMP_EXCEPTION 0 data.
Proof.
  intros Hwf Hty Hget Hsend Hfail Hslice Hdump exc' run. subst run.
  unfold rb_rescue2, server_reply, bind, gets, ruby_get_object, lift, modify.
  rewrite Hget. cbn [server_info set_server_info set_obj si_message si_obj].
  rewrite Hty.
  change (ROMP_REQUEST =? ROMP_ONEWAY_SYNC) with false.
  change (ROMP_REQUEST =? ROMP_ONEWAY) with false.
  change (ROMP_REQUEST =? ROMP_REQUEST) with true. cbv iota.
  unfold ruby_send, bind, modify, lift. rewrite Hsend.
  unfold server_send_retval, bind, modify, gets, send_message, bind,
    marshal_dump, lift.
  cbn [server_info set_server_info set_message si_message message_obj].
  rewrite Hfail.
  rewrite (server_exception_spec _ klass mesg bt bt' data);
    [ | exact Hwf | exact Hslice | exact Hdump ].
  cbn [fst snd]. split; [ reflexivity | ].
  apply events_since_app.
  unfold log.
  cbn [trace session proxies server_info set_server_info set_obj set_message
       si_debug buf].
  rewrite <- app_assoc. reflexivity.
Qed.

(** X18. A request of a kind the server does not know.  A message that is
    not a REQUEST, a REQUEST_BLOCK, a ONEWAY, a ONEWAY_SYNC or a SYNC calls
    no method and is answered by one EXCEPTION frame.  The registry is asked
    for the tag of the message before the kind is looked at: when it
    answers, the [RuntimeError] "Bad session request" is raised; when it
    raises, its exception comes first and is the one reported.  Either way
    the exception is rescued, its backtrace cut, printed if debug is on and
    sent to the client, and the server goes on. *)
Theorem bad_request_reported (w : world) (klass : string) (mesg : VALUE)
    (bt bt' : list VALUE) (data : list Z) :
  wf_session (session w) ->
  let ty := message_type (si_message (server_info w)) in
  ty <> ROMP_ONEWAY_SYNC -> ty <> ROMP_ONEWAY -> ty <> ROMP_REQUEST ->
  ty <> ROMP_REQUEST_BLOCK -> ty <> ROMP_SYNC ->
  bad_request
    (get_object (si_obj (server_info w))
       (object_id (si_message (server_info w))))
  = Exception klass mesg (RArray bt) ->
  slice_bang bt (Z.of_nat (length bt) - Z.of_nat (length caller) - 1) (-1)
  = Return bt' ->
  let exc' := Exception klass mesg (RArray bt') in
  Marshal_dump exc' = Return data ->
  let run := rb_rescue2 server_reply server_exception w in
  let evs := events_since w (snd run) in
  fst run = Return Qnil /\
  evs =
  (if si_debug (server_info w) then [EvPrint exc'] else [])
  ++ frame_events (buf (session w)) ROMP_EXCEPTION 0 data /\
  List.filter is_send evs = [].
Proof.
  intros Hwf ty H1 H2 H3 H4 H5 Hbad Hslice exc' Hdump run evs.
  assert (Hrun : run =
                 server_exception (Exception klass mesg (RArray bt))
                   (match get_object (si_obj (server_info w))
                            (object_id (si_message (server_info w))) with
                    | Return target =>
                      set_server_info (set_obj target (server_info w)) w
                    | Raise _ => w
                    end)).
  { subst run ty.
    unfold rb_rescue2, server_reply, bind, gets, ruby_get_object, lift, modify.
    destruct (get_object (si_obj (server_info w))
                (object_id (si_message (server_info w))))
      as [target | exc]; cbn [bad_request] in Hbad.
    - cbn [server_info set_server_info set_obj si_message si_obj].
      destruct (Z.eqb_spec (message_type (si_message (server_info w)))
                  ROMP_ONEWAY_SYNC); [ contradiction | ].
      destruct (Z.eqb_spec (message_type (si_message (server_info w)))
                  ROMP_ONEWAY); [ contradiction | ].
      destruct (Z.eqb_spec (message_type (si_message (server_info w)))
                  ROMP_REQUEST); [ contradiction | ].
      destruct (Z.eqb_spec (message_type (si_message (server_info w)))
                  ROMP_REQUEST_BLOCK); [ contradiction | ].
      destruct (Z.eqb_spec (message_type (si_message (server_info w)))
                  ROMP_SYNC); [ contradiction | ].
      unfold rb_raise, raise. now rewrite Hbad.
    - now rewrite Hbad. }
  assert (Hevs : evs =
                 (if si_debug (server_info w) then [EvPrint exc'] else [])
                 ++ frame_events (buf (session w)) ROMP_EXCEPTION 0 data).
  { subst evs. rewrite Hrun.
    destruct (get_object (si_obj (server_info w))
                (object_id (si_message (server_info w)))) as [target | exc];
      (rewrite (server_exception_spec _ klass mesg bt bt' data);
       [ | exact Hwf | exact Hslice | exact Hdump ]);
      apply events_since_app; reflexivity. }
  repeat apply conj.
  - rewrite Hrun.
    destruct (get_object (si_obj (server_info w))
                (object_id (si_message (server_info w)))) as [target | exc];
      (rewrite (server_exception_spec _ klass mesg bt bt' data);
       [ | exact Hwf | exact Hslice | exact Hdump ]);
      reflexivity.
  - exact Hevs.
  - rewrite Hevs. destruct (si_debug (server_info w)); reflexivity.
Qed.

Lemma frame_events_skipn mem mem' kind oid data :
  skipn 8 mem = skipn 8 mem' ->
  frame_events mem kind oid data = frame_events mem' kind oid data.
Proof.
  intros Heq. unfold frame_events.
  now rewrite (header_block_skipn mem mem' _ _ _ Heq).
Qed.

Lemma flat_map_frame_events_skipn mem mem' kind oid ds :
  skipn 8 mem = skipn 8 mem' ->
  flat_map (frame_events mem kind oid) ds =
  flat_map (frame_events mem' kind oid) ds.
Proof.
  intros Heq. induction ds as [ | d ds IH ]; simpl; [ reflexivity | ].
  now rewrite IH, (header_block_skipn mem mem' _ _ _ Heq).
Qed.

Lemma server_send_yield_spec w y d :
  wf_session (session w) ->
  Marshal_dump y = Return d ->
  exists w',
    server_send_yield y w = (Return Qnil, w') /\
    trace w' = trace w ++ frame_events (buf (session w)) ROMP_YIELD 0 d /\
    wf_session (session w') /\
    skipn 8 (buf (session w')) = skipn 8 (buf (session w)).
Proof.
  intros Hwf Hdump. eexists. split.
  - unfold server_send_yield, bind, modify, gets.
    cbn [server_info set_server_info set_message si_message si_session].
    rewrite (send_message_spec _ _ _ _ _ d); [ | exact Hwf | exact Hdump ].
    reflexivity.
  - cbn [trace session buf set_server_info]. repeat apply conj.
    + reflexivity.
    + apply header_block_length, Hwf.
    + reflexivity.
Qed.

Lemma yield_each_spec ys : forall ds w,
  Forall2 (fun y d => Marshal_dump y = Return d) ys ds ->
  wf_session (session w) ->
  exists w',
    yield_each ys server_send_yield w = (Return tt, w') /\
    trace w' =
    trace w ++ flat_map (frame_events (buf (session w)) ROMP_YIELD 0) ds /\
    wf_session (session w') /\
    skipn 8 (buf (session w')) = skipn 8 (buf (session w)).
Proof.
  induction ys as [ | y ys IH ]; intros ds w Hds Hwf.
  - inversion Hds; subst. exists w. simpl.
    rewrite app_nil_r. repeat apply conj; auto.
  - inversion Hds as [ | ? d ? ds' Hd Hds' ]; subst.
    destruct (server_send_yield_spec w y d Hwf Hd) as (w1 & Hrun & Ht1 & Hwf1 & Hb1).
    destruct (IH ds' w1 Hds' Hwf1) as (w' & Hrest & Ht & Hwf' & Hb).
    exists w'. simpl. unfold bind. rewrite Hrun, Hrest.
    repeat apply conj.
    + reflexivity.
    + rewrite Ht, Ht1, <- app_assoc.
      now rewrite (flat_map_frame_events_skipn _ _ ROMP_YIELD 0 ds' Hb1).
    + exact Hwf'.
    + now rewrite Hb.
Qed.

(** X19. A REQUEST_BLOCK.  When the method under [rb_iterate] yields values
    and then returns, all of them values that can be dumped, the server
    calls the method once and writes one YIELD frame for each value
    yielded, in the order of the yields, and then one RETVAL frame; every
    frame is tagged 0. *)
Theorem request_block_frames (w : world) (target v : VALUE)
    (ys : list VALUE) (ds : list (list Z)) (dv : list Z) :
  wf_session (session w) ->
  message_type (si_message (server_info w)) = ROMP_REQUEST_BLOCK ->
  get_object (si_obj (server_info w)) (object_id (si_message (server_info w)))
  = Return target ->
  send_iterate target (message_obj (si_message (server_info w)))
  = (ys, Return v) ->
  Forall2 (fun y d => Marshal_dump y = Return d) ys ds ->
  Marshal_dump v = Return dv ->
  let run := rb_rescue2 server_reply server_exception w in
  fst run = Return Qnil /\
  events_since w (snd run) =
  EvSend target (message_obj (si_message (server_info w)))
  :: flat_map (frame_events (buf (session w)) ROMP_YIELD 0) ds
  ++ frame_events (buf (session w)) ROMP_RETVAL 0 dv.
Proof.
  intros Hwf Hty Hget Hiter Hds Hdump run.
  assert (Hrun : exists w',
             run = (Return Qnil, w') /\
             trace w' =
             trace w
             ++ EvSend target (message_obj (si_message (server_info w)))
             :: flat_map (frame_events (buf (session w)) ROMP_YIELD 0) ds
             ++ frame_events (buf (session w)) ROMP_RETVAL 0 dv).
  { subst run.
    unfold rb_rescue2, server_reply. unfold bind at 1 2 3 4.
    unfold gets, ruby_get_object, lift, modify.
    rewrite Hget. cbn [server_info set_server_info set_obj si_message si_obj].
    rewrite Hty.
    change (ROMP_REQUEST_BLOCK =? ROMP_ONEWAY_SYNC) with false.
    change (ROMP_REQUEST_BLOCK =? ROMP_ONEWAY) with false.
    change (ROMP_REQUEST_BLOCK =? ROMP_REQUEST) with false.
    change (ROMP_REQUEST_BLOCK =? ROMP_REQUEST_BLOCK) with true. cbv iota.
    unfold rb_iterate_server_funcall. unfold bind at 1 2 3 4 5.
    unfold gets, modify.
    cbn [server_info set_server_info set_obj si_message si_obj].
    rewrite Hiter. cbn [fst snd].
    destruct (yield_each_spec ys ds
                (log (EvSend target (message_obj (si_message (server_info w))))
                   (set_server_info (set_obj target (server_info w)) w))
                Hds Hwf) as (w' & Hrun & Ht & Hwf' & Hb).
    rewrite Hrun. unfold lift.
    unfold server_send_retval, bind, modify, gets.
    cbn [server_info set_server_info set_message si_message si_session].
    rewrite (send_message_spec _ _ _ _ _ dv); [ | exact Hwf' | exact Hdump ].
    eexists. split; [ reflexivity | ].
    cbn [trace session buf set_server_info]. rewrite Ht.
    unfold log. cbn [trace session buf set_server_info].
    rewrite (frame_events_skipn _ (buf (session w)) _ _ _ Hb).
    rewrite <- !app_assoc. reflexivity. }
  destruct Hrun as (w' & -> & Ht). cbn [fst snd].
  split; [ reflexivity | apply events_since_app, Ht ].
Qed.

Lemma bind_returns {A B} (m : M A) (k : A -> M B) w b :
  fst (bind m k w) = Return b -> exists a w1, fst (k a w1) = Return b.
Proof.
  unfold bind. destruct (m w) as [[a | exc] w1]; [ eauto | discriminate ].
Qed.

Lemma server_loop_round_goes_on resolve_server w a :
  fst (server_loop_round resolve_server w) <> Return (Some a).
Proof.
  unfold server_loop_round, session_finished. intros Hret.
  apply bind_returns in Hret. destruct Hret as (si & w1 & Hret).
  apply bind_returns in Hret. destruct Hret as (msg & w2 & Hret).
  apply bind_returns in Hret. destruct Hret as (? & w3 & Hret).
  apply bind_returns in Hret. destruct Hret as (? & w4 & Hret).
  apply bind_returns in Hret. destruct Hret as (? & w5 & Hret).
  discriminate Hret.
Qed.

Lemma loop_only_raises {A} (body : M (option A)) :
  (forall w a, fst (body w) <> Return (Some a)) ->
  forall fuel w r w', loop fuel body w = Some (r, w') -> exists exc, r = Raise exc.
Proof.
  intros Hbody fuel. induction fuel as [ | fuel IH ]; intros w r w' Hloop.
  - discriminate Hloop.
  - simpl in Hloop. specialize (Hbody w).
    destruct (body w) as [[[a | ] | exc] w1]; simpl in Hbody.
    + now destruct (Hbody a).
    + eapply IH, Hloop.
    + inversion Hloop; subst. eauto.
Qed.

(** [get_message] does not look at its pointer: the model has one session. *)
Lemma get_message_any_ptr sp sp' : get_message sp = get_message sp'.
Proof. reflexivity. Qed.

(** When [get_message] raises, the round of the server raises the same. *)
Lemma server_loop_round_raises resolve_server sp w exc w' :
  get_message sp w = (Raise exc, w') ->
  server_loop_round resolve_server w = (Raise exc, w').
Proof.
  intros Hget. unfold server_loop_round, session_finished, bind, gets.
  rewrite (get_message_any_ptr _ sp), Hget. reflexivity.
Qed.

(** The rounds that went on are rounds of the loop, and each took input. *)
Lemma served_loop resolve_server : forall n w w1,
  served n resolve_server w = Some w1 ->
  (n + length (read_fd (session w1)) <= length (read_fd (session w)))%nat /\
  forall fuel,
    loop (n + fuel) (server_loop_round resolve_server) w =
    loop fuel (server_loop_round resolve_server) w1.
Proof.
  induction n as [ | n IH ]; intros w w1 Hserved.
  - inversion Hserved; subst. split; [ simpl; lia | reflexivity ].
  - simpl in Hserved.
    pose proof (takes_server_loop_round resolve_server w) as Htakes.
    destruct (server_loop_round resolve_server w) as [[[a | ] | exc] w2] eqn:Hround;
      try discriminate Hserved.
    specialize (Htakes None eq_refl). simpl in Htakes.
    destruct (IH w2 w1 Hserved) as [Hlen Hloop].
    split; [ lia | ].
    intros fuel. simpl. rewrite Hround. apply Hloop.
Qed.

(** [server_loop] ends with the exception of [get_message] that follows
    rounds that went on. *)
Lemma server_loop_raises sp resolve_server dbg w n w1 exc w' :
  served n resolve_server (serving sp resolve_server dbg w) = Some w1 ->
  get_message sp w1 = (Raise exc, w') ->
  server_loop sp resolve_server dbg w = (Raise exc, w').
Proof.
  intros Hserved Hget. unfold server_loop. fold (serving sp resolve_server dbg w).
  destruct (served_loop resolve_server n _ w1 Hserved) as [Hlen Hloop].
  unfold rounds.
  replace (S (length (read_fd (session (serving sp resolve_server dbg w)))))
    with (n + S (length (read_fd (session (serving sp resolve_server dbg w)))
                 - n))%nat by lia.
  rewrite Hloop. simpl.
  now rewrite (server_loop_round_raises resolve_server sp w1 exc w' Hget).
Qed.

(** [get_message] on fewer bytes than a header block. *)
Lemma get_message_short sp w :
  (length (read_fd (session w)) < ROMP_BUFFER_SIZE)%nat ->
  exists w',
    get_message sp w =
    (Raise (Exception "IOError" (RString "disconnected") (RArray caller)), w')
    /\ read_fd (session w') = []
    /\ trace w' = trace w ++ [EvRead (read_fd (session w))].
Proof.
  intros Hlt. unfold get_message, rounds. simpl loop.
  rewrite get_message_round_short by exact Hlt.
  eexists. repeat apply conj; reflexivity.
Qed.

(** X20. [server_loop] has no normal exit.  [session_finished] never tells
    the end of the session, so the loop does not return: it is left by an
    exception alone.  When rounds of the loop have gone on to the next and
    [get_message] then raises, that exception is the outcome of
    [server_loop], in the world [get_message] left; so when the peer has
    closed the connection, fewer bytes than a header block being left, the
    server ends with the [IOError] "disconnected", having read what was
    left. *)
Theorem server_loop_leaves_by_exception (sp : session_ptr)
    (resolve_server : VALUE) (dbg : bool) (w : world) :
  (forall v w', server_loop sp resolve_server dbg w <> (Return v, w')) /\
  (forall n w1 exc w',
     served n resolve_server (serving sp resolve_server dbg w) = Some w1 ->
     get_message sp w1 = (Raise exc, w') ->
     server_loop sp resolve_server dbg w = (Raise exc, w')) /\
  (forall n w1,
     served n resolve_server (serving sp resolve_server dbg w) = Some w1 ->
     (length (read_fd (session w1)) < ROMP_BUFFER_SIZE)%nat ->
     let run := server_loop sp resolve_server dbg w in
     fst run =
     Raise (Exception "IOError" (RString "disconnected") (RArray caller)) /\
     read_fd (session (snd run)) = [] /\
     trace (snd run) = trace w1 ++ [EvRead (read_fd (session w1))]).
Proof.
  repeat apply conj.
  - intros v w' Hret. unfold server_loop in Hret.
    set (w1 := set_server_info _ w) in Hret.
    destruct (loop (rounds w1) (server_loop_round resolve_server) w1)
      as [[r w2] | ] eqn:Hloop.
    + destruct (loop_only_raises _ (server_loop_round_goes_on resolve_server)
                  _ _ _ _ Hloop) as [exc ->].
      discriminate Hret.
    + discriminate Hret.
  - intros n w1 exc w'. apply server_loop_raises.
  - intros n w1 Hserved Hlt run. subst run.
    destruct (get_message_short sp w1 Hlt) as (w' & Hget & Hfd & Htrace).
    rewrite (server_loop_raises _ _ _ _ n w1 _ w' Hserved Hget).
    repeat apply conj; assumption || reflexivity.
Qed.

(** X15. A REQUEST that returns.  When the registry finds the target and
    the method returns a value that can be dumped, the server calls the
    method once and then writes exactly one frame, a RETVAL tagged 0 with
    the dump of the value. *)
Theorem request_answered (w : world) (target v : VALUE) (data : list Z) :
  wf_session (session w) ->
  message_type (si_message (server_info w)) = ROMP_REQUEST ->
  get_object (si_obj (server_info w)) (object_id (si_message (server_info w)))
  = Return target ->
  send target (message_obj (si_message (server_info w))) = Return v ->
  Marshal_dump v = Return data ->
  let run := rb_rescue2 server_reply server_exception w in
  fst run = Return Qnil /\
  events_since w (snd run) =
  EvSend target (message_obj (si_message (server_info w)))
  :: frame_events (buf (session w)) ROMP_RETVAL 0 data /\
  buf (session (snd run)) =
  header_block (buf (session w)) ROMP_RETVAL 0 (Z.of_nat (length data)).
Proof. apply request_answered_run. Qed.

(** X23. A SYNC request is acknowledged on its tag.  When the registry
    answers for the id in the tag and nil can be dumped, a SYNC frame
    tagged 0 is answered with exactly one frame, a SYNC tagged 1 that
    carries nil, and a SYNC frame with any other tag with nothing; no
    method is called either way. *)
Theorem sync_request_acknowledged (w : world) (target : VALUE)
    (data : list Z) :
  wf_session (session w) ->
  message_type (si_message (server_info w)) = ROMP_SYNC ->
  get_object (si_obj (server_info w)) (object_id (si_message (server_info w)))
  = Return target ->
  Marshal_dump Qnil = Return data ->
  let run := rb_rescue2 server_reply server_exception w in
  fst run = Return Qnil /\
  events_since w (snd run) =
  if object_id (si_message (server_info w)) =? 0
  then frame_events (buf (session w)) ROMP_SYNC 1 data
  else [].
Proof. apply server_sync_reply. Qed.

End ServerReplies.

(** ** A client and a server *)

Section ServerRound.
Context {rb : Ruby}.

(** A round of [server_loop] on a frame at the head of the input. *)
Lemma server_loop_round_frame resolve_server w b payload rest data_len ty tag
    msg :
  wf_session (session w) ->
  length b = ROMP_BUFFER_SIZE ->
  get_header b = (ROMP_MSG_START, data_len, ty, tag) ->
  length payload = Z.to_nat data_len ->
  read_fd (session w) = b ++ payload ++ rest ->
  received ty tag payload = Return msg ->
  server_loop_round resolve_server w =
  (rb_rescue2 server_reply server_exception ;;
   modify (fun w => set_server_info (set_obj resolve_server (server_info w)) w) ;;
   ret None)
    (mkWorld (mkSession rest b (nonblock (session w)))
       (proxies w) (set_message msg (server_info w))
       (trace w ++ [EvRead b; EvRead payload])).
Proof.
  intros Hwf Hb Hhdr Hpay Hfd Hrecv.
  unfold server_loop_round, session_finished.
  unfold bind at 1. unfold gets at 1. cbv iota.
  unfold bind at 1. destruct (si_session (server_info w)).
  rewrite (get_message_frame [] w b payload rest data_len ty tag);
    try assumption; [ | constructor ].
  rewrite Hrecv. unfold bind at 1. unfold modify at 1. reflexivity.
Qed.

(** What a run that only moves the world forward added to the trace. *)
Lemma events_since_sound {A} (m : M A) w evs :
  sound m -> events_since w (snd (m w)) = evs ->
  trace (snd (m w)) = trace w ++ evs.
Proof.
  intros Hm Hevs. destruct (Hm w) as (_ & [evs' Ht] & _).
  rewrite (events_since_app _ _ _ Ht) in Hevs. now subst evs'.
Qed.

Lemma sound_handler : sound (rb_rescue2 server_reply server_exception).
Proof.
  apply sound_rb_rescue2; [ apply sound_server_reply | ].
  intros exc. apply sound_server_exception.
Qed.

(** The rest of a round once the request is handled. *)
Lemma server_round_finish resolve_server w evs :
  fst (rb_rescue2 server_reply server_exception w) = Return Qnil ->
  events_since w (snd (rb_rescue2 server_reply server_exception w)) = evs ->
  let round :=
    (rb_rescue2 server_reply server_exception ;;
     modify (fun w =>
       set_server_info (set_obj resolve_server (server_info w)) w) ;;
     ret None) w in
  fst round = Return (@None unit) /\
  trace (snd round) = trace w ++ evs /\
  session (snd round) = session (snd (rb_rescue2 server_reply server_exception w)).
Proof.
  intros Hret Hevs round. subst round.
  pose proof (events_since_sound _ w evs sound_handler Hevs) as Ht.
  unfold bind, modify, ret.
  destruct (rb_rescue2 server_reply server_exception w) as [r w1].
  simpl in Hret, Ht. subst r. simpl. auto.
Qed.

End ServerRound.

(** A frame with 16-bit fields and a payload shorter than 65536 bytes, as a
    header block and its payload. *)
Lemma frame_split mem ty oid data :
  length mem = ROMP_BUFFER_SIZE ->
  is_short ty -> is_short oid ->
  Z.of_nat (length data) < 65536 ->
  let b := header_block mem ty oid (Z.of_nat (length data)) in
  length b = ROMP_BUFFER_SIZE /\
  get_header b = (ROMP_MSG_START, Z.of_nat (length data), ty, oid) /\
  length data = Z.to_nat (Z.of_nat (length data)) /\
  frame mem ty oid data = b ++ data ++ [].
Proof.
  intros Hmem Hty Hoid Hlen b. repeat apply conj.
  - apply header_block_length, Hmem.
  - unfold b, header_block. rewrite get_header_encode.
    rewrite !uint16_small by (assumption || lia). reflexivity.
  - now rewrite Nat2Z.id.
  - unfold frame. now rewrite app_nil_r.
Qed.

Lemma written_reads_send b payload target msg evs :
  written ([EvRead b; EvRead payload] ++ EvSend target msg :: evs) = written evs.
Proof. reflexivity. Qed.

(** X21. A call from end to end.  A client without a block calls a method
    on a proxy; its request frame is the input of a server whose registry
    finds the target and whose method returns [v]; the frames the server
    writes are the input of the client.  When each side loads what the
    other dumps, and the dumps are shorter than 65536 bytes, the server
    calls the method once with the message of the client and its round goes
    on, and the call of the client returns [v]. *)
Theorem call_end_to_end (rbc rbs : Ruby) (wc ws : world) (p : nat)
    (obj : Proxy_Object) (message target v : VALUE) (dmsg dv : list Z)
    (resolve_server : VALUE) :
  wf_session (session wc) ->
  wf_session (session ws) ->
  proxies wc !! p = Some obj ->
  is_short (po_object_id obj) ->
  block (Ruby := rbc) = None ->
  Marshal_dump (Ruby := rbc) message = Return dmsg ->
  Marshal_load (Ruby := rbs) dmsg = Return message ->
  Z.of_nat (length dmsg) < 65536 ->
  get_object (Ruby := rbs) (si_obj (server_info ws)) (po_object_id obj)
  = Return target ->
  send (Ruby := rbs) target message = Return v ->
  Marshal_dump (Ruby := rbs) v = Return dv ->
  Marshal_load (Ruby := rbc) dv = Return v ->
  Z.of_nat (length dv) < 65536 ->
  (forall n, v <> Object_Reference n) ->
  read_fd (session ws) =
  frame (buf (session wc)) ROMP_REQUEST (po_object_id obj) dmsg ->
  let served := server_loop_round (rb := rbs) resolve_server ws in
  read_fd (session wc) = written (events_since ws (snd served)) ->
  let called :=
    ruby_proxy_object_method_missing (rb := rbc) (Proxy_Data p) message wc in
  fst served = Return None /\
  List.filter is_send (events_since ws (snd served)) = [EvSend target message] /\
  fst called = Return v /\
  written (events_since wc (snd called)) = read_fd (session ws) /\
  read_fd (session (snd called)) = [].
Proof.
  intros Hwc Hws Hp Hoid Hblock Hdmsg Hlmsg Hlen_msg Hget Hsend Hdv Hlv Hlen_v
    Hv Hreq served Hrep called.
  assert (Hkind : is_short ROMP_REQUEST) by (unfold is_short, ROMP_REQUEST; lia).
  destruct (frame_split (buf (session wc)) ROMP_REQUEST (po_object_id obj) dmsg
              Hwc Hkind Hoid Hlen_msg) as (Hb & Hhdr & Hpay & Hframe).
  set (b := header_block (buf (session wc)) ROMP_REQUEST (po_object_id obj)
              (Z.of_nat (length dmsg))) in *.
  rewrite Hframe in Hreq.
  (* the server *)
  set (ws2 := mkWorld (mkSession [] b (nonblock (session ws)))
                (proxies ws)
                (set_message (mkMessage ROMP_REQUEST (po_object_id obj) message)
                   (server_info ws))
                (trace ws ++ [EvRead b; EvRead dmsg])).
  assert (Hserved : served =
            (rb_rescue2 server_reply server_exception ;;
             modify (fun w =>
               set_server_info (set_obj resolve_server (server_info w)) w) ;;
             ret None) ws2).
  { subst served ws2.
    apply (server_loop_round_frame (rb := rbs) resolve_server ws b dmsg []
             (Z.of_nat (length dmsg)) ROMP_REQUEST (po_object_id obj));
      try assumption.
    unfold received. simpl negb. cbv iota. rewrite Hlmsg. reflexivity. }
  destruct (request_answered_run (rb := rbs) ws2 target v dv Hb eq_refl Hget Hsend
              Hdv) as (Hret & Hevs & Hbuf).
  destruct (server_round_finish (rb := rbs) resolve_server ws2 _ Hret Hevs)
    as (Hround & Htrace & _).
  rewrite <- Hserved in Hround, Htrace.
  assert (Hsince : events_since ws (snd served) =
            [EvRead b; EvRead dmsg]
            ++ EvSend target message :: frame_events b ROMP_RETVAL 0 dv).
  { apply events_since_app. rewrite Htrace. subst ws2.
    cbn [trace buf session server_info set_message si_message message_obj].
    rewrite <- app_assoc. reflexivity. }
  rewrite Hsince, written_reads_send, written_frame_events in Hrep.
  (* the client *)
  assert (Hret_kind : is_short ROMP_RETVAL) by (unfold is_short, ROMP_RETVAL; lia).
  assert (Hzero : is_short 0) by (unfold is_short; lia).
  destruct (frame_split b ROMP_RETVAL 0 dv Hb Hret_kind Hzero Hlen_v)
    as (Hb' & Hhdr' & Hpay' & Hframe').
  rewrite Hframe' in Hrep.
  destruct (call_returns_run (rb := rbc) wc p obj message v dmsg _ dv []
              (Z.of_nat (length dv)) 0 Hwc Hp Hdmsg Hb' Hhdr' Hpay' Hrep Hlv Hv)
    as (Hcalled & Hcevs & Hrest).
  fold called in Hcalled, Hcevs, Hrest.
  repeat apply conj.
  - exact Hround.
  - rewrite Hsince. reflexivity.
  - exact Hcalled.
  - rewrite Hcevs, Hreq. unfold request_kind, rb_block_given_p.
    rewrite Hblock. simpl. fold b. now rewrite !app_nil_r.
  - exact Hrest.
Qed.

Section SyncRound.
Context {rb : Ruby}.

(** A sync that is answered by a SYNC frame. *)
Lemma sync_returns w p obj dn b payload rest data_len tag msg :
  wf_session (session w) ->
  proxies w !! p = Some obj ->
  Marshal_dump Qnil = Return dn ->
  length b = ROMP_BUFFER_SIZE ->
  get_header b = (ROMP_MSG_START, data_len, ROMP_SYNC, tag) ->
  length payload = Z.to_nat data_len ->
  read_fd (session w) = b ++ payload ++ rest ->
  received ROMP_SYNC tag payload = Return msg ->
  let run := ruby_proxy_object_sync (Proxy_Data p) w in
  fst run = Return Qnil /\
  events_since w (snd run) =
  EvLock (po_mutex obj)
  :: frame_events (buf (session w)) ROMP_SYNC 0 dn
  ++ [EvRead b; EvRead payload; EvUnlock (po_mutex obj)] /\
  read_fd (session (snd run)) = rest.
Proof.
  intros Hwf Hp Hdump Hb Hhdr Hpay Hfd Hrecv run. subst run.
  unfold ruby_proxy_object_sync.
  rewrite (proxy_preamble_sync
             (fun proxy_object obj =>
                ruby_lock (po_mutex obj) ;;
                rb_ensure (client_sync proxy_object)
                  (ruby_unlock (po_mutex obj)) ;;
                ret Qnil) w p obj Hp).
  rewrite locked_run_ret.
  unfold client_sync.
  rewrite (deref_bind p obj) by exact Hp.
  unfold send_sync, wait_sync, bind.
  rewrite (send_message_spec _ _ _ _ _ dn); [ | exact Hwf | exact Hdump ].
  destruct (po_session obj).
  rewrite (get_message_frame [] _ b payload rest data_len ROMP_SYNC tag);
    [ | constructor | apply header_block_length, Hwf | exact Hb | exact Hhdr
      | exact Hpay | exact Hfd ].
  rewrite Hrecv.
  destruct (received_fields _ _ _ _ Hrecv) as [-> _].
  change (negb (ROMP_SYNC =? ROMP_SYNC)) with false. cbv iota.
  cbn [andb fst snd session read_fd log set_proxies proxies server_info trace
       buf nonblock ret].
  repeat apply conj; try reflexivity.
  apply events_since_app. trace_eq.
Qed.

End SyncRound.

(** X22. A sync from end to end.  The SYNC frame of a client, tagged 0, is
    the input of a server; the frames the server writes are the input of
    the client.  When the registry of the server answers for the object 0,
    which is asked for like the target of a request, and each side loads
    the nil the other dumps, the server calls no method and writes one SYNC
    frame tagged 1, and the sync of the client returns. *)
Theorem sync_end_to_end (rbc rbs : Ruby) (wc ws : world) (p : nat)
    (obj : Proxy_Object) (target asked reply : VALUE) (dn dn' : list Z)
    (resolve_server : VALUE) :
  wf_session (session wc) ->
  wf_session (session ws) ->
  proxies wc !! p = Some obj ->
  Marshal_dump (Ruby := rbc) Qnil = Return dn ->
  Marshal_load (Ruby := rbs) dn = Return asked ->
  Z.of_nat (length dn) < 65536 ->
  get_object (Ruby := rbs) (si_obj (server_info ws)) 0 = Return target ->
  Marshal_dump (Ruby := rbs) Qnil = Return dn' ->
  Marshal_load (Ruby := rbc) dn' = Return reply ->
  Z.of_nat (length dn') < 65536 ->
  read_fd (session ws) = frame (buf (session wc)) ROMP_SYNC 0 dn ->
  let served := server_loop_round (rb := rbs) resolve_server ws in
  read_fd (session wc) = written (events_since ws (snd served)) ->
  let synced := ruby_proxy_object_sync (rb := rbc) (Proxy_Data p) wc in
  fst served = Return None /\
  List.filter is_send (events_since ws (snd served)) = [] /\
  written (events_since ws (snd served)) =
  frame (header_block (buf (session wc)) ROMP_SYNC 0 (Z.of_nat (length dn)))
    ROMP_SYNC 1 dn' /\
  fst synced = Return Qnil /\
  written (events_since wc (snd synced)) = read_fd (session ws).
Proof.
  intros Hwc Hws Hp Hdn Hasked Hlen Hget Hdn' Hreply Hlen' Hreq served Hrep
    synced.
  assert (Hkind : is_short ROMP_SYNC) by (unfold is_short, ROMP_SYNC; lia).
  assert (Hzero : is_short 0) by (unfold is_short; lia).
  assert (Hone : is_short 1) by (unfold is_short; lia).
  destruct (frame_split (buf (session wc)) ROMP_SYNC 0 dn Hwc Hkind Hzero Hlen)
    as (Hb & Hhdr & Hpay & Hframe).
  set (b := header_block (buf (session wc)) ROMP_SYNC 0
              (Z.of_nat (length dn))) in *.
  rewrite Hframe in Hreq.
  set (ws2 := mkWorld (mkSession [] b (nonblock (session ws)))
                (proxies ws)
                (set_message (mkMessage ROMP_SYNC 0 asked) (server_info ws))
                (trace ws ++ [EvRead b; EvRead dn])).
  assert (Hserved : served =
            (rb_rescue2 server_reply server_exception ;;
             modify (fun w =>
               set_server_info (set_obj resolve_server (server_info w)) w) ;;
             ret None) ws2).
  { subst served ws2.
    apply (server_loop_round_frame (rb := rbs) resolve_server ws b dn []
             (Z.of_nat (length dn)) ROMP_SYNC 0);
      try assumption.
    unfold received. simpl negb. cbv iota. rewrite Hasked. reflexivity. }
  destruct (server_sync_reply (rb := rbs) ws2 target dn' Hb eq_refl Hget Hdn')
    as (Hret & Hevs).
  cbn [ws2 server_info set_message si_message object_id Z.eqb session buf]
    in Hevs.
  destruct (server_round_finish (rb := rbs) resolve_server ws2 _ Hret Hevs)
    as (Hround & Htrace & _).
  rewrite <- Hserved in Hround, Htrace.
  assert (Hsince : events_since ws (snd served) =
            [EvRead b; EvRead dn] ++ frame_events b ROMP_SYNC 1 dn').
  { apply events_since_app. rewrite Htrace. subst ws2.
    cbn [trace]. rewrite <- app_assoc. reflexivity. }
  assert (Hwritten : written (events_since ws (snd served)) =
                     frame b ROMP_SYNC 1 dn').
  { rewrite Hsince. simpl. now rewrite app_nil_r. }
  rewrite Hwritten in Hrep.
  destruct (frame_split b ROMP_SYNC 1 dn' Hb Hkind Hone Hlen')
    as (Hb' & Hhdr' & Hpay' & Hframe').
  rewrite Hframe' in Hrep.
  destruct (sync_returns (rb := rbc) wc p obj dn _ dn' []
              (Z.of_nat (length dn')) 1 (mkMessage ROMP_SYNC 1 reply)
              Hwc Hp Hdn Hb' Hhdr' Hpay' Hrep)
    as (Hsynced & Hcevs & _).
  { unfold received. simpl negb. cbv iota. rewrite Hreply. reflexivity. }
  fold synced in Hsynced, Hcevs.
  repeat apply conj.
  - exact Hround.
  - rewrite Hsince. reflexivity.
  - exact Hwritten.
  - exact Hsynced.
  - rewrite Hcevs, Hreq. simpl. fold b. now rewrite !app_nil_r.
Qed.

(** ** Two messages, and what every entry point keeps *)

Section Order.
Context {rb : Ruby}.

(** X24. First in, first out.  Two messages sent one after the other on a
    session, each of a kind other than NULL_MSG, with 16-bit fields and a
    dump shorter than 65536 bytes that loads back, are received at the
    other end by two [get_message]s as the first and then the second, and
    nothing is left of the input. *)
Theorem messages_in_order (ws wr : world) (t1 o1 t2 o2 : Z) (v1 v2 : VALUE)
    (d1 d2 : list Z) :
  wf_session (session ws) ->
  wf_session (session wr) ->
  is_short t1 -> is_short o1 -> is_short t2 -> is_short o2 ->
  t1 <> ROMP_NULL_MSG -> t2 <> ROMP_NULL_MSG ->
  Marshal_dump v1 = Return d1 -> Marshal_load d1 = Return v1 ->
  Marshal_dump v2 = Return d2 -> Marshal_load d2 = Return v2 ->
  Z.of_nat (length d1) < 65536 -> Z.of_nat (length d2) < 65536 ->
  let ws1 := snd (send_message the_session (mkMessage t1 o1 v1) ws) in
  let ws2 := snd (send_message the_session (mkMessage t2 o2 v2) ws1) in
  read_fd (session wr) = written (events_since ws ws2) ->
  let got1 := get_message the_session wr in
  let got2 := get_message the_session (snd got1) in
  fst got1 = Return (mkMessage t1 o1 v1) /\
  fst got2 = Return (mkMessage t2 o2 v2) /\
  read_fd (session (snd got2)) = [].
Proof.
  intros Hws Hwr Ht1 Ho1 Ht2 Ho2 Hn1 Hn2 Hd1 Hl1 Hd2 Hl2 Hlen1 Hlen2
    ws1 ws2 Hfd got1 got2.
  subst ws1 ws2.
  rewrite (send_message_spec _ ws t1 o1 v1 d1 Hws Hd1) in Hfd. cbn [snd] in Hfd.
  rewrite (send_message_spec _ _ t2 o2 v2 d2) in Hfd;
    [ | apply header_block_length, Hws | exact Hd2 ].
  cbn [snd session buf] in Hfd.
  erewrite events_since_app in Hfd
    by (cbn [trace]; rewrite <- app_assoc; reflexivity).
  rewrite written_app, !written_frame_events in Hfd.
  set (mem1 := header_block (buf (session ws)) t1 o1 (Z.of_nat (length d1)))
    in *.
  assert (Hmem1 : length mem1 = ROMP_BUFFER_SIZE)
    by apply header_block_length, Hws.
  subst got2 got1.
  rewrite (get_message_transfer wr (buf (session ws)) t1 o1 d1
             (frame mem1 t2 o2 d2) Hwr Hws Ht1 Ho1 Hfd).
  rewrite uint16_small by lia.
  rewrite Nat2Z.id, firstn_all, skipn_all. cbn [fst snd app].
  rewrite (get_message_transfer _ mem1 t2 o2 d2 []);
    [ | apply header_block_length, Hws | exact Hmem1 | exact Ht2 | exact Ho2
      | cbn [session read_fd]; now rewrite app_nil_r ].
  rewrite uint16_small by lia.
  rewrite Nat2Z.id, firstn_all, skipn_all. cbn [fst snd session read_fd app].
  unfold received.
  destruct (Z.eqb_spec t1 ROMP_NULL_MSG) as [Heq | _]; [ contradiction | ].
  destruct (Z.eqb_spec t2 ROMP_NULL_MSG) as [Heq | _]; [ contradiction | ].
  simpl negb. cbv iota. rewrite Hl1, Hl2. repeat apply conj; reflexivity.
Qed.

Lemma keeps_sound {A} (m : M A) : sound m -> keeps m.
Proof.
  intros Hm w. destruct (Hm w) as ([ps Hps] & _ & Hle & Hwf).
  repeat apply conj; auto. rewrite Hps, length_app. lia.
Qed.

Lemma keeps_bind {A B} (m : M A) (k : A -> M B) :
  keeps m -> (forall a, keeps (k a)) -> keeps (bind m k).
Proof.
  intros Hm Hk w. unfold bind. destruct (Hm w) as (Hwf1 & Hp1 & Hr1).
  destruct (m w) as [[a | exc] w1]; simpl in *.
  - destruct (Hk a w1) as (Hwf2 & Hp2 & Hr2).
    repeat apply conj; [ auto | lia | lia ].
  - auto.
Qed.

Lemma keeps_store_message p message : keeps (store_message p message).
Proof.
  intros w. unfold store_message, modify. simpl.
  destruct (proxies w !! p); simpl; repeat apply conj; auto.
  now rewrite length_insert.
Qed.

(** X25. What every entry point keeps.  The four methods of a proxy, on any
    receiver and with any message, and the loop of the server, however they
    end, leave the session buffer 16 bytes long, leave every proxy handle
    there was good, and never have more input pending than before. *)
Theorem entry_points_keep (self message resolve_server : VALUE) (dbg : bool) :
  keeps (ruby_proxy_object_method_missing self message) /\
  keeps (ruby_proxy_object_oneway self message) /\
  keeps (ruby_proxy_object_oneway_sync self message) /\
  keeps (ruby_proxy_object_sync self) /\
  keeps (server_loop the_session resolve_server dbg).
Proof.
  repeat apply conj.
  - unfold ruby_proxy_object_method_missing.
    apply keeps_bind; [ apply keeps_sound, sound_Data_Get_Proxy | intros p ].
    apply keeps_bind; [ apply keeps_store_message | intros _ ].
    apply keeps_sound.
    apply sound_bind; [ apply sound_deref | intros o ].
    apply sound_locked, sound_client_request.
  - unfold ruby_proxy_object_oneway.
    apply keeps_bind; [ apply keeps_sound, sound_Data_Get_Proxy | intros p ].
    apply keeps_bind; [ apply keeps_store_message | intros _ ].
    apply keeps_sound.
    apply sound_bind; [ apply sound_deref | intros o ].
    apply sound_bind; [ apply sound_ruby_lock | intros _ ].
    apply sound_bind; [ | intros _; apply sound_ret ].
    apply sound_rb_ensure; [ apply sound_client_oneway | apply sound_ruby_unlock ].
  - unfold ruby_proxy_object_oneway_sync.
    apply keeps_bind; [ apply keeps_sound, sound_Data_Get_Proxy | intros p ].
    apply keeps_bind; [ apply keeps_store_message | intros _ ].
    apply keeps_sound.
    apply sound_bind; [ apply sound_deref | intros o ].
    apply sound_bind; [ apply sound_ruby_lock | intros _ ].
    apply sound_bind; [ | intros _; apply sound_ret ].
    apply sound_rb_ensure;
      [ apply sound_client_oneway_sync | apply sound_ruby_unlock ].
  - unfold ruby_proxy_object_sync. apply keeps_sound.
    apply sound_bind; [ apply sound_Data_Get_Proxy | intros p ].
    apply sound_bind; [ apply sound_deref | intros o ].
    apply sound_bind; [ apply sound_ruby_lock | intros _ ].
    apply sound_bind; [ | intros _; apply sound_ret ].
    apply sound_rb_ensure; [ apply sound_client_sync | apply sound_ruby_unlock ].
  - intros w. unfold server_loop.
    set (w1 := set_server_info _ w).
    destruct (loop (rounds w1) (server_loop_round resolve_server) w1)
      as [[r w'] | ] eqn:Hloop; simpl.
    + destruct (sound_loop _ (sound_server_loop_round resolve_server)
                  _ _ _ _ Hloop) as ([ps Hps] & _ & Hle & Hwf).
      repeat apply conj; auto. rewrite Hps, length_app. simpl. lia.
    + repeat apply conj; auto.
Qed.

End Order.
(* ------------------------------------------------------------------------- *)
(** * The helper on examples *)
(* ------------------------------------------------------------------------- *)

Module Examples.
Import Demo.

Lemma frame_layout_witness :
  let w := endpoint [] (mkMessage 0 0 Qnil) false in
  written
    (events_since w
       (snd (send_message_helper the_session [48] 1 ROMP_RETVAL 0 w)))
  = block_of ROMP_RETVAL 0 1 ++ [48].
Proof.
  intros w.
  pose proof (frame_layout (rb := ruby) w [48] ROMP_RETVAL 0 eq_refl) as H.
  exact (proj1 (proj2 (proj2 (proj1 H)))).
Defined.

(** A RETVAL frame with a one-byte payload is 17 bytes on the wire, not the
    9 of an 8-byte header and its payload; and a receiver given those 9
    bytes does not find a header in them. *)
Lemma frame_counterexample :
  let w := endpoint [] (mkMessage 0 0 Qnil) false in
  let sent := send_message_helper the_session [48] 1 ROMP_RETVAL 0 w in
  written (events_since w (snd sent)) <> spec_frame ROMP_RETVAL 0 [48] /\
  length (written (events_since w (snd sent))) = 17%nat /\
  length (spec_frame ROMP_RETVAL 0 [48]) = 9%nat /\
  fst (get_message (rb := ruby) the_session
         (endpoint (spec_frame ROMP_RETVAL 0 [48]) (mkMessage 0 0 Qnil) false))
  = Raise (Exception "IOError" (RString "disconnected")
             (RArray [RString "client.rb:7"])).
Proof.
  repeat apply conj.
  - intros H. vm_compute in H. discriminate H.
  - reflexivity.
  - reflexivity.
  - reflexivity.
Defined.

Lemma magic_resync_witness :
  fst (get_message (rb := ruby) the_session
         (endpoint (repeat 1 16 ++ repeat 2 16 ++ block_of ROMP_RETVAL 0 1
                    ++ [48] ++ [9; 9])
            (mkMessage 0 0 Qnil) false))
  = Return (mkMessage ROMP_RETVAL 0 Qnil).
Proof.
  refine (proj1 (magic_resync (rb := ruby) [repeat 1 16; repeat 2 16]
                   (endpoint _ (mkMessage 0 0 Qnil) false)
                   (block_of ROMP_RETVAL 0 1) [48] [9; 9] 1 ROMP_RETVAL 0
                   _ eq_refl eq_refl eq_refl eq_refl eq_refl)).
  repeat constructor; vm_compute; discriminate.
Defined.

(** Sixteen bytes of garbage before a NULL_MSG frame: a multiple of 8 with
    no magic at any 8-byte boundary.  The receiver raises nothing; it takes
    the garbage as one block of 16 bytes and returns the frame.  Before a
    frame with an 8-byte header the same garbage ends in the [IOError] of
    the I/O layer, the input being over inside the second block. *)
Lemma magic_resync_counterexample :
  let w :=
    endpoint (repeat 0 16 ++ block_of ROMP_NULL_MSG 0 0)
      (mkMessage 0 0 Qnil) false in
  let got := get_message (rb := ruby) the_session w in
  fst got = Return (mkMessage ROMP_NULL_MSG 0 Qnil) /\
  ~ (exists exc, fst got = Raise exc) /\
  events_since w (snd got) =
  [EvRead (repeat 0 16); EvRead (block_of ROMP_NULL_MSG 0 0); EvRead []] /\
  fst (get_message (rb := ruby) the_session
         (endpoint (repeat 0 16 ++ spec_frame ROMP_NULL_MSG 0 [])
            (mkMessage 0 0 Qnil) false))
  = Raise (Exception "IOError" (RString "disconnected")
             (RArray [RString "client.rb:7"])).
Proof.
  repeat apply conj.
  - reflexivity.
  - intros [exc H]. vm_compute in H. discriminate H.
  - reflexivity.
  - reflexivity.
Defined.

Lemma remote_exception_raised_witness :
  exists w',
    loop 1
      (client_request_round (rb := ruby)
         (mkProxy the_session Session_Data 5 Qfalse (Object 7)))
      (client (block_of ROMP_EXCEPTION 0 1 ++ [101]) 5)
    = Some (Raise (Exception "RuntimeError" (RString "boom")
                     (RArray [RString "thrower.rb:3:in bang";
                              RString "romp.rb:120:in send";
                              RString "client.rb:7"])), w').
Proof.
  destruct (remote_exception_raised (rb := ruby)
              (mkProxy the_session Session_Data 5 Qfalse (Object 7))
              (client (block_of ROMP_EXCEPTION 0 1 ++ [101]) 5)
              (block_of ROMP_EXCEPTION 0 1) [101] [] 1 0
              "RuntimeError" (RString "boom")
              [RString "thrower.rb:3:in bang"; RString "romp.rb:120:in send"]
              0 eq_refl eq_refl eq_refl eq_refl eq_refl eq_refl)
    as (w' & Hloop & _).
  exists w'. exact Hloop.
Defined.

Lemma sync_in_response_loop_witness :
  exists w',
    loop 1
      (client_request_round (rb := ruby)
         (mkProxy the_session Session_Data 3 Qfalse (Object 7)))
      (client (block_of ROMP_SYNC 0 1 ++ [48]) 3)
    = Some (Raise (Exception "TypeError"
                     (RString "no implicit conversion from nil to integer")
                     (RArray [RString "client.rb:7"])), w').
Proof.
  destruct (sync_in_response_loop (rb := ruby)
              (mkProxy the_session Session_Data 3 Qfalse (Object 7))
              (client (block_of ROMP_SYNC 0 1 ++ [48]) 3)
              (block_of ROMP_SYNC 0 1) [48] [] 1 0 0
              eq_refl eq_refl eq_refl eq_refl eq_refl eq_refl)
    as (w' & Hloop & _).
  exists w'. exact Hloop.
Defined.

Lemma wait_sync_accepts_witness :
  fst (wait_sync (rb := ruby) the_session
         (endpoint (block_of ROMP_RETVAL 0 1 ++ [48]) (mkMessage 0 0 Qnil)
            false))
  = Return tt.
Proof.
  exact (wait_sync_accepts (rb := ruby)
           (endpoint (block_of ROMP_RETVAL 0 1 ++ [48]) (mkMessage 0 0 Qnil)
              false)
           (block_of ROMP_RETVAL 0 1) [48] [] 1 ROMP_RETVAL 0
           (mkMessage ROMP_RETVAL 0 Qnil)
           eq_refl eq_refl eq_refl eq_refl eq_refl eq_refl).
Defined.

Lemma object_id_wraps_witness :
  ruby_proxy_object_new (rb := ruby) rb_cProxy_Object Session_Data (Object 7)
    (Fixnum 65541) (endpoint [] (mkMessage 0 0 Qnil) false)
  = (Return (Proxy_Data 0),
     set_proxies [mkProxy the_session Session_Data 5 Qfalse (Object 7)]
       (endpoint [] (mkMessage 0 0 Qnil) false)).
Proof.
  refine (proj1 (object_id_wraps (rb := ruby)
                   (endpoint [] (mkMessage 0 0 Qnil) false)
                   rb_cProxy_Object (Object 7) 65541 _ eq_refl)).
  lia.
Defined.

(** A proxy for the id 65536 is made without an error, for the object 0,
    and its requests go out to the object 0. *)
Lemma object_id_counterexample :
  let made :=
    ruby_proxy_object_new (rb := ruby) rb_cProxy_Object Session_Data
      (Object 7) (Fixnum 65536) (endpoint [] (mkMessage 0 0 Qnil) false) in
  let sent :=
    ruby_proxy_object_oneway (rb := ruby) (Proxy_Data 0) (RArray [])
      (snd made) in
  fst made = Return (Proxy_Data 0) /\
  map po_object_id (proxies (snd made)) = [0] /\
  fst sent = Return Qnil /\
  written (trace (snd sent)) = block_of ROMP_ONEWAY 0 1 ++ [91].
Proof. repeat apply conj; reflexivity. Defined.

Lemma proxy_fields_after_call_witness :
  proxies
    (snd (ruby_proxy_object_oneway (rb := ruby) (Proxy_Data 0)
            (RArray [RString "incr"]) (client [] 3))) !! 0%nat
  = Some (mkProxy the_session Session_Data 3 (RArray [RString "incr"])
            (Object 7)).
Proof.
  exact (proj1 (proj2 (proxy_fields_after_call (rb := ruby) (client [] 3) 0
                         (mkProxy the_session Session_Data 3 Qfalse (Object 7))
                         (RArray [RString "incr"]) eq_refl))).
Defined.

(** A oneway changes the proxy it is called on: the message is in its
    [message] field afterwards. *)
Lemma proxy_counterexample :
  let w := client [] 3 in
  let w' :=
    snd (ruby_proxy_object_oneway (rb := ruby) (Proxy_Data 0)
           (RArray [RString "incr"]) w) in
  proxies w' <> proxies w /\
  map po_message (proxies w) = [Qfalse] /\
  map po_message (proxies w') = [RArray [RString "incr"]].
Proof.
  repeat apply conj.
  - intros H. vm_compute in H. discriminate H.
  - reflexivity.
  - reflexivity.
Defined.

Lemma oneway_sync_ack_first_witness :
  let w := endpoint [] (mkMessage ROMP_ONEWAY_SYNC 5 (RArray [])) true in
  events_since w (snd (rb_rescue2 (server_reply (rb := ruby))
                         (server_exception (rb := ruby)) w))
  = [EvWrite (block_of ROMP_NULL_MSG 0 0); EvWrite [];
     EvSend (Object 5) (RArray [])].
Proof.
  intros w.
  pose proof (oneway_sync_ack_first (rb := ruby) w (Object 5)
                eq_refl eq_refl eq_refl) as H.
  exact (proj1 (proj2 (proj2 H))).
Defined.

(** A ONEWAY_SYNC request for an id the registry rejects.  No NULL_MSG
    acknowledgement is sent and no method is called: the one frame written
    is an EXCEPTION, with the exception of the registry. *)
Lemma oneway_sync_counterexample :
  let w := endpoint [] (mkMessage ROMP_ONEWAY_SYNC 9 (RArray [])) false in
  let run :=
    rb_rescue2 (server_reply (rb := Strict.ruby))
      (server_exception (rb := Strict.ruby)) w in
  get_object (Ruby := Strict.ruby) (Object 100) 9 = Raise Strict.no_object /\
  fst run = Return Qnil /\
  events_since w (snd run) =
  [EvWrite (block_of ROMP_EXCEPTION 0 1); EvWrite [101]] /\
  ~ In (EvWrite (block_of ROMP_NULL_MSG 0 0)) (trace (snd run)) /\
  List.filter is_send (trace (snd run)) = [].
Proof.
  repeat apply conj; try reflexivity.
  intros H. vm_compute in H.
  destruct H as [H | [H | H]]; [ discriminate H | discriminate H | exact H ].
Defined.

Lemma oneway_no_reply_witness :
  let w := endpoint [] (mkMessage ROMP_ONEWAY 5 (RArray [])) true in
  fst (rb_rescue2 (server_reply (rb := ruby)) (server_exception (rb := ruby)) w)
  = Return Qnil.
Proof.
  intros w.
  exact (proj1 (oneway_no_reply (rb := ruby) w (Object 5) eq_refl eq_refl)).
Defined.

(** With debug on, a ONEWAY call that raises: the exception is not printed. *)
Lemma oneway_counterexample :
  let w := endpoint [] (mkMessage ROMP_ONEWAY 5 (RArray [])) true in
  let w' :=
    snd (rb_rescue2 (server_reply (rb := ruby)) (server_exception (rb := ruby))
           w) in
  si_debug (server_info w) = true /\
  send (Ruby := ruby) (Object 5) (RArray []) = Raise boom /\
  trace w' = [EvSend (Object 5) (RArray [])] /\
  ~ In (EvPrint boom) (trace w').
Proof.
  repeat apply conj; try reflexivity.
  intros H. vm_compute in H. destruct H as [H | H]; [ discriminate H | exact H ].
Defined.

End Examples.

(* ------------------------------------------------------------------------- *)
(** * More of the helper on examples *)
(* ------------------------------------------------------------------------- *)

Module Scenarios.
Import Demo.

(** A send whose second write fails with [EPIPE]: the header block has
    left, the dump has not, and the error of the write is raised. *)
Lemma send_message_writes_prefix_witness :
  let w := endpoint [] (mkMessage 0 0 Qnil) false in
  let os := [ready; accepts 16; ready; mkAnswer (-1) Posix.EPIPE] in
  let sent :=
    WriteEnd.send_message (rb := ruby) (sys := Posix.system) os the_session
      (mkMessage ROMP_RETVAL 0 (RString "hi")) w in
  fst (fst sent)
  = Raise (Exception "Errno::EPIPE" (RString "Broken pipe - write")
             (RArray [RString "client.rb:7"])) /\
  written (events_since w (snd sent)) = block_of ROMP_RETVAL 0 1 /\
  (exists k,
     written (events_since w (snd sent))
     = firstn k (frame (repeat 0 16) ROMP_RETVAL 0 [34])) /\
  write_failure (rb := ruby) (sys := Posix.system)
    (Exception "Errno::EPIPE" (RString "Broken pipe - write")
       (RArray [RString "client.rb:7"])).
Proof.
  intros w os sent.
  pose proof (send_message_writes_prefix (rb := ruby) (sys := Posix.system)
                os the_session w
                ROMP_RETVAL 0 (RString "hi") eq_refl) as H.
  change (Marshal_dump (Ruby := ruby) (RString "hi")) with (Return (A := list Z) [34]) in H.
  cbv iota zeta in H. fold sent in H.
  destruct H as (Hprefix & _ & Hexc & _).
  split; [ reflexivity | ]. split; [ reflexivity | ].
  split; [ exact Hprefix | ].
  apply Hexc. reflexivity.
Defined.

(** A payload of 65537 bytes: the len field holds 1, the receiver takes one
    byte for the payload and leaves the other 65536 pending. *)
Lemma payload_length_wraps_witness :
  let data := repeat 48 (Z.to_nat 65537) in
  let w :=
    endpoint (frame (repeat 0 16) ROMP_RETVAL 0 data ++ [7; 7])
      (mkMessage 0 0 Qnil) false in
  let got := get_message (rb := ruby) the_session w in
  Z.of_nat (length data) = 65537 /\
  fst got = Return (mkMessage ROMP_RETVAL 0 Qnil) /\
  read_fd (session (snd got)) = repeat 48 (Z.to_nat 65536) ++ [7; 7].
Proof.
  intros data w got.
  assert (Hlen : Z.of_nat (length data) = 65537).
  { unfold data. rewrite repeat_length. apply Z2Nat.id. lia. }
  assert (Hdata : data = 48 :: repeat 48 (Z.to_nat 65536)).
  { unfold data. replace 65537 with (Z.succ 65536) by reflexivity.
    rewrite Z2Nat.inj_succ by lia. reflexivity. }
  assert (Hty : is_short ROMP_RETVAL) by (unfold is_short, ROMP_RETVAL; lia).
  assert (Hoid : is_short 0) by (unfold is_short; lia).
  pose proof (payload_length_wraps (rb := ruby) w (repeat 0 16) ROMP_RETVAL 0
                data [7; 7] eq_refl eq_refl Hty Hoid eq_refl) as H.
  cbv zeta in H. fold got in H. rewrite Hlen in H.
  change (Z.to_nat (65537 mod 65536)) with 1%nat in H.
  rewrite Hdata in H. cbn [firstn skipn] in H.
  destruct H as (Hgot & Hrest & _).
  repeat apply conj; [ exact Hlen | exact Hgot | exact Hrest ].
Defined.

Lemma message_round_trip_witness :
  let ws := endpoint [] (mkMessage 0 0 Qnil) false in
  let sent :=
    send_message (rb := ruby) the_session
      (mkMessage ROMP_RETVAL 0 (RString "hi")) ws in
  let wr :=
    endpoint (written (events_since ws (snd sent)) ++ [1; 2])
      (mkMessage 0 0 Qnil) false in
  fst (get_message (rb := ruby) the_session wr)
  = Return (mkMessage ROMP_RETVAL 0 (RString "hi")).
Proof.
  intros ws sent wr.
  refine (proj1 (message_round_trip (rb := ruby) ws wr ROMP_RETVAL 0
                   (RString "hi") [34] [1; 2] eq_refl eq_refl _ _ _ eq_refl
                   eq_refl _ eq_refl)).
  - unfold is_short, ROMP_RETVAL. lia.
  - unfold is_short. lia.
  - discriminate.
  - simpl. lia.
Defined.

Lemma null_message_payload_ignored_witness :
  fst (get_message (rb := ruby) the_session
         (endpoint (block_of ROMP_NULL_MSG 0 3 ++ [1; 2; 3])
            (mkMessage 0 0 Qnil) false))
  = Return (mkMessage ROMP_NULL_MSG 0 Qnil).
Proof.
  exact (proj1 (null_message_payload_ignored (rb := ruby)
                  (endpoint (block_of ROMP_NULL_MSG 0 3 ++ [1; 2; 3])
                     (mkMessage 0 0 Qnil) false)
                  (block_of ROMP_NULL_MSG 0 3) [1; 2; 3] [] 3 0
                  eq_refl eq_refl eq_refl eq_refl eq_refl)).
Defined.

Lemma get_message_disconnected_witness :
  fst (get_message (rb := ruby) the_session
         (endpoint (repeat 0 16 ++ [66; 66; 0])
            (mkMessage 0 0 Qnil) false))
  = Raise (Exception "IOError" (RString "disconnected")
             (RArray [RString "client.rb:7"])).
Proof.
  refine (proj1 (get_message_disconnected (rb := ruby) [repeat 0 16]
                   [66; 66; 0]
                   (endpoint (repeat 0 16 ++ [66; 66; 0])
                      (mkMessage 0 0 Qnil) false)
                   _ eq_refl _ eq_refl)).
  - repeat constructor. vm_compute. discriminate.
  - simpl. unfold ROMP_BUFFER_SIZE. lia.
Defined.

Lemma get_message_truncated_payload_witness :
  fst (get_message (rb := ruby) the_session
         (endpoint (block_of ROMP_RETVAL 0 5 ++ [1; 2])
            (mkMessage 0 0 Qnil) false))
  = Raise (Exception "IOError" (RString "disconnected")
             (RArray [RString "client.rb:7"])).
Proof.
  refine (proj1 (get_message_truncated_payload (rb := ruby)
                   (endpoint (block_of ROMP_RETVAL 0 5 ++ [1; 2])
                      (mkMessage 0 0 Qnil) false)
                   (block_of ROMP_RETVAL 0 5) [1; 2] 5 ROMP_RETVAL 0
                   eq_refl eq_refl eq_refl _ eq_refl)).
  simpl. lia.
Defined.

Lemma lock_discipline_witness :
  exists evs,
    events_since (client [] 3)
      (snd (ruby_proxy_object_sync (rb := ruby) (Proxy_Data 0) (client [] 3)))
    = EvLock (Object 7) :: evs ++ [EvUnlock (Object 7)]
    /\ Forall client_event evs.
Proof.
  exact (proj2 (proj2 (proj2
           (lock_discipline (rb := ruby) (client [] 3) 0
              (mkProxy the_session Session_Data 3 Qfalse (Object 7)) Qnil
              eq_refl)))).
Defined.

Lemma call_returns_witness :
  fst (ruby_proxy_object_method_missing (rb := ruby) (Proxy_Data 0)
         (RArray [RString "echo"; RString "hi"])
         (client (block_of ROMP_RETVAL 0 1 ++ [34]) 1))
  = Return (RString "hi").
Proof.
  refine (proj1 (call_returns (rb := ruby)
                   (client (block_of ROMP_RETVAL 0 1 ++ [34]) 1) 0
                   (mkProxy the_session Session_Data 1 Qfalse (Object 7))
                   (RArray [RString "echo"; RString "hi"]) (RString "hi")
                   [91] (block_of ROMP_RETVAL 0 1) [34] [] 1 0
                   eq_refl eq_refl eq_refl eq_refl eq_refl eq_refl eq_refl
                   eq_refl _)).
  intros n. discriminate.
Defined.

Lemma oneway_sends_and_returns_witness :
  fst (ruby_proxy_object_oneway (rb := ruby) (Proxy_Data 0)
         (RArray [RString "incr"]) (client [1; 2; 3] 3))
  = Return Qnil.
Proof.
  exact (proj1 (proj2 (oneway_sends_and_returns (rb := ruby)
                         (client [1; 2; 3] 3) 0
                         (mkProxy the_session Session_Data 3 Qfalse (Object 7))
                         (RArray [RString "incr"]) eq_refl eq_refl))).
Defined.

Lemma oneway_sync_takes_any_reply_witness :
  fst (ruby_proxy_object_oneway_sync (rb := ruby) (Proxy_Data 0)
         (RArray [RString "incr"])
         (client (block_of ROMP_EXCEPTION 0 1 ++ [101]) 3))
  = Return Qnil.
Proof.
  exact (proj1 (oneway_sync_takes_any_reply (rb := ruby)
                  (client (block_of ROMP_EXCEPTION 0 1 ++ [101]) 3) 0
                  (mkProxy the_session Session_Data 3 Qfalse (Object 7))
                  (RArray [RString "incr"]) [91]
                  (block_of ROMP_EXCEPTION 0 1) [101] [] 1 ROMP_EXCEPTION 0
                  (mkMessage ROMP_EXCEPTION 0 boom)
                  eq_refl eq_refl eq_refl eq_refl eq_refl eq_refl eq_refl
                  eq_refl)).
Defined.

Lemma unexpected_reply_kind_witness :
  exists w',
    loop 1
      (client_request_round (rb := ruby)
         (mkProxy the_session Session_Data 3 Qfalse (Object 7)))
      (client (block_of ROMP_NULL_MSG 0 0) 3)
    = Some (Raise (Exception "RuntimeError"
                     (RString "Invalid msg type received")
                     (RArray [RString "client.rb:7"])), w').
Proof.
  destruct (unexpected_reply_kind (rb := ruby)
              (mkProxy the_session Session_Data 3 Qfalse (Object 7))
              (client (block_of ROMP_NULL_MSG 0 0) 3)
              (block_of ROMP_NULL_MSG 0 0) [] [] 0 ROMP_NULL_MSG 0
              (mkMessage ROMP_NULL_MSG 0 Qnil) 0
              eq_refl eq_refl eq_refl eq_refl eq_refl eq_refl)
    as (w' & Hloop & _); try discriminate.
  exists w'. exact Hloop.
Defined.

Lemma reference_becomes_proxy_witness :
  exists w',
    loop 1
      (client_request_round (rb := ruby)
         (mkProxy the_session Session_Data 3 Qfalse (Object 7)))
      (client (block_of ROMP_RETVAL 0 2 ++ [64; 9]) 3)
    = Some (Return (Proxy_Data 1), w') /\
    proxies w' =
    [mkProxy the_session Session_Data 3 Qfalse (Object 7);
     mkProxy the_session Session_Data 9 Qfalse (Object 7)].
Proof.
  refine (reference_becomes_proxy (rb := ruby)
            (mkProxy the_session Session_Data 3 Qfalse (Object 7))
            (client (block_of ROMP_RETVAL 0 2 ++ [64; 9]) 3)
            (block_of ROMP_RETVAL 0 2) [64; 9] [] 2 0 9 0
            eq_refl eq_refl eq_refl eq_refl eq_refl eq_refl eq_refl _).
  lia.
Defined.

Lemma msg_to_obj_idempotent_witness :
  let w := endpoint [] (mkMessage 0 0 Qnil) false in
  let made := msg_to_obj (rb := ruby) (Object_Reference 9) Session_Data
                (Object 7) w in
  msg_to_obj (rb := ruby) (Proxy_Data 0) Session_Data (Object 7) (snd made)
  = (Return (Proxy_Data 0), snd made).
Proof.
  intros w made.
  exact (msg_to_obj_idempotent (rb := ruby) (Object_Reference 9) Session_Data
           (Object 7) (Proxy_Data 0) w (snd made) eq_refl).
Defined.

Lemma yields_in_order_witness :
  exists w',
    loop 3
      (client_request_round (rb := Yielder.ruby)
         (mkProxy the_session Session_Data 4 Qfalse (Object 7)))
      (client (block_of ROMP_YIELD 0 2 ++ [105; 1]
               ++ block_of ROMP_YIELD 0 2 ++ [105; 2]
               ++ block_of ROMP_RETVAL 0 1 ++ [48]) 4)
    = Some (Return Qnil, w') /\
    events_since
      (client (block_of ROMP_YIELD 0 2 ++ [105; 1]
               ++ block_of ROMP_YIELD 0 2 ++ [105; 2]
               ++ block_of ROMP_RETVAL 0 1 ++ [48]) 4) w'
    = [EvRead (block_of ROMP_YIELD 0 2); EvRead [105; 1]; EvYield (Fixnum 1);
       EvRead (block_of ROMP_YIELD 0 2); EvRead [105; 2]; EvYield (Fixnum 2);
       EvRead (block_of ROMP_RETVAL 0 1); EvRead [48]].
Proof.
  destruct (yields_in_order (rb := Yielder.ruby)
              (mkProxy the_session Session_Data 4 Qfalse (Object 7))
              (fun v => Return Qnil)
              [(block_of ROMP_YIELD 0 2, [105; 1], Fixnum 1);
               (block_of ROMP_YIELD 0 2, [105; 2], Fixnum 2)]
              (block_of ROMP_RETVAL 0 1, [48], Qnil) []
              (client (block_of ROMP_YIELD 0 2 ++ [105; 1]
                       ++ block_of ROMP_YIELD 0 2 ++ [105; 2]
                       ++ block_of ROMP_RETVAL 0 1 ++ [48]) 4) 3 eq_refl)
    as (w' & Hloop & Hevs & _).
  - repeat constructor; try discriminate;
      exists 2, 0; split; reflexivity.
  - repeat constructor; eexists; reflexivity.
  - repeat constructor; try discriminate. exists 1, 0. split; reflexivity.
  - reflexivity.
  - reflexivity.
  - simpl. lia.
  - exists w'. split; [ exact Hloop | exact Hevs ].
Defined.

Lemma request_answered_witness :
  let w := endpoint [] (mkMessage ROMP_REQUEST 1 (RArray [RString "echo"])) false in
  events_since w
    (snd (rb_rescue2 (server_reply (rb := ruby)) (server_exception (rb := ruby))
            w))
  = [EvSend (Object 1) (RArray [RString "echo"]);
     EvWrite (block_of ROMP_RETVAL 0 1); EvWrite [91]].
Proof.
  intros w.
  exact (proj1 (proj2 (request_answered (rb := ruby) w (Object 1)
                         (RArray [RString "echo"]) [91]
                         eq_refl eq_refl eq_refl eq_refl eq_refl))).
Defined.

Lemma request_exception_witness :
  let w := endpoint [] (mkMessage ROMP_REQUEST 5 (RArray [RString "bang"])) true in
  events_since w
    (snd (rb_rescue2 (server_reply (rb := ruby)) (server_exception (rb := ruby))
            w))
  = [EvSend (Object 5) (RArray [RString "bang"]);
     EvPrint (Exception "RuntimeError" (RString "boom") (RArray []));
     EvWrite (block_of ROMP_EXCEPTION 0 1); EvWrite [101]].
Proof.
  intros w.
  exact (proj2 (request_exception (rb := ruby) w (Object 5) "RuntimeError"
                  (RString "boom")
                  [RString "thrower.rb:3:in bang"; RString "romp.rb:120:in send"]
                  [] [101] eq_refl eq_refl eq_refl eq_refl eq_refl eq_refl)).
Defined.

Lemma request_result_not_dumped_witness :
  let w := endpoint [] (mkMessage ROMP_REQUEST 2 (RArray [RString "self"])) false in
  events_since w
    (snd (rb_rescue2 (server_reply (rb := Yielder.ruby))
            (server_exception (rb := Yielder.ruby)) w))
  = [EvSend (Object 2) (RArray [RString "self"]);
     EvWrite (block_of ROMP_EXCEPTION 0 1); EvWrite [101]].
Proof.
  intros w.
  exact (proj2 (request_result_not_dumped (rb := Yielder.ruby) w (Object 2)
                  (Object 99) "TypeError" (RString "no marshal_dump is defined")
                  [RString "server.rb:1"] [] [101]
                  eq_refl eq_refl eq_refl eq_refl eq_refl eq_refl eq_refl)).
Defined.

Lemma bad_request_reported_witness :
  let w := endpoint [] (mkMessage ROMP_RETVAL 9 Qnil) false in
  get_object (Ruby := Strict.ruby) (Object 100) 9 = Raise Strict.no_object /\
  events_since w
    (snd (rb_rescue2 (server_reply (rb := Strict.ruby))
            (server_exception (rb := Strict.ruby)) w))
  = [EvWrite (block_of ROMP_EXCEPTION 0 1); EvWrite [101]].
Proof.
  intros w. split; [ reflexivity | ].
  refine (proj1 (proj2 (bad_request_reported (rb := Strict.ruby) w
                          "ArgumentError" (RString "no such object")
                          [RString "registry.rb:12:in get_object"] [] [101]
                          eq_refl _ _ _ _ _ eq_refl eq_refl eq_refl)));
    discriminate.
Defined.

Lemma request_block_frames_witness :
  let w := endpoint [] (mkMessage ROMP_REQUEST_BLOCK 4 (RArray [RString "each"]))
             false in
  events_since w
    (snd (rb_rescue2 (server_reply (rb := Yielder.ruby))
            (server_exception (rb := Yielder.ruby)) w))
  = [EvSend (Object 4) (RArray [RString "each"]);
     EvWrite (block_of ROMP_YIELD 0 2); EvWrite [105; 1];
     EvWrite (block_of ROMP_YIELD 0 2); EvWrite [105; 2];
     EvWrite (block_of ROMP_YIELD 0 2); EvWrite [105; 3];
     EvWrite (block_of ROMP_RETVAL 0 1); EvWrite [48]].
Proof.
  intros w.
  refine (proj2 (request_block_frames (rb := Yielder.ruby) w (Object 4) Qnil
                   [Fixnum 1; Fixnum 2; Fixnum 3]
                   [[105; 1]; [105; 2]; [105; 3]] [48]
                   eq_refl eq_refl eq_refl eq_refl _ eq_refl)).
  repeat constructor.
Defined.

Lemma sync_request_acknowledged_witness :
  let w := endpoint [] (mkMessage ROMP_SYNC 0 Qnil) false in
  events_since w
    (snd (rb_rescue2 (server_reply (rb := ruby)) (server_exception (rb := ruby))
            w))
  = [EvWrite (block_of ROMP_SYNC 1 1); EvWrite [48]].
Proof.
  intros w.
  exact (proj2 (sync_request_acknowledged (rb := ruby) w Qnil [48]
                  eq_refl eq_refl eq_refl eq_refl)).
Defined.

Lemma call_end_to_end_witness :
  let message := RArray [RString "echo"; RString "hi"] in
  let ws := endpoint (frame (repeat 0 16) ROMP_REQUEST 1 [91])
              (mkMessage 0 0 Qnil) false in
  let served := server_loop_round (rb := ruby) (Object 100) ws in
  let wc := client (written (events_since ws (snd served))) 1 in
  fst (ruby_proxy_object_method_missing (rb := ruby) (Proxy_Data 0) message wc)
  = Return message.
Proof.
  intros message ws served wc.
  refine (proj1 (proj2 (proj2
            (call_end_to_end ruby ruby wc ws 0
               (mkProxy the_session Session_Data 1 Qfalse (Object 7))
               message (Object 1) message [91] [91] (Object 100)
               eq_refl eq_refl eq_refl _ eq_refl eq_refl eq_refl _ eq_refl
               eq_refl eq_refl eq_refl _ _ eq_refl eq_refl)))).
  - unfold is_short. simpl. lia.
  - simpl. lia.
  - simpl. lia.
  - intros n. discriminate.
Defined.

Lemma sync_end_to_end_witness :
  let ws := endpoint (frame (repeat 0 16) ROMP_SYNC 0 [48])
              (mkMessage 0 0 Qnil) false in
  let served := server_loop_round (rb := ruby) (Object 100) ws in
  let wc := client (written (events_since ws (snd served))) 1 in
  fst (ruby_proxy_object_sync (rb := ruby) (Proxy_Data 0) wc) = Return Qnil.
Proof.
  intros ws served wc.
  refine (proj1 (proj2 (proj2 (proj2
            (sync_end_to_end ruby ruby wc ws 0
               (mkProxy the_session Session_Data 1 Qfalse (Object 7))
               Qnil Qnil Qnil [48] [48] (Object 100)
               eq_refl eq_refl eq_refl eq_refl eq_refl _ eq_refl eq_refl
               eq_refl _ eq_refl eq_refl))))).
  - simpl. lia.
  - simpl. lia.
Defined.

Lemma messages_in_order_witness :
  let ws := endpoint [] (mkMessage 0 0 Qnil) false in
  let ws1 := snd (send_message (rb := ruby) the_session
                    (mkMessage ROMP_YIELD 0 (Fixnum 1)) ws) in
  let ws2 := snd (send_message (rb := ruby) the_session
                    (mkMessage ROMP_RETVAL 0 Qnil) ws1) in
  let wr := endpoint (written (events_since ws ws2)) (mkMessage 0 0 Qnil) false in
  let got1 := get_message (rb := ruby) the_session wr in
  fst got1 = Return (mkMessage ROMP_YIELD 0 (Fixnum 1)) /\
  fst (get_message (rb := ruby) the_session (snd got1))
  = Return (mkMessage ROMP_RETVAL 0 Qnil).
Proof.
  intros ws ws1 ws2 wr got1.
  destruct (messages_in_order (rb := ruby) ws wr ROMP_YIELD 0 ROMP_RETVAL 0
              (Fixnum 1) Qnil [105; 1] [48] eq_refl eq_refl)
    as (H1 & H2 & _);
    try (unfold is_short, ROMP_YIELD, ROMP_RETVAL; lia);
    try discriminate; try reflexivity; try (simpl; lia).
  split; [ exact H1 | exact H2 ].
Defined.

(** A server that is sent one ONEWAY request before the peer closes the
    connection: the request is served, then the loop is left by the
    [IOError] of the read at the end of the input. *)
Lemma server_loop_leaves_by_exception_witness :
  let w :=
    endpoint (block_of ROMP_ONEWAY 1 1 ++ [91]) (mkMessage 0 0 Qnil) false in
  let run := server_loop (rb := ruby) the_session (Object 100) false w in
  fst run = Raise (Exception "IOError" (RString "disconnected")
                     (RArray [RString "client.rb:7"])) /\
  read_fd (session (snd run)) = [] /\
  List.filter is_send (trace (snd run))
  = [EvSend (Object 1) (RArray [RString "echo"; RString "hi"])].
Proof.
  intros w run.
  set (w0 := serving the_session (Object 100) false w).
  set (w1 := snd (server_loop_round (rb := ruby) (Object 100) w0)).
  assert (Hserved : served (rb := ruby) 1 (Object 100) w0 = Some w1)
    by reflexivity.
  assert (Hshort : (length (read_fd (session w1)) < ROMP_BUFFER_SIZE)%nat)
    by (vm_compute; lia).
  destruct (proj2 (proj2 (server_loop_leaves_by_exception (rb := ruby)
                            the_session (Object 100) false w))
              1%nat w1 Hserved Hshort) as (Hrun & Hfd & Htrace).
  fold run in Hrun, Hfd, Htrace.
  repeat apply conj; [ exact Hrun | exact Hfd | ].
  rewrite Htrace. reflexivity.
Defined.

End Scenarios.
